(** * Commonly channel adapter: event normalisation and delivery

    A shallow embedding of the Commonly channel of openclaw:

    - [Js]        the JavaScript string and value operations the code relies on
                  (trim, truthiness, join, property access);
    - [Events]    the event vocabulary of [events.ts];
    - [Format]    the body formatters of [extensions/commonly/src/channel.ts];
    - [Client]    the REST client [CommonlyClient];
    - [WebSocket] the subscription state machine of [websocket.ts];
    - [Legacy]    [CommonlyChannel.transformEvent];
    - [Handler]   the [ws.onEvent] handler of [gateway.startAccount];
    - [Vocabulary], [Scenarios], [Tactics]: what the statements and proofs
                  share; the properties follow, one module per component.

    Strings are Rocq strings (sequences of 8-bit characters); [trim] removes
    the ASCII white space characters.  Effects are explicit: every effectful
    function threads a chronological trace of the observable actions, and
    the network and the host are parameters. *)

From Stdlib Require Import String Ascii List ZArith Bool Lia DecimalString.
Import ListNotations.
Open Scope string_scope.

(* ================================================================== *)
(** ** JavaScript primitives *)

Module Js.

(** The line feed used by [join("\n")]. *)
Definition LF : string := String "010"%char "".

(** White space removed by [String.prototype.trim], ASCII part:
    TAB, LF, VT, FF, CR and SPACE. *)
Definition is_ws (c : ascii) : bool :=
  let n := nat_of_ascii c in
  ((9 <=? n)%nat && (n <=? 13)%nat) || (n =? 32)%nat.

Fixpoint trimStart (s : string) : string :=
  match s with
  | String c r => if is_ws c then trimStart r else s
  | EmptyString => EmptyString
  end.

Fixpoint trimEnd (s : string) : string :=
  match s with
  | String c r =>
      let r' := trimEnd r in
      if is_ws c && (r' =? "") then EmptyString else String c r'
  | EmptyString => EmptyString
  end.

Definition trim (s : string) : string := trimEnd (trimStart s).

(** A string is truthy when it is not empty. *)
Definition truthy (s : string) : bool := negb (s =? "").

(** [o || d] for an optional string [o]. *)
Definition or_else (o : option string) (d : string) : string :=
  match o with
  | Some s => if truthy s then s else d
  | None => d
  end.

(** [o?.trim() || d]. *)
Definition trim_or (o : option string) (d : string) : string :=
  or_else (option_map trim o) d.

(** [o?.trim()] followed by a truthiness test ([undefined] when falsy). *)
Definition nonempty (o : option string) : option string :=
  match o with
  | Some s => if truthy s then Some s else None
  | None => None
  end.

(** [String(n)] for an integral number. *)
Definition numToString (z : Z) : string :=
  NilZero.string_of_int (Z.to_int z).

(** [lines.join(sep)]. *)
Definition join (sep : string) (parts : list string) : string :=
  String.concat sep parts.

(** [s.includes(sub)]. *)
Fixpoint includes (s sub : string) : bool :=
  prefix sub s ||
  match s with
  | String _ r => includes r sub
  | EmptyString => false
  end.

(** [arr.push(x1, ..., xn)], on an immutable list. *)
Definition push {A} (l xs : list A) : list A := app l xs.

(** [arr.slice(-n)]: the last [n] elements. *)
Definition slice_last {A} (n : nat) (l : list A) : list A :=
  skipn (length l - n) l.

(** [s.slice(0, n)]. *)
Definition slice_front (n : nat) (s : string) : string := substring 0 n s.

(** JavaScript values, as far as the client inspects them. *)
#[local] Unset Elimination Schemes.
Inductive value : Type :=
| VUndefined
| VNull
| VBool (b : bool)
| VNum (z : Z)
| VStr (s : string)
| VArr (items : list value)
| VObj (fields : list (string * value)).
#[local] Set Elimination Schemes.

(** [String(v)]. *)
Fixpoint toString (v : value) : string :=
  match v with
  | VUndefined => "undefined"
  | VNull => "null"
  | VBool b => if b then "true" else "false"
  | VNum z => numToString z
  | VStr s => s
  | VArr items =>
      join ","
        (map (fun x => match x with
                       | VUndefined | VNull => EmptyString
                       | _ => toString x
                       end) items)
  | VObj _ => "[object Object]"
  end.

Definition value_truthy (v : value) : bool :=
  match v with
  | VUndefined | VNull => false
  | VBool b => b
  | VNum z => negb (z =? 0)%Z
  | VStr s => truthy s
  | VArr _ | VObj _ => true
  end.

Fixpoint assoc (k : string) (fs : list (string * value)) : option value :=
  match fs with
  | [] => None
  | (k', v) :: r => if k' =? k then Some v else assoc k r
  end.

(** Errors a promise can reject with. *)
Inductive error : Type :=
| Error (msg : string)
| TypeError (msg : string)
| SyntaxError (msg : string).

(** [v.k]: property access, a [TypeError] on [undefined] and [null]. *)
Definition get_prop (v : value) (k : string) : error + value :=
  match v with
  | VUndefined | VNull => inl (TypeError "Cannot read properties of undefined")
  | VObj fs => inr (match assoc k fs with Some x => x | None => VUndefined end)
  | _ => inr VUndefined
  end.

(** [{...fs, k: v}]: an own key keeps its place, a new key goes last. *)
Fixpoint obj_set (k : string) (v : value) (fs : list (string * value))
  : list (string * value) :=
  match fs with
  | [] => [(k, v)]
  | (k', v') :: r => if k' =? k then (k, v) :: r else (k', v') :: obj_set k v r
  end.

Definition opt_str (o : option string) : value :=
  match o with Some s => VStr s | None => VUndefined end.

End Js.

(* ================================================================== *)
(** ** Events ([events.ts]) *)

Module Events.

Record Thread := {
  postId : string;
  postContent : option string;
  commentId : option string;
  commentText : option string
}.

Record Summary := {
  sm_content : option string;
  sm_title : option string;
  sm_channelName : option string;
  sm_channelUrl : option string;
  sm_messageCount : option Z;
  sm_timeRange : option string;
  sm_summaryType : option string
}.

Record Participant := {
  agentType : string;
  p_instanceId : option string;
  displayName : option string;
  role : option string
}.

Record HistoryEntry := {
  h_agentType : string;
  h_content : string;
  h_timestamp : Z
}.

Record KeyPoint := { k_content : string }.

Record EnsembleContext := {
  topic : string;
  turnNumber : Z;
  roundNumber : Z;
  isStarter : bool;
  recentHistory : list HistoryEntry;
  keyPoints : list KeyPoint
}.

Record CommonlyEventPayload := {
  messageId : option string;
  content : option string;
  userId : option string;
  username : option string;
  mentions : option (list string);
  source : option string;
  thread : option Thread;
  summary : option Summary;
  ensembleId : option string;
  participants : option (list Participant);
  context : option EnsembleContext
}.

(** [_id] and [podId] are declared as strings, and the handler tests both
    for truthiness; [payload] is read through [?.] everywhere. *)
Record CommonlyEvent := {
  _id : option string;
  type : string;
  podId : option string;
  payload : option CommonlyEventPayload;
  agentName : option string;
  instanceId : option string;
  createdAt : option string
}.

Definition emptyPayload : CommonlyEventPayload :=
  {| messageId := None; content := None; userId := None; username := None;
     mentions := None; source := None; thread := None; summary := None;
     ensembleId := None; participants := None; context := None |}.

(** [event.payload?.f]. *)
Definition pfield {A} (f : CommonlyEventPayload -> option A)
           (event : CommonlyEvent) : option A :=
  match payload event with
  | Some p => f p
  | None => None
  end.

(** The event types the specification lists as recognised ([events.ts]
    names the first four in [CommonlyEventType]). *)
Definition recognizedTypes : list string :=
  ["chat.mention"; "thread.mention"; "summary.request"; "ensemble.turn";
   "pod.message"; "heartbeat"].

Definition recognized (t : string) : bool :=
  existsb (String.eqb t) recognizedTypes.

End Events.

(* ================================================================== *)
(** ** Body formatters ([channel.ts], lines 33-98) *)

Module Format.
Import Js Events.

Definition buildSummaryMessage (summary : option Summary) : string :=
  match summary with
  | None => EmptyString
  | Some sm =>
      let title := trim_or (sm_title sm) "Commonly Update" in
      let l1 := [title] in
      let l2 :=
        match nonempty (option_map trim (sm_channelName sm)) with
        | Some ch => push l1 ["🔗 #" ++ ch]
        | None => l1
        end in
      let l3 :=
        match sm_messageCount sm with
        | Some n => if (n =? 0)%Z then l2
                    else push l2 ["💬 " ++ numToString n ++ " messages"]
        | None => l2
        end in
      let l4 :=
        match nonempty (sm_timeRange sm) with
        | Some tr => push l3 ["🕐 " ++ tr]
        | None => l3
        end in
      let l5 :=
        match nonempty (sm_content sm) with
        | Some c => push l4 [EmptyString; c]
        | None => l4
        end in
      join LF l5
  end.

Definition formatThreadBody (event : CommonlyEvent) : string :=
  let content := trim_or (pfield content event) "" in
  match pfield thread event with
  | None => content
  | Some th =>
      match nonempty (postContent th) with
      | None => content
      | Some pc =>
          let parts := ["Post: " ++ trim pc] in
          let parts := if truthy content
                       then push parts ["Comment: " ++ content]
                       else parts in
          join (LF ++ LF) parts
      end
  end.

Definition starterSentence : string :=
  "You are the starter. Provide the opening message.".
Definition responderSentence : string :=
  "You are responding to the ongoing discussion.".

Definition participantLabel (p : Participant) : string :=
  or_else (displayName p) (agentType p) ++ " (" ++ agentType p ++ ":"
    ++ or_else (p_instanceId p) "default" ++ ")".

Definition formatEnsembleTurnBody (event : CommonlyEvent) : string :=
  match pfield context event with
  | None => EmptyString
  | Some ctx =>
      let lines :=
        [ "Ensemble topic: " ++ topic ctx;
          "Turn: " ++ numToString (turnNumber ctx)
            ++ " (round " ++ numToString (roundNumber ctx) ++ ")";
          if isStarter ctx then starterSentence else responderSentence ] in
      let ps := match pfield participants event with
                | Some l => l
                | None => []
                end in
      let lines :=
        if (0 <? length ps)%nat
        then push lines ["Participants: " ++ join ", " (map participantLabel ps)]
        else lines in
      let lines :=
        if (0 <? length (recentHistory ctx))%nat
        then push (push lines [EmptyString; "Recent history:"])
               (map (fun e => "- " ++ h_agentType e ++ ": " ++ h_content e)
                    (slice_last 5 (recentHistory ctx)))
        else lines in
      let lines :=
        if (0 <? length (keyPoints ctx))%nat
        then push (push lines [EmptyString; "Key points:"])
               (map (fun e => "- " ++ k_content e)
                    (slice_last 5 (keyPoints ctx)))
        else lines in
      join LF lines
  end.

End Format.

(* ================================================================== *)
(** ** Observable actions and the effect monad *)

Module Http.

Inductive method := GET | POST.

(** One [fetch] call.  The query holds the [searchParams] before the URL
    library encodes them; the body is the value given to
    [JSON.stringify]. *)
Record Request := {
  rq_method : method;
  rq_url : string;
  rq_query : list (string * string);
  rq_headers : list (string * string);
  rq_body : option Js.value
}.

(** What the client reads of a response: [ok], [status] and the result of
    [res.json()] ([None] when the body is not JSON). *)
Record Response := {
  ok : bool;
  status : Z;
  json : option Js.value
}.

Inductive FetchResult :=
| Resolved (r : Response)
| Rejected (e : Js.error).

End Http.

Module Inbound.

(** The context handed to the reply pipeline. *)
Record InboundContext := {
  Body : string;
  RawBody : string;
  CommandBody : string;
  From : string;
  To : string;
  SessionKey : string;
  AccountId : string;
  ChatType : string;
  ConversationLabel : option string;
  GroupSubject : option string;
  SenderName : option string;
  SenderId : option string;
  Provider : string;
  Surface : string;
  MessageSid : option string;
  ThreadStarterBody : option string;
  MessageThreadId : option string;
  WasMentioned : bool;
  OriginatingChannel : string;
  OriginatingTo : string
}.

Record Route := {
  sessionKey : string;
  rt_accountId : string;
  agentId : string;
  mainSessionKey : string
}.

(** The options of [dispatchReplyWithBufferedBlockDispatcher] that are
    data; [deliver] and [onError] are the handler's own closures. *)
Record DispatcherOptions := {
  responsePrefix : option string
}.

Record ReplyPayload := {
  text : option string;
  mediaUrl : option string
}.

(** One reply block of the host, with the [kind] reported to [onError]. *)
Record ReplyBlock := {
  kind : string;
  block : ReplyPayload
}.

End Inbound.

Module Eff.
Import Http Inbound.

(** The two status updates of the handler; their values are [Date.now()],
    which the trace does not record. *)
Inductive StatusPatch :=
| StInbound   (** [lastInboundAt] and [lastEventAt] *)
| StOutbound. (** [lastOutboundAt] *)

Inductive Action :=
| Fetch (rq : Request)
| ConsoleWarn (msg : string)
| SetStatus (accountId : string) (patch : StatusPatch)
| LogWarn (msg : string)
| LogError (msg : string)
| RecordInboundSession (storePath : string) (key : string)
    (ctx : InboundContext) (threadId : option string)
| DispatchBegin (ctx : InboundContext) (opts : DispatcherOptions)
| DispatchEnd.

Definition Trace := list Action.

Inductive outcome (A : Type) :=
| Returned (a : A)
| Thrown (e : Js.error).
Arguments Returned {A} a.
Arguments Thrown {A} e.

(** A computation over a state [S], which either returns or throws; the
    state survives a throw. *)
Definition M (S A : Type) : Type := S -> S * outcome A.

Definition ret {S A} (a : A) : M S A := fun s => (s, Returned a).
Definition throw {S A} (e : Js.error) : M S A := fun s => (s, Thrown e).
Definition bind {S A B} (m : M S A) (k : A -> M S B) : M S B :=
  fun s => match m s with
           | (s', Returned a) => k a s'
           | (s', Thrown e) => (s', Thrown e)
           end.
(** [try { m } catch (e) { h e }]. *)
Definition catch {S A} (m : M S A) (h : Js.error -> M S A) : M S A :=
  fun s => match m s with
           | (s', Returned a) => (s', Returned a)
           | (s', Thrown e) => h e s'
           end.

Definition emit (a : Action) : M Trace unit :=
  fun tr => (Js.push tr [a], Returned tt).

Definition is_fetch (a : Action) : bool :=
  match a with Fetch _ => true | _ => false end.
Definition is_warn (a : Action) : bool :=
  match a with ConsoleWarn _ => true | _ => false end.

End Eff.

Declare Scope eff_scope.
Delimit Scope eff_scope with eff.
Notation "x <- m ;; k" := (Eff.bind m (fun x => k))
  (at level 61, m at next level, right associativity) : eff_scope.
Notation "m ;;; k" := (Eff.bind m (fun _ => k))
  (at level 61, right associativity) : eff_scope.

(* ================================================================== *)
(** ** The REST client ([CommonlyClient]) *)

Module Client.
Import Js Http Eff.
#[local] Open Scope eff_scope.

Record CommonlyClientConfig := {
  baseUrl : string;
  runtimeToken : option string;
  userToken : option string;
  agentName : option string;
  instanceId : option string
}.

Inductive MemoryTarget := daily | memory | skill.

Definition targetName (t : MemoryTarget) : string :=
  match t with daily => "daily" | memory => "memory" | skill => "skill" end.

Record WriteOptions := {
  tags : option (list string);
  wsource : option (list (string * value))
}.

Section WithNetwork.

(** The network: what [fetch] answers to a request, given all that
    happened before. *)
Variable fetch : Trace -> Request -> FetchResult.
(** Whether [new URL(s)] accepts [s]. *)
Variable validURL : string -> bool.
Variable config : CommonlyClientConfig.

Definition bearer (token : string) : list (string * string) :=
  [("Authorization", "Bearer " ++ token);
   ("Content-Type", "application/json")].

Definition runtimeHeaders : M Trace (list (string * string)) :=
  match nonempty (option_map trim (runtimeToken config)) with
  | Some token => ret (bearer token)
  | None => throw (Error "Commonly runtime token is required")
  end.

Definition userHeaders : M Trace (list (string * string)) :=
  let token :=
    match nonempty (option_map trim (userToken config)) with
    | Some t => Some t
    | None => option_map trim (runtimeToken config)
    end in
  match nonempty token with
  | Some token => ret (bearer token)
  | None => throw (Error "Commonly user token is required")
  end.

Definition doFetch (rq : Request) : M Trace Response :=
  fun tr =>
    match fetch tr rq with
    | Resolved r => (push tr [Fetch rq], Returned r)
    | Rejected e => (push tr [Fetch rq], Thrown e)
    end.

Definition newURL (s : string) : M Trace string :=
  if validURL s then ret s else throw (TypeError "Invalid URL").

Definition resJson (res : Response) : M Trace value :=
  match json res with
  | Some v => ret v
  | None => throw (SyntaxError "Unexpected token in JSON")
  end.

(** [data.k || d]. *)
Definition prop_or (data : value) (k : string) (d : value) : M Trace value :=
  match get_prop data k with
  | inl e => throw e
  | inr x => ret (if value_truthy x then x else d)
  end.

Definition warn (msg : string) : M Trace unit := emit (ConsoleWarn msg).

Definition healthCheck : M Trace bool :=
  catch
    (res <- doFetch {| rq_method := GET;
                       rq_url := baseUrl config ++ "/api/health";
                       rq_query := [];
                       rq_headers := [("Content-Type", "application/json")];
                       rq_body := None |} ;;
     ret (ok res))
    (fun _ => ret false).

Definition fetchEvents : M Trace value :=
  url <- newURL (baseUrl config ++ "/api/agents/runtime/events") ;;
  let q := [("agentName", or_else (agentName config) "openclaw");
            ("instanceId", or_else (instanceId config) "default")] in
  h <- runtimeHeaders ;;
  res <- doFetch {| rq_method := GET; rq_url := url; rq_query := q;
                    rq_headers := h; rq_body := None |} ;;
  if negb (ok res)
  then throw (Error ("Failed to fetch events: " ++ numToString (status res)))
  else data <- resJson res ;; prop_or data "events" (VArr []).

Definition ackEvent (eventId : string) : M Trace unit :=
  let url := baseUrl config ++ "/api/agents/runtime/events/" ++ eventId
             ++ "/ack" in
  h <- runtimeHeaders ;;
  res <- doFetch {| rq_method := POST; rq_url := url; rq_query := [];
                    rq_headers := h; rq_body := None |} ;;
  if negb (ok res)
  then throw (Error ("Failed to ack event: " ++ numToString (status res)))
  else ret tt.

Definition postMessage (podId content : string)
           (metadata : list (string * value)) : M Trace value :=
  let url := baseUrl config ++ "/api/agents/runtime/pods/" ++ podId
             ++ "/messages" in
  h <- runtimeHeaders ;;
  let body :=
    VObj [("content", VStr content);
          ("messageType", VStr "text");
          ("metadata",
           VObj (obj_set "instanceId" (opt_str (instanceId config))
                  (obj_set "agentType" (opt_str (agentName config))
                     metadata)))] in
  res <- doFetch {| rq_method := POST; rq_url := url; rq_query := [];
                    rq_headers := h; rq_body := Some body |} ;;
  if negb (ok res)
  then throw (Error ("Failed to post message: " ++ numToString (status res)))
  else resJson res.

Definition postThreadComment (threadId content : string) : M Trace value :=
  let url := baseUrl config ++ "/api/agents/runtime/threads/" ++ threadId
             ++ "/comments" in
  h <- runtimeHeaders ;;
  res <- doFetch {| rq_method := POST; rq_url := url; rq_query := [];
                    rq_headers := h;
                    rq_body := Some (VObj [("content", VStr content)]) |} ;;
  if negb (ok res)
  then throw (Error ("Failed to post thread comment: "
                     ++ numToString (status res)))
  else resJson res.

Definition getContext (podId : string) (task : option string)
  : M Trace value :=
  url <- newURL (baseUrl config ++ "/api/agents/runtime/pods/" ++ podId
                 ++ "/context") ;;
  let q := match nonempty task with
           | Some t => [("task", t)]
           | None => []
           end in
  h <- runtimeHeaders ;;
  res <- doFetch {| rq_method := GET; rq_url := url; rq_query := q;
                    rq_headers := h; rq_body := None |} ;;
  if negb (ok res)
  then warn ("Failed to get context: " ++ numToString (status res)) ;;;
       ret VNull
  else resJson res.

Definition getMessages (podId : string) (limit : Z) : M Trace value :=
  url <- newURL (baseUrl config ++ "/api/agents/runtime/pods/" ++ podId
                 ++ "/messages") ;;
  let q := [("limit", numToString limit)] in
  h <- runtimeHeaders ;;
  res <- doFetch {| rq_method := GET; rq_url := url; rq_query := q;
                    rq_headers := h; rq_body := None |} ;;
  if negb (ok res)
  then warn ("Failed to get messages: " ++ numToString (status res)) ;;;
       ret (VArr [])
  else data <- resJson res ;; prop_or data "messages" (VArr []).

Definition search (podId query : string) : M Trace value :=
  url <- newURL (baseUrl config ++ "/api/v1/search/" ++ podId) ;;
  let q := [("q", query)] in
  h <- userHeaders ;;
  res <- doFetch {| rq_method := GET; rq_url := url; rq_query := q;
                    rq_headers := h; rq_body := None |} ;;
  if negb (ok res)
  then warn ("Failed to search: " ++ numToString (status res)) ;;;
       ret (VArr [])
  else data <- resJson res ;; prop_or data "results" (VArr []).

Definition readMemory (podId path : string) : M Trace value :=
  url <- newURL (baseUrl config ++ "/api/v1/pods/" ++ podId ++ "/memory/"
                 ++ path) ;;
  h <- userHeaders ;;
  res <- doFetch {| rq_method := GET; rq_url := url; rq_query := [];
                    rq_headers := h; rq_body := None |} ;;
  if negb (ok res)
  then warn ("Failed to read memory: " ++ numToString (status res)) ;;;
       ret VNull
  else resJson res.

Definition writeMemory (podId : string) (target : MemoryTarget)
           (content : string) (options : WriteOptions) : M Trace value :=
  let url := baseUrl config ++ "/api/v1/memory/" ++ podId in
  h <- userHeaders ;;
  let src := match wsource options with Some fs => fs | None => [] end in
  let body :=
    VObj [("target", VStr (targetName target));
          ("content", VStr content);
          ("tags", VArr (map VStr (match tags options with
                                   | Some l => l
                                   | None => []
                                   end)));
          ("source",
           VObj (obj_set "instanceId" (opt_str (instanceId config))
                  (obj_set "agentType" (opt_str (agentName config))
                     src)))] in
  res <- doFetch {| rq_method := POST; rq_url := url; rq_query := [];
                    rq_headers := h; rq_body := Some body |} ;;
  if negb (ok res)
  then throw (Error ("Failed to write memory: " ++ numToString (status res)))
  else resJson res.

Definition getSummaries (podId : string) (hours : Z) : M Trace value :=
  url <- newURL (baseUrl config ++ "/api/v1/pods/" ++ podId
                 ++ "/summaries") ;;
  let q := [("hours", numToString hours)] in
  h <- userHeaders ;;
  res <- doFetch {| rq_method := GET; rq_url := url; rq_query := q;
                    rq_headers := h; rq_body := None |} ;;
  if negb (ok res)
  then warn ("Failed to get summaries: " ++ numToString (status res)) ;;;
       ret (VArr [])
  else data <- resJson res ;; prop_or data "summaries" (VArr []).

(** After the warning there is no [return]: the function goes on to
    [res.json()] whatever the status was. *)
Definition reportEnsembleResponse (podId ensembleId content : string)
           (messageId : option string) : M Trace value :=
  let url := baseUrl config ++ "/api/pods/" ++ podId
             ++ "/ensemble/response" in
  h <- runtimeHeaders ;;
  let body :=
    VObj [("ensembleId", VStr ensembleId);
          ("agentType", opt_str (agentName config));
          ("instanceId", opt_str (instanceId config));
          ("content", VStr content);
          ("messageId", opt_str messageId)] in
  res <- doFetch {| rq_method := POST; rq_url := url; rq_query := [];
                    rq_headers := h; rq_body := Some body |} ;;
  (if negb (ok res)
   then warn ("Failed to report ensemble response: "
              ++ numToString (status res))
   else ret tt) ;;;
  resJson res.

End WithNetwork.

End Client.

(* ================================================================== *)
(** ** The push connection ([websocket.ts]) *)

Module WebSocket.
Import Events.

Record CommonlyWebSocketConfig := {
  baseUrl : string;
  runtimeToken : string;
  podIds : option (list string)
}.

Record Status := {
  st_connected : bool;
  st_reason : option string;
  st_error : option string
}.

(** Frames sent to the server with [socket.emit]. *)
Inductive Frame :=
| Subscribe (ids : list string)
| Unsubscribe (ids : list string)
| Pong.

(** What the object does to the outside, in order. *)
Inductive Output :=
| Open (url token : string)
| Emit (f : Frame)
| Notify (handler : nat) (s : Status)
| Deliver (handler : nat) (e : CommonlyEvent)
| Close.

(** The socket handle: only its [connected] flag is read. *)
Record Socket := { connected : bool }.

Record State := {
  socket : option Socket;
  eventHandlers : list nat;
  statusHandlers : list nat;
  subscribedPodIds : list string;
  out : list Output
}.

Definition create : State :=
  {| socket := None; eventHandlers := []; statusHandlers := [];
     subscribedPodIds := []; out := [] |}.

Definition mem (x : string) (l : list string) : bool :=
  existsb (String.eqb x) l.

(** [[...new Set(l)]]: the first occurrence of each element, in order. *)
Definition setOf (l : list string) : list string :=
  fold_left (fun acc x => if mem x acc then acc else app acc [x]) l [].

Definition with_out (st : State) (o : list Output) : State :=
  {| socket := socket st; eventHandlers := eventHandlers st;
     statusHandlers := statusHandlers st;
     subscribedPodIds := subscribedPodIds st; out := app (out st) o |}.

Definition with_socket (st : State) (s : option Socket) : State :=
  {| socket := s; eventHandlers := eventHandlers st;
     statusHandlers := statusHandlers st;
     subscribedPodIds := subscribedPodIds st; out := out st |}.

Definition with_pods (st : State) (ids : list string) : State :=
  {| socket := socket st; eventHandlers := eventHandlers st;
     statusHandlers := statusHandlers st;
     subscribedPodIds := ids; out := out st |}.

(** [this.socket?.emit(...)]. *)
Definition socket_emit (f : Frame) (st : State) : State :=
  match socket st with
  | Some _ => with_out st [Emit f]
  | None => st
  end.

Definition emitStatus (s : Status) (st : State) : State :=
  with_out st (map (fun h => Notify h s) (statusHandlers st)).

Definition onStatus (handler : nat) (st : State) : State :=
  {| socket := socket st; eventHandlers := eventHandlers st;
     statusHandlers := app (statusHandlers st) [handler];
     subscribedPodIds := subscribedPodIds st; out := out st |}.

Definition onEvent (handler : nat) (st : State) : State :=
  {| socket := socket st; eventHandlers := app (eventHandlers st) [handler];
     statusHandlers := statusHandlers st;
     subscribedPodIds := subscribedPodIds st; out := out st |}.

Definition socket_connected (st : State) : bool :=
  match socket st with
  | Some s => connected s
  | None => false
  end.

Section WithConfig.

Variable config : CommonlyWebSocketConfig.
(** [new URL(s).origin], [None] when [new URL] rejects [s]. *)
Variable origin : string -> option string.

(** [connect()] up to its [await]: the socket is created and the
    handlers below are registered on it. *)
Definition connect (st : State) : Js.error + State :=
  if socket_connected st then inr st
  else
    match origin (baseUrl config) with
    | None => inl (Js.TypeError "Invalid URL")
    | Some o =>
        inr (with_out (with_socket st (Some {| connected := false |}))
                      [Open (o ++ "/agents") (runtimeToken config)])
    end.

End WithConfig.

(** The socket's [connect] event (first connect and every reconnect): the
    transport has set [connected]; the handler notifies and replays. *)
Definition on_connect (st : State) : State :=
  let st := match socket st with
            | Some _ => with_socket st (Some {| connected := true |})
            | None => st
            end in
  let st := emitStatus {| st_connected := true; st_reason := None;
                          st_error := None |} st in
  if (0 <? length (subscribedPodIds st))%nat
  then socket_emit (Subscribe (subscribedPodIds st)) st
  else st.

Definition on_disconnect (reason : string) (st : State) : State :=
  let st := match socket st with
            | Some _ => with_socket st (Some {| connected := false |})
            | None => st
            end in
  emitStatus {| st_connected := false; st_reason := Some reason;
                st_error := None |} st.

(** [msg] is [err?.message || String(err)]. *)
Definition on_connect_error (msg : string) (st : State) : State :=
  emitStatus {| st_connected := false; st_reason := None;
                st_error := Some msg |} st.

Definition on_ping (st : State) : State := socket_emit Pong st.

Definition on_event (e : CommonlyEvent) (st : State) : State :=
  with_out st (map (fun h => Deliver h e) (eventHandlers st)).

Definition subscribe (ids : list string) (st : State) : State :=
  match socket st with
  | None => st
  | Some _ =>
      match ids with
      | [] => st
      | _ =>
          let st := with_pods st (setOf (app (subscribedPodIds st) ids)) in
          with_out st [Emit (Subscribe ids)]
      end
  end.

Definition unsubscribe (ids : list string) (st : State) : State :=
  match socket st with
  | None => st
  | Some _ =>
      match ids with
      | [] => st
      | _ =>
          let st :=
            with_pods st
              (filter (fun id => negb (mem id ids)) (subscribedPodIds st)) in
          with_out st [Emit (Unsubscribe ids)]
      end
  end.

Definition disconnect (st : State) : State :=
  match socket st with
  | Some _ => with_socket (with_out st [Close]) None
  | None => st
  end.

Definition isConnected (st : State) : bool := socket_connected st.

(** Frames a piece of output carries. *)
Definition frames (o : list Output) : list Frame :=
  flat_map (fun x => match x with Emit f => [f] | _ => [] end) o.

Definition is_subscribe (f : Frame) : bool :=
  match f with Subscribe _ => true | _ => false end.

End WebSocket.

(* ================================================================== *)
(** ** [CommonlyChannel.transformEvent] *)

Module Legacy.
Import Js Events.

Inductive MessageType :=
| message | thread_mention | ensemble_turn | summary_message.

Inductive Metadata :=
| MetaMessage (mentions : option (list string)) (messageId : option string)
| MetaThread (thread : option Thread) (messageId : option string)
| MetaEnsemble (ensembleId : option string) (context : option EnsembleContext).

Record CommonlyInboundMessage := {
  id : string;
  channelId : string;
  channelName : string;
  senderId : string;
  senderName : string;
  timestamp : Z;
  mtype : MessageType;
  mcontent : string;
  metadata : Metadata
}.

(** The parameter of [transformEvent]: every field is required. *)
Record RawEvent := {
  r_type : string;
  r_podId : string;
  r_payload : CommonlyEventPayload;
  r_id : string
}.

(** [now] is [new Date()].  The result pairs what was written with
    [console.log] with the message, [None] standing for [null]. *)
Definition transformEvent (now : Z) (event : RawEvent)
  : list string * option CommonlyInboundMessage :=
  let p := r_payload event in
  let base (t : MessageType) (c : string) (m : Metadata) :=
    {| id := r_id event;
       channelId := r_podId event;
       channelName := "commonly";
       senderId := or_else (userId p) "unknown";
       senderName := or_else (username p) "Unknown";
       timestamp := now;
       mtype := t;
       mcontent := c;
       metadata := m |} in
  let ty := r_type event in
  if ty =? "chat.mention" then
    ([], Some (base message
                 (match content p with Some c => c | None => EmptyString end)
                 (MetaMessage (mentions p) (messageId p))))
  else if ty =? "thread.mention" then
    ([], Some (base thread_mention
                 (match content p with Some c => c | None => EmptyString end)
                 (MetaThread (thread p) (messageId p))))
  else if ty =? "ensemble.turn" then
    ([], Some (base ensemble_turn
                 (or_else (option_map topic (context p)) EmptyString)
                 (MetaEnsemble (ensembleId p) (context p))))
  else
    (["[commonly] Unknown event type: " ++ ty], None).

End Legacy.

(* ================================================================== *)
(** ** The event handler of [gateway.startAccount] ([channel.ts]) *)

Module Handler.
Import Js Events Format Http Inbound Eff.
#[local] Open Scope eff_scope.

(** The handler's state: the trace, and the one-shot flag
    [ensembleResponseSent] that the [deliver] closure captures. *)
Record HState := {
  trace : Trace;
  ensembleResponseSent : bool
}.

Definition lift {A} (m : M Trace A) : M HState A :=
  fun s =>
    let (tr, r) := m (trace s) in
    ({| trace := tr; ensembleResponseSent := ensembleResponseSent s |}, r).

Definition getSent : M HState bool :=
  fun s => (s, Returned (ensembleResponseSent s)).

Definition setSent (b : bool) : M HState unit :=
  fun s => ({| trace := trace s; ensembleResponseSent := b |}, Returned tt).

Definition getTrace : M HState Trace :=
  fun s => (s, Returned (trace s)).

(** [String(err)]. *)
Definition errorString (e : Js.error) : string :=
  match e with
  | Error m => "Error: " ++ m
  | TypeError m => "TypeError: " ++ m
  | SyntaxError m => "SyntaxError: " ++ m
  end.

(** [posted?.id ? String(posted.id) : undefined]. *)
Definition postedId (posted : value) : option string :=
  match posted with
  | VObj fs =>
      match assoc "id" fs with
      | Some x => if value_truthy x then Some (toString x) else None
      | None => None
      end
  | _ => None
  end.

Record ResolvedCommonlyAccount := {
  accountId : option string;
  client : Client.CommonlyClientConfig
}.

Section WithHost.

Variable fetch : Trace -> Request -> FetchResult.
(** [ctx.abortSignal.aborted] when the handler is entered. *)
Variable aborted : bool.
Variable account : ResolvedCommonlyAccount.
Variable DEFAULT_ACCOUNT_ID : string.
(** The host: route resolution for (account, pod), context
    finalisation, store path, configured reply prefix per agent, the
    directive stripper behind [sanitizeOutboundText], and the reply
    blocks the pipeline produces for a context. *)
Variable resolveAgentRoute : option string -> string -> Route.
Variable finalizeInboundContext : InboundContext -> InboundContext.
Variable resolveStorePath : string -> string.
Variable configuredPrefix : string -> option string.
Variable parseInlineDirectives : string -> string.
Variable replyBlocks :
  Trace -> InboundContext -> DispatcherOptions -> list ReplyBlock.

Definition connectionKey : string :=
  match accountId account with
  | Some a => a
  | None => DEFAULT_ACCOUNT_ID
  end.

Definition postMessage := Client.postMessage fetch (client account).
Definition postThreadComment :=
  Client.postThreadComment fetch (client account).
Definition ackEvent := Client.ackEvent fetch (client account).
Definition reportEnsembleResponse :=
  Client.reportEnsembleResponse fetch (client account).

Definition sanitizeOutboundText (text : option string) : string :=
  match nonempty text with
  | None => EmptyString
  | Some t => parseInlineDirectives t
  end.

Definition setStatus (p : StatusPatch) : M HState unit :=
  lift (emit (SetStatus connectionKey p)).

Definition ackIfId (event : CommonlyEvent) : M HState unit :=
  match nonempty (_id event) with
  | Some i => lift (ackEvent i)
  | None => ret tt
  end.

(** Modelled from the spec: [recordInboundSession], which belongs to the
    host and is not part of these sources.  A record error is logged through
    [onRecordError] and never propagated, so the call always returns. *)
Definition recordInboundSession (storePath : string) (ctx : InboundContext)
           (threadId : option string) : M HState unit :=
  lift (emit (RecordInboundSession storePath (SessionKey ctx) ctx threadId)).

(** The [deliver] closure for [event], posting to [podId] or [threadId]. *)
Definition deliver (event : CommonlyEvent) (podId : string)
           (threadId : option string) (payload : ReplyPayload)
  : M HState unit :=
  let text :=
    sanitizeOutboundText
      (Some (match text payload with Some t => t | None => EmptyString end)) in
  let message :=
    join LF (filter truthy [trim text; trim_or (mediaUrl payload) ""]) in
  if negb (truthy message) then ret tt
  else
    (match nonempty threadId with
     | Some tid => _ <- lift (postThreadComment tid message) ;; ret tt
     | None =>
         posted <- lift (postMessage podId message []) ;;
         sent <- getSent ;;
         if (type event =? "ensemble.turn") && negb sent then
           match nonempty (pfield ensembleId event) with
           | Some eid =>
               setSent true ;;;
               _ <- lift (reportEnsembleResponse podId eid message
                            (postedId posted)) ;;
               ret tt
           | None => ret tt
           end
         else ret tt
     end) ;;;
    setStatus StOutbound.

(** Modelled from the spec: [dispatchReplyWithBufferedBlockDispatcher],
    which belongs to the host and is not part of these sources.  It
    invokes the delivery callback once per generated reply block,
    serially; an error raised by a block goes to [onError], which logs it
    with the block's kind, and aborts neither the remaining blocks nor the
    final acknowledgment. *)
Fixpoint deliverBlocks (event : CommonlyEvent) (podId : string)
         (threadId : option string) (blocks : list ReplyBlock)
  : M HState unit :=
  match blocks with
  | [] => ret tt
  | b :: rest =>
      catch (deliver event podId threadId (block b))
            (fun err =>
               lift (emit (LogError ("[commonly] " ++ kind b
                                     ++ " reply failed: "
                                     ++ errorString err)))) ;;;
      deliverBlocks event podId threadId rest
  end.

Definition dispatchReplyWithBufferedBlockDispatcher
           (event : CommonlyEvent) (podId : string)
           (threadId : option string) (ctx : InboundContext)
           (opts : DispatcherOptions) : M HState unit :=
  lift (emit (DispatchBegin ctx opts)) ;;;
  tr <- getTrace ;;
  deliverBlocks event podId threadId (replyBlocks tr ctx opts) ;;;
  lift (emit DispatchEnd).

Definition buildContext (event : CommonlyEvent) (podId rawContent : string)
           (route : Route) (threadId : option string) (body : string)
  : InboundContext :=
  {| Body := body;
     RawBody := rawContent;
     CommandBody := rawContent;
     From := match nonempty (pfield userId event) with
             | Some u => "commonly:" ++ u
             | None => "commonly:" ++ podId
             end;
     To := "commonly:" ++ podId;
     SessionKey := sessionKey route;
     AccountId := rt_accountId route;
     ChatType := "group";
     ConversationLabel := pfield username event;
     GroupSubject :=
       match pfield thread event with
       | Some th => option_map (slice_front 120) (postContent th)
       | None => None
       end;
     SenderName := pfield username event;
     SenderId := pfield userId event;
     Provider := "commonly";
     Surface := "commonly";
     MessageSid := match pfield messageId event with
                   | Some m => Some m
                   | None => _id event
                   end;
     ThreadStarterBody :=
       match pfield thread event with
       | Some th => postContent th
       | None => None
       end;
     MessageThreadId := threadId;
     WasMentioned := true;
     OriginatingChannel := "commonly";
     OriginatingTo := "commonly:" ++ podId |}.

(** [rawContent] of lines 302-305. *)
Definition rawContentOf (event : CommonlyEvent) : string :=
  if type event =? "ensemble.turn"
  then formatEnsembleTurnBody event
  else trim_or (pfield content event) "".

Definition threadIdOf (event : CommonlyEvent) : option string :=
  if type event =? "thread.mention"
  then option_map postId (pfield thread event)
  else None.

Definition bodyOf (event : CommonlyEvent) : string :=
  if type event =? "thread.mention"
  then formatThreadBody event
  else rawContentOf event.

(** The options given to the dispatcher: the prefix is the configured
    one, whatever the event type. *)
Definition dispatcherOptions (route : Route) : DispatcherOptions :=
  {| responsePrefix := configuredPrefix (agentId route) |}.

Definition onEvent (event : CommonlyEvent) : M HState unit :=
  if aborted then ret tt
  else
    match nonempty (podId event) with
    | None => ret tt
    | Some podId =>
        setStatus StInbound ;;;
        if type event =? "summary.request" then
          let summaryText := buildSummaryMessage (pfield summary event) in
          (if truthy summaryText
           then _ <- lift (postMessage podId summaryText []) ;; ret tt
           else ret tt) ;;;
          ackIfId event
        else
          let rawContent := rawContentOf event in
          if negb (truthy rawContent) then ackIfId event
          else
            let route := resolveAgentRoute (accountId account) podId in
            let threadId := threadIdOf event in
            let body := bodyOf event in
            let ctxPayload :=
              finalizeInboundContext
                (buildContext event podId rawContent route threadId body) in
            let storePath := resolveStorePath (agentId route) in
            recordInboundSession storePath ctxPayload (nonempty threadId) ;;;
            setSent false ;;;
            dispatchReplyWithBufferedBlockDispatcher event podId threadId
              ctxPayload (dispatcherOptions route) ;;;
            ackIfId event
    end.

Definition initial : HState :=
  {| trace := []; ensembleResponseSent := false |}.

(** The state once the inbound status has been recorded. *)
Definition entered : HState :=
  {| trace := [SetStatus connectionKey StInbound];
     ensembleResponseSent := false |}.

(** Route, context and options of the dispatch for [event] in [pod]. *)
Definition routeOf (pod : string) : Route :=
  resolveAgentRoute (accountId account) pod.

Definition contextOf (event : CommonlyEvent) (pod : string)
  : InboundContext :=
  finalizeInboundContext
    (buildContext event pod (rawContentOf event) (routeOf pod)
                  (threadIdOf event) (bodyOf event)).

Definition optionsOf (pod : string) : DispatcherOptions :=
  dispatcherOptions (routeOf pod).

(** The actions of one handler run, and how the run ended. *)
Definition run (event : CommonlyEvent) : Trace * outcome unit :=
  let (s, r) := onEvent event initial in (trace s, r).

End WithHost.

(** Observations on a trace.  [endsWith] is [s.endsWith(suffix)]: some tail
    of [s] is [suffix]. *)
Fixpoint endsWith (s suffix : string) : bool :=
  (s =? suffix) ||
  match s with
  | String _ r => endsWith r suffix
  | EmptyString => false
  end.

(** A call of the acknowledgment endpoint, [POST .../ack]. *)
Definition is_ack (a : Action) : bool :=
  match a with
  | Fetch rq =>
      match rq_method rq with
      | POST => endsWith (rq_url rq) "/ack"
      | GET => false
      end
  | _ => false
  end.

Definition is_dispatch (a : Action) : bool :=
  match a with DispatchBegin _ _ => true | _ => false end.

Definition dispatched (tr : Trace) : list (InboundContext * DispatcherOptions) :=
  flat_map (fun a => match a with
                     | DispatchBegin c o => [(c, o)]
                     | _ => []
                     end) tr.

End Handler.

(* ================================================================== *)
(** ** Statements' vocabulary and concrete scenarios *)

Module Vocabulary.
Import Js Events Http Eff.

(** The token a runtime-scoped call authenticates with. *)
Definition runtimeTokenOf (c : Client.CommonlyClientConfig) : option string :=
  nonempty (option_map trim (Client.runtimeToken c)).

(** The token a user-scoped call authenticates with. *)
Definition userTokenOf (c : Client.CommonlyClientConfig) : option string :=
  match nonempty (option_map trim (Client.userToken c)) with
  | Some t => Some t
  | None => runtimeTokenOf c
  end.

(** [m] needs the credential [tok]: without it, [m] throws the
    configuration error [msg] and leaves the trace as it was (no network
    call); with it, [m] issues one [fetch], that carries the credential,
    and no other. *)
Definition guarded_by {A} (tok : option string) (msg : string)
           (m : M Trace A) : Prop :=
  forall tr,
    match tok with
    | None => m tr = (tr, Thrown (Error msg))
    | Some t =>
        exists rq ext,
          fst (m tr) = app tr (Fetch rq :: ext)
          /\ rq_headers rq = Client.bearer t
          /\ Forall (fun a => is_fetch a = false) ext
    end.

(** [m] needs the credential [tok], after the address it builds, if any:
    a method that hands the address [url] to [new URL] does so first, and
    when [new URL] rejects it, [m] throws the [TypeError] of [new URL] and
    leaves the trace as it was (no network call), whatever the credential;
    in every other case [m] is [guarded_by] the credential. *)
Definition guarded_after_url {A} (validURL : string -> bool)
           (url : option string) (tok : option string) (msg : string)
           (m : M Trace A) : Prop :=
  match url with
  | Some u =>
      if validURL u then guarded_by tok msg m
      else forall tr, m tr = (tr, Thrown (TypeError "Invalid URL"))
  | None => guarded_by tok msg m
  end.

(** The two credential classes of the client: [P] holds of every
    method that reads [runtimeHeaders], respectively [userHeaders]; it is
    given the address the method hands to [new URL], [None] for a method
    that builds its address as a plain string. *)
Definition runtimeScoped (fetch : Trace -> Request -> FetchResult)
           (validURL : string -> bool) (c : Client.CommonlyClientConfig)
           (P : option string -> forall A, M Trace A -> Prop) : Prop :=
  (forall pod content md,
      P None _ (Client.postMessage fetch c pod content md))
  /\ (forall thread content,
         P None _ (Client.postThreadComment fetch c thread content))
  /\ (forall i, P None _ (Client.ackEvent fetch c i))
  /\ P (Some (Client.baseUrl c ++ "/api/agents/runtime/events")) _
        (Client.fetchEvents fetch validURL c)
  /\ (forall pod e content m,
         P None _ (Client.reportEnsembleResponse fetch c pod e content m))
  /\ (forall pod task,
         P (Some (Client.baseUrl c ++ "/api/agents/runtime/pods/" ++ pod
                  ++ "/context")) _
           (Client.getContext fetch validURL c pod task))
  /\ (forall pod limit,
         P (Some (Client.baseUrl c ++ "/api/agents/runtime/pods/" ++ pod
                  ++ "/messages")) _
           (Client.getMessages fetch validURL c pod limit)).

Definition userScoped (fetch : Trace -> Request -> FetchResult)
           (validURL : string -> bool) (c : Client.CommonlyClientConfig)
           (P : option string -> forall A, M Trace A -> Prop) : Prop :=
  (forall pod q,
      P (Some (Client.baseUrl c ++ "/api/v1/search/" ++ pod)) _
        (Client.search fetch validURL c pod q))
  /\ (forall pod path,
         P (Some (Client.baseUrl c ++ "/api/v1/pods/" ++ pod ++ "/memory/"
                  ++ path)) _
           (Client.readMemory fetch validURL c pod path))
  /\ (forall pod t content o,
         P None _ (Client.writeMemory fetch c pod t content o))
  /\ (forall pod hours,
         P (Some (Client.baseUrl c ++ "/api/v1/pods/" ++ pod
                  ++ "/summaries")) _
           (Client.getSummaries fetch validURL c pod hours)).

Definition runtimeMsg : string := "Commonly runtime token is required".
Definition userMsg : string := "Commonly user token is required".

(** The network answers whatever is asked at [tr] with a response that
    is not [ok]. *)
Definition non_success (fetch : Trace -> Request -> FetchResult)
           (tr : Trace) : Prop :=
  forall rq, exists res, fetch tr rq = Resolved res /\ ok res = false.

(** On a response that is not [ok], [m] has issued its one call, logs one
    warning and returns [dflt]. *)
Definition soft_fails {A} (fetch : Trace -> Request -> FetchResult)
           (dflt : A) (m : M Trace A) : Prop :=
  forall tr, non_success fetch tr ->
    exists rq msg,
      m tr = (app tr [Fetch rq; ConsoleWarn msg], Returned dflt).

(** On a response that is not [ok], [m] has issued its one call and
    throws. *)
Definition hard_fails {A} (fetch : Trace -> Request -> FetchResult)
           (m : M Trace A) : Prop :=
  forall tr, non_success fetch tr ->
    exists rq msg, m tr = (app tr [Fetch rq], Thrown (Error msg)).

(** [event.payload?.thread?.postContent]. *)
Definition postOf (event : CommonlyEvent) : option string :=
  match pfield thread event with
  | Some th => postContent th
  | None => None
  end.

(** The frames the connection sent between two of its states. *)
Definition emitted (before after : WebSocket.State) : list WebSocket.Frame :=
  WebSocket.frames
    (skipn (length (WebSocket.out before)) (WebSocket.out after)).

(** [m] only appends to the trace, and what it appends satisfies [P]. *)
Definition addsT {A} (P : Action -> Prop) (m : M Trace A) : Prop :=
  forall tr, exists ext, fst (m tr) = app tr ext /\ Forall P ext.

Definition adds {A} (P : Action -> Prop) (m : M Handler.HState A) : Prop :=
  forall s, exists ext,
    Handler.trace (fst (m s)) = app (Handler.trace s) ext /\ Forall P ext.

(** An action that is neither an acknowledgment nor the start of a
    dispatch. *)
Definition plain (a : Action) : Prop :=
  Handler.is_ack a = false /\ Handler.is_dispatch a = false.

(** The address [ackEvent] posts to. *)
Definition ackUrl (c : Client.CommonlyClientConfig) (i : string) : string :=
  Client.baseUrl c ++ "/api/agents/runtime/events/" ++ i ++ "/ack".

(** The [content] fields of the bodies sent, in order. *)
Definition contentsOf (tr : Trace) : list string :=
  flat_map (fun a =>
              match a with
              | Fetch rq =>
                  match rq_body rq with
                  | Some (VObj fs) =>
                      match assoc "content" fs with
                      | Some (VStr c) => [c]
                      | _ => []
                      end
                  | _ => []
                  end
              | _ => []
              end) tr.

(** The body of a thread mention, following the words of the
    specification: post and comment content as they are in the payload. *)
Definition specThreadBody (post comment : option string) : string :=
  let c := match comment with Some c => c | None => EmptyString end in
  match nonempty post with
  | Some p =>
      if truthy c
      then "Post: " ++ p ++ LF ++ LF ++ "Comment: " ++ c
      else "Post: " ++ p
  | None => c
  end.

End Vocabulary.

Module Scenarios.
Import Js Events Http Inbound Eff.

(** A backend that accepts everything, as the mocked client of
    [channel.ensemble.test.ts]. *)
Definition okResponse : Response :=
  {| ok := true; status := 200;
     json := Some (VObj [("id", VStr "msg-123")]) |}.
Definition netOk : Trace -> Request -> FetchResult :=
  fun _ _ => Resolved okResponse.

(** A gateway that answers 502 with an HTML page. *)
Definition badGateway : Response :=
  {| ok := false; status := 502; json := None |}.
Definition netBadGateway : Trace -> Request -> FetchResult :=
  fun _ _ => Resolved badGateway.

(** A backend that answers 500 with a JSON error document. *)
Definition serverError : Response :=
  {| ok := false; status := 500;
     json := Some (VObj [("error", VStr "ensemble not found")]) |}.
Definition netServerError : Trace -> Request -> FetchResult :=
  fun _ _ => Resolved serverError.

Definition anyURL : string -> bool := fun _ => true.

Definition testClient : Client.CommonlyClientConfig :=
  {| Client.baseUrl := "http://localhost:5000";
     Client.runtimeToken := Some "test-token";
     Client.userToken := None;
     Client.agentName := Some "openclaw";
     Client.instanceId := Some "cuz" |}.

(** Only a user token is configured. *)
Definition userOnlyClient : Client.CommonlyClientConfig :=
  {| Client.baseUrl := "http://localhost:5000";
     Client.runtimeToken := None;
     Client.userToken := Some "ut";
     Client.agentName := None;
     Client.instanceId := None |}.

Definition testAccount : Handler.ResolvedCommonlyAccount :=
  {| Handler.accountId := Some "test-account";
     Handler.client := testClient |}.

Definition testRoute : Route :=
  {| sessionKey := "test-session"; rt_accountId := "test-account";
     agentId := "cuz"; mainSessionKey := "test-main-session" |}.

(** The agent [cuz] is configured with the reply prefix of the test. *)
Definition testPrefix (agent : string) : option string :=
  if agent =? "cuz" then Some "My response:" else None.

(** A reply pipeline that answers every context with one final block, and
    puts the prefix it is given in front of the reply text. *)
Definition prefixingHost (reply : string)
  : Trace -> InboundContext -> DispatcherOptions -> list ReplyBlock :=
  fun _ _ opts =>
    [{| kind := "final";
        block := {| text := Some (match responsePrefix opts with
                                  | Some p => p ++ " " ++ reply
                                  | None => reply
                                  end);
                    mediaUrl := None |} |}].

(** The handler on the test host, with [blocks] as the reply pipeline. *)
Definition runOn (fetch : Trace -> Request -> FetchResult)
           (blocks : Trace -> InboundContext -> DispatcherOptions
                     -> list ReplyBlock)
           (event : CommonlyEvent) : Trace * outcome unit :=
  Handler.run fetch false testAccount "default" (fun _ _ => testRoute)
    (fun c => c) (fun _ => "/tmp/store") testPrefix (fun t => t) blocks event.

Definition mkEvent (i : option string) (t : string) (pod : option string)
           (p : CommonlyEventPayload) : CommonlyEvent :=
  {| _id := i; type := t; podId := pod; payload := Some p;
     agentName := None; instanceId := None; createdAt := None |}.

Definition withContent (c : string) : CommonlyEventPayload :=
  {| messageId := None; content := Some c; userId := None; username := None;
     mentions := None; source := None; thread := None; summary := None;
     ensembleId := None; participants := None; context := None |}.

(** The heartbeat of [channel.heartbeat.test.ts], without content. *)
Definition heartbeatEvent : CommonlyEvent :=
  mkEvent (Some "evt-heartbeat") "heartbeat" (Some "pod-1") emptyPayload.

Definition heartbeatRaw : Legacy.RawEvent :=
  {| Legacy.r_type := "heartbeat"; Legacy.r_podId := "pod-1";
     Legacy.r_payload := emptyPayload; Legacy.r_id := "evt-heartbeat" |}.

(** The heartbeat of the same test that carries explicit content. *)
Definition heartbeatCustom : CommonlyEvent :=
  mkEvent (Some "evt-heartbeat-custom") "heartbeat" (Some "pod-1")
    (withContent "Check recent pod messages and only reply if needed.").

(** The ensemble turn of [channel.ensemble.test.ts]. *)
Definition ensembleContext : EnsembleContext :=
  {| topic := "Test Discussion"; turnNumber := 0; roundNumber := 0;
     isStarter := true; recentHistory := []; keyPoints := [] |}.

Definition ensemblePayload : CommonlyEventPayload :=
  {| messageId := None; content := None; userId := None; username := None;
     mentions := None; source := None; thread := None; summary := None;
     ensembleId := Some "ensemble-xyz";
     participants :=
       Some [ {| agentType := "openclaw"; p_instanceId := Some "cuz";
                 displayName := Some "Cuz"; role := Some "starter" |};
              {| agentType := "openclaw"; p_instanceId := Some "tarik";
                 displayName := Some "Tarik"; role := Some "responder" |} ];
     context := Some ensembleContext |}.

Definition ensembleEvent : CommonlyEvent :=
  mkEvent (Some "event-123") "ensemble.turn" (Some "pod-abc") ensemblePayload.

(** An event of a type this client does not know. *)
Definition unknownEvent : CommonlyEvent :=
  mkEvent (Some "evt-9") "pod.archived" (Some "pod-1") (withContent "hello").

Definition unknownRaw : Legacy.RawEvent :=
  {| Legacy.r_type := "pod.archived"; Legacy.r_podId := "pod-1";
     Legacy.r_payload := withContent "hello"; Legacy.r_id := "evt-9" |}.

(** An event without a pod. *)
Definition podlessEvent : CommonlyEvent :=
  mkEvent (Some "evt-7") "chat.mention" None (withContent "hello").

(** A chat mention. *)
Definition mentionEvent : CommonlyEvent :=
  mkEvent (Some "evt-1") "chat.mention" (Some "pod-1") (withContent "hello").

(** A thread mention whose post content has white space around it. *)
Definition paddedThread : Thread :=
  {| postId := "post-1"; postContent := Some " Launch plan ";
     commentId := None; commentText := None |}.

Definition threadEvent : CommonlyEvent :=
  mkEvent (Some "evt-2") "thread.mention" (Some "pod-1")
    {| messageId := None; content := Some "Looks good"; userId := None;
       username := None; mentions := None; source := None;
       thread := Some paddedThread; summary := None; ensembleId := None;
       participants := None; context := None |}.

(** A connection whose socket exists, in whatever connection state. *)
Definition opened (isUp : bool) : WebSocket.State :=
  WebSocket.with_socket WebSocket.create
    (Some {| WebSocket.connected := isUp |}).

Definition wsConfig : WebSocket.CommonlyWebSocketConfig :=
  {| WebSocket.baseUrl := "http://localhost:5000";
     WebSocket.runtimeToken := "test-token";
     WebSocket.podIds := None |}.

(** [subscribe] called on a new object, followed by [connect()]. *)
Definition subscribedTooEarly : Js.error + WebSocket.State :=
  WebSocket.connect wsConfig (fun s => Some s)
    (WebSocket.subscribe ["pod-1"] WebSocket.create).

Definition noReply
  : Trace -> InboundContext -> DispatcherOptions -> list ReplyBlock :=
  fun _ _ _ => [].

End Scenarios.

(* ================================================================== *)
(** ** Case-insensitive prefixes and last characters *)

Module Text.
Import Js.

(** ASCII lower case, as the [i] flag of a regular expression without the
    [u] flag compares letters. *)
Definition lower (c : ascii) : ascii :=
  let n := nat_of_ascii c in
  if ((65 <=? n)%nat && (n <=? 90)%nat) then ascii_of_nat (n + 32) else c.

(** What follows [pre] at the start of [s], letters compared without
    case; [None] when [s] does not start with [pre]. *)
Fixpoint dropPrefixCI (pre s : string) : option string :=
  match pre with
  | EmptyString => Some s
  | String a pre' =>
      match s with
      | String b s' =>
          if Ascii.eqb (lower a) (lower b) then dropPrefixCI pre' s' else None
      | EmptyString => None
      end
  end.

(** [s.replace(/^pre/i, "")] for a literal [pre]. *)
Definition replaceStartCI (pre s : string) : string :=
  match dropPrefixCI pre s with
  | Some rest => rest
  | None => s
  end.

(** The last character of a string. *)
Fixpoint lastChar (s : string) : option ascii :=
  match s with
  | EmptyString => None
  | String c r =>
      match lastChar r with
      | Some d => Some d
      | None => Some c
      end
  end.

End Text.

(* ================================================================== *)
(** ** Account resolution ([extensions/commonly/src/types.ts]) *)

Module Accounts.
Import Js.

Record CommonlyAccountConfig := {
  name : option string;
  enabled : option bool;
  baseUrl : option string;
  runtimeToken : option string;
  userToken : option string;
  agentName : option string;
  instanceId : option string;
  podIds : option (list string)
}.

(** [channels.commonly]: the account keys at top level, and [accounts], in
    the order of [Object.keys]. *)
Record CommonlyConfig := {
  top : CommonlyAccountConfig;
  accounts : option (list (string * CommonlyAccountConfig))
}.

(** What the module reads of the host configuration:
    [cfg.channels?.commonly]. *)
Record OpenClawConfig := { commonly : option CommonlyConfig }.

(** The variables read from [process.env]. *)
Record Env := {
  COMMONLY_API_URL : option string;
  COMMONLY_BASE_URL : option string;
  OPENCLAW_RUNTIME_TOKEN : option string;
  OPENCLAW_USER_TOKEN : option string
}.

Record ResolvedCommonlyAccount := {
  accountId : string;
  r_name : option string;
  r_enabled : bool;
  configured : bool;
  r_baseUrl : string;
  r_runtimeToken : string;
  r_userToken : option string;
  r_agentName : string;
  r_instanceId : string;
  r_podIds : list string;
  config : CommonlyAccountConfig
}.

Definition emptyConfig : CommonlyAccountConfig :=
  {| name := None; enabled := None; baseUrl := None; runtimeToken := None;
     userToken := None; agentName := None; instanceId := None;
     podIds := None |}.

Definition normalizeString (value : option string) : option string :=
  nonempty (option_map trim value).

(** [a ?? b] on optional values. *)
Definition orOpt {A} (a b : option A) : option A :=
  match a with Some _ => a | None => b end.

Definition orDefault {A} (a : option A) (d : A) : A :=
  match a with Some x => x | None => d end.

(** [accounts[key]]. *)
Fixpoint lookup {A} (key : string) (l : list (string * A)) : option A :=
  match l with
  | [] => None
  | (k, v) :: r => if k =? key then Some v else lookup key r
  end.

(** [{ ...base, ...account }]: a key of [account] wins. *)
Definition spread (base account : CommonlyAccountConfig)
  : CommonlyAccountConfig :=
  {| name := orOpt (name account) (name base);
     enabled := orOpt (enabled account) (enabled base);
     baseUrl := orOpt (baseUrl account) (baseUrl base);
     runtimeToken := orOpt (runtimeToken account) (runtimeToken base);
     userToken := orOpt (userToken account) (userToken base);
     agentName := orOpt (agentName account) (agentName base);
     instanceId := orOpt (instanceId account) (instanceId base);
     podIds := orOpt (podIds account) (podIds base) |}.

(** The client every caller builds from a resolved account
    ([new CommonlyClient({...})] in [channel.ts] and [index.ts]). *)
Definition clientOf (a : ResolvedCommonlyAccount) : Client.CommonlyClientConfig :=
  {| Client.baseUrl := r_baseUrl a;
     Client.runtimeToken := Some (r_runtimeToken a);
     Client.userToken := r_userToken a;
     Client.agentName := Some (r_agentName a);
     Client.instanceId := Some (r_instanceId a) |}.

Section WithHost.

(** From the plugin SDK and the routing module: the default account id,
    the normalisation of account ids, the accounts bound to agents and the
    default agent's bound account; [sortIds] is
    [ids.sort((a, b) => a.localeCompare(b))]. *)
Variable DEFAULT_ACCOUNT_ID : string.
Variable normalizeAccountId : option string -> string.
Variable listBoundAccountIds : OpenClawConfig -> list string.
Variable resolveDefaultAgentBoundAccountId : OpenClawConfig -> option string.
Variable sortIds : list string -> list string.
Variable env : Env.

Definition resolveAccountConfig (cfg : OpenClawConfig) (id : string)
  : option CommonlyAccountConfig :=
  match commonly cfg with
  | None => None
  | Some c =>
      match accounts c with
      | None => None
      | Some accs =>
          match lookup id accs with
          | Some direct => Some direct
          | None =>
              let normalized := normalizeAccountId (Some id) in
              match find (fun kv => normalizeAccountId (Some (fst kv))
                                    =? normalized) accs with
              | Some (matchKey, _) =>
                  if truthy matchKey then lookup matchKey accs else None
              | None => None
              end
          end
      end
  end.

Definition mergeCommonlyAccountConfig (cfg : OpenClawConfig) (id : string)
  : CommonlyAccountConfig :=
  let base := match commonly cfg with
              | Some c => top c
              | None => emptyConfig
              end in
  let account := orDefault (resolveAccountConfig cfg id) emptyConfig in
  spread base account.

Definition listCommonlyAccountIds (cfg : OpenClawConfig) : list string :=
  let configured :=
    match commonly cfg with
    | Some c => match accounts c with
                | Some accs => map fst accs
                | None => []
                end
    | None => []
    end in
  let ids :=
    WebSocket.setOf
      (app (map (fun id => normalizeAccountId (Some id)) configured)
           (listBoundAccountIds cfg)) in
  if (0 <? length ids)%nat then sortIds ids
  else
    let topOf f := match commonly cfg with
                   | Some c => f (top c)
                   | None => None
                   end in
    let hasBaseUrl :=
      match normalizeString (topOf baseUrl) with
      | Some _ => true
      | None => false
      end in
    let hasRuntimeToken :=
      match orOpt (normalizeString (topOf runtimeToken))
                  (normalizeString (OPENCLAW_RUNTIME_TOKEN env)) with
      | Some _ => true
      | None => false
      end in
    if hasBaseUrl || hasRuntimeToken then [DEFAULT_ACCOUNT_ID] else [].

Definition resolveDefaultCommonlyAccountId (cfg : OpenClawConfig) : string :=
  match nonempty (resolveDefaultAgentBoundAccountId cfg) with
  | Some boundDefault => boundDefault
  | None =>
      let ids := listCommonlyAccountIds cfg in
      if WebSocket.mem DEFAULT_ACCOUNT_ID ids then DEFAULT_ACCOUNT_ID
      else match ids with
           | first :: _ => first
           | [] => DEFAULT_ACCOUNT_ID
           end
  end.

Definition buildAccount (resolvedId : string) (c : CommonlyAccountConfig)
  : ResolvedCommonlyAccount :=
  let baseUrl' :=
    orDefault
      (orOpt (normalizeString (baseUrl c))
         (orOpt (normalizeString (COMMONLY_API_URL env))
                (normalizeString (COMMONLY_BASE_URL env))))
      "http://localhost:5000" in
  let runtimeToken' :=
    orDefault (orOpt (normalizeString (runtimeToken c))
                     (normalizeString (OPENCLAW_RUNTIME_TOKEN env)))
              EmptyString in
  let userToken' :=
    orOpt (normalizeString (userToken c))
          (normalizeString (OPENCLAW_USER_TOKEN env)) in
  let agentName' := orDefault (normalizeString (agentName c)) "openclaw" in
  let instanceId' := orDefault (normalizeString (instanceId c)) "default" in
  let podIds' :=
    match podIds c with
    | Some l => filter truthy (map trim l)
    | None => []
    end in
  let enabled' := match enabled c with
                  | Some false => false
                  | _ => true
                  end in
  {| accountId := resolvedId;
     r_name := normalizeString (name c);
     r_enabled := enabled';
     configured := truthy baseUrl' && truthy runtimeToken';
     r_baseUrl := baseUrl';
     r_runtimeToken := runtimeToken';
     r_userToken := userToken';
     r_agentName := agentName';
     r_instanceId := instanceId';
     r_podIds := podIds';
     config := c |}.

Definition resolveCommonlyAccount (cfg : OpenClawConfig)
           (requested : option string) : ResolvedCommonlyAccount :=
  let hasExplicitAccountId :=
    match nonempty (option_map trim requested) with
    | Some _ => true
    | None => false
    end in
  let normalized := normalizeAccountId requested in
  let id := if truthy normalized then normalized else DEFAULT_ACCOUNT_ID in
  let resolved := buildAccount id (mergeCommonlyAccountConfig cfg id) in
  if hasExplicitAccountId then resolved
  else if configured resolved then resolved
  else
    let fallbackId := resolveDefaultCommonlyAccountId cfg in
    if fallbackId =? id then resolved
    else
      let fallback :=
        buildAccount fallbackId (mergeCommonlyAccountConfig cfg fallbackId) in
      if configured fallback then fallback else resolved.

End WithHost.

End Accounts.

(* ================================================================== *)
(** ** Host-initiated sending ([channel.ts], [normalizePodId] and
    [outbound]) *)

Module Outbound.
Import Js Http Eff.
#[local] Open Scope eff_scope.

Definition normalizePodId (raw : string) : string :=
  trim (Text.replaceStartCI "pod:" (Text.replaceStartCI "commonly:" raw)).

Record SendResult := {
  channel : string;
  messageId : string
}.

Section WithRuntime.

Variable fetch : Trace -> Request -> FetchResult.
(** The module-wide runtime of [runtime.ts], here the configuration its
    [loadConfig()] returns; [None] before [setCommonlyRuntime]. *)
Variable runtime : option Accounts.OpenClawConfig.
(** Account resolution for a loaded configuration. *)
Variable resolveAccount :
  Accounts.OpenClawConfig -> option string -> Accounts.ResolvedCommonlyAccount.
Variable parseInlineDirectives : string -> string.
(** [Date.now()]. *)
Variable now : Z.

Definition getCommonlyRuntime : M Trace Accounts.OpenClawConfig :=
  match runtime with
  | Some cfg => ret cfg
  | None => throw (Error "Commonly runtime not initialized")
  end.

Definition syntheticId (podId : string) : string :=
  podId ++ ":" ++ numToString now.

Definition sendText (to : string) (text : option string) (threadId : value)
           (accountId : option string) : M Trace SendResult :=
  cfg <- getCommonlyRuntime ;;
  let client := Accounts.clientOf (resolveAccount cfg accountId) in
  let podId := normalizePodId to in
  let message :=
    trim (Handler.sanitizeOutboundText parseInlineDirectives
            (Some (match text with Some t => t | None => EmptyString end))) in
  if negb (truthy message)
  then ret {| channel := "commonly"; messageId := syntheticId podId |}
  else if value_truthy threadId
  then _ <- Client.postThreadComment fetch client (toString threadId) message ;;
       ret {| channel := "commonly"; messageId := toString threadId |}
  else _ <- Client.postMessage fetch client podId message [] ;;
       ret {| channel := "commonly"; messageId := syntheticId podId |}.

Definition sendMedia (to : string) (text mediaUrl : option string)
           (threadId : value) (accountId : option string)
  : M Trace SendResult :=
  cfg <- getCommonlyRuntime ;;
  let client := Accounts.clientOf (resolveAccount cfg accountId) in
  let podId := normalizePodId to in
  let message :=
    join LF
      (filter truthy
         [Handler.sanitizeOutboundText parseInlineDirectives
            (Some (match text with Some t => t | None => EmptyString end));
          trim_or mediaUrl ""]) in
  if value_truthy threadId
  then _ <- Client.postThreadComment fetch client (toString threadId) message ;;
       ret {| channel := "commonly"; messageId := toString threadId |}
  else _ <- Client.postMessage fetch client podId message [] ;;
       ret {| channel := "commonly"; messageId := syntheticId podId |}.

End WithRuntime.

End Outbound.

(* ================================================================== *)
(** ** [CommonlyChannel]: sending and context *)

Module Channel.
Import Js Http Eff.
#[local] Open Scope eff_scope.

Record CommonlyChannelConfig := {
  baseUrl : string;
  runtimeToken : string;
  userToken : option string;
  agentName : option string;
  instanceId : option string;
  podIds : option (list string)
}.

(** The constructor: [{ agentName: 'openclaw', instanceId: 'default',
    podIds: [], ...config }], handed to the client as it is. *)
Definition clientConfig (c : CommonlyChannelConfig) : Client.CommonlyClientConfig :=
  {| Client.baseUrl := baseUrl c;
     Client.runtimeToken := Some (runtimeToken c);
     Client.userToken := userToken c;
     Client.agentName := Some (Accounts.orDefault (agentName c) "openclaw");
     Client.instanceId := Some (Accounts.orDefault (instanceId c) "default") |}.

Definition subscribedAtInit (c : CommonlyChannelConfig) : list string :=
  Accounts.orDefault (podIds c) [].

Record CommonlyOutboundMessage := {
  targetId : string;
  content : string;
  metadata : option (list (string * value))
}.

Record CommonlyChannelContext := {
  podId : string;
  podName : value;
  memory : value;
  skills : value;
  summaries : value;
  assets : value
}.

(** [v?.k]. *)
Definition optProp (v : value) (k : string) : value :=
  match v with
  | VObj fs => match assoc k fs with Some x => x | None => VUndefined end
  | _ => VUndefined
  end.

(** [typeof metadata?.threadId === 'string' ? metadata.threadId.trim() : ''] *)
Definition threadIdOf (m : CommonlyOutboundMessage) : string :=
  match metadata m with
  | Some md =>
      match assoc "threadId" md with
      | Some (VStr s) => trim s
      | _ => EmptyString
      end
  | None => EmptyString
  end.

Section WithNetwork.

Variable fetch : Trace -> Request -> FetchResult.
Variable validURL : string -> bool.
Variable config : CommonlyChannelConfig.

Definition send (m : CommonlyOutboundMessage) : M Trace unit :=
  let threadId := threadIdOf m in
  if truthy threadId
  then _ <- Client.postThreadComment fetch (clientConfig config) threadId
              (content m) ;;
       ret tt
  else _ <- Client.postMessage fetch (clientConfig config) (targetId m)
              (content m) (Accounts.orDefault (metadata m) []) ;;
       ret tt.

Definition getContext (pod : string) (task : option string)
  : M Trace CommonlyChannelContext :=
  context <- Client.getContext fetch validURL (clientConfig config) pod task ;;
  ret {| podId := pod;
         podName := optProp (optProp context "pod") "name";
         memory := optProp context "memory";
         skills := optProp context "skills";
         summaries := optProp context "summaries";
         assets := optProp context "assets" |}.

End WithNetwork.

End Channel.

(* ================================================================== *)
(** ** Runs of the push connection *)

Module Connection.
Import Events WebSocket.

(** What can happen to a connection: a call of one of its methods, or an
    event of its socket. *)
Inductive Input :=
| CallConnect
| CallSubscribe (ids : list string)
| CallUnsubscribe (ids : list string)
| CallDisconnect
| CallOnStatus (handler : nat)
| CallOnEvent (handler : nat)
| SockConnect
| SockDisconnect (reason : string)
| SockConnectError (msg : string)
| SockPing
| SockEvent (e : CommonlyEvent).

Section WithConfig.

Variable config : CommonlyWebSocketConfig.
Variable origin : string -> option string.

(** A [connect()] that throws leaves the object as it was. *)
Definition step (st : State) (i : Input) : State :=
  match i with
  | CallConnect =>
      match connect config origin st with
      | inr st' => st'
      | inl _ => st
      end
  | CallSubscribe ids => subscribe ids st
  | CallUnsubscribe ids => unsubscribe ids st
  | CallDisconnect => disconnect st
  | CallOnStatus h => onStatus h st
  | CallOnEvent h => WebSocket.onEvent h st
  | SockConnect => on_connect st
  | SockDisconnect reason => on_disconnect reason st
  | SockConnectError msg => on_connect_error msg st
  | SockPing => on_ping st
  | SockEvent e => on_event e st
  end.

Definition run (inputs : list Input) (st : State) : State :=
  fold_left step inputs st.

(** The start of an account ([channel.ts], lines 414-417): [connect()],
    whose promise resolves at the socket's [connect] event, then
    [subscribe] when pods are configured. *)
Definition startAccount (pods : list string) (st : State) : Js.error + State :=
  match connect config origin st with
  | inl e => inl e
  | inr st1 =>
      let st2 := on_connect st1 in
      inr (if (0 <? length pods)%nat then subscribe pods st2 else st2)
  end.

End WithConfig.

End Connection.

(* ================================================================== *)
(** ** The plugin entry ([index.ts]) *)

Module Plugin.
Import Js.

(** What the tool factory reads of its context. *)
Record ToolContext := {
  sandboxed : bool;
  tc_config : option Accounts.OpenClawConfig
}.

Section WithHost.

(** [resolveCommonlyAccount] of [types.ts]. *)
Variable resolveAccount :
  Accounts.OpenClawConfig -> option string -> Accounts.ResolvedCommonlyAccount.

(** The factory given to [api.registerTool]; [None] stands for [null].  The
    tools it returns are closures over one client, which stands for them
    here. *)
Definition toolFactory (ctx : ToolContext)
  : option Client.CommonlyClientConfig :=
  if sandboxed ctx then None
  else
    match tc_config ctx with
    | None => None
    | Some cfg =>
        let account := resolveAccount cfg None in
        if negb (Accounts.configured account) then None
        else Some (Accounts.clientOf account)
    end.

End WithHost.

End Plugin.

(* ================================================================== *)
(** ** Observations on requests *)

Module Observe.
Import Js Http Eff.

(** A report to the ensemble endpoint, [POST .../ensemble/response]. *)
Definition is_report (a : Action) : bool :=
  match a with
  | Fetch rq =>
      match rq_method rq with
      | POST => Handler.endsWith (rq_url rq) "/ensemble/response"
      | GET => false
      end
  | _ => false
  end.

Definition reports (tr : Trace) : nat := length (filter is_report tr).

(** What is left of the one report an event may make. *)
Definition budget (s : Handler.HState) : nat :=
  if Handler.ensembleResponseSent s then 0 else 1.

(** [m] only appends to the trace, and pays for its reports. *)
Definition spends {A} (m : M Handler.HState A) : Prop :=
  forall s, exists ext,
    Handler.trace (fst (m s)) = app (Handler.trace s) ext
    /\ reports ext + budget (fst (m s)) <= budget s.

(** Every request of [tr] is one of [urls]. *)
Definition requests (tr : Trace) : list string :=
  flat_map (fun a => match a with Fetch rq => [rq_url rq] | _ => [] end) tr.

Definition commentUrl (c : Client.CommonlyClientConfig) (thread : string)
  : string :=
  Client.baseUrl c ++ "/api/agents/runtime/threads/" ++ thread ++ "/comments".

Definition messageUrl (c : Client.CommonlyClientConfig) (pod : string)
  : string :=
  Client.baseUrl c ++ "/api/agents/runtime/pods/" ++ pod ++ "/messages".

(** A request is addressed to [url], anything else is let through. *)
Definition sent_to (url : string) (a : Action) : Prop :=
  match a with
  | Fetch rq => rq_url rq = url
  | _ => True
  end.

(** The [metadata] object of a posted message. *)
Definition metadataOf (rq : Request) : list (string * value) :=
  match rq_body rq with
  | Some (VObj fs) =>
      match assoc "metadata" fs with
      | Some (VObj md) => md
      | _ => []
      end
  | _ => []
  end.

(** An action that is no report to the ensemble endpoint. *)
Definition no_report (a : Action) : Prop := is_report a = false.

(** A request goes to [url], or is an acknowledgment. *)
Definition reply_or_ack (url : string) (a : Action) : Prop :=
  match a with
  | Fetch rq => rq_url rq = url \/ Handler.is_ack a = true
  | _ => True
  end.

(** The [Authorization] header of a request. *)
Definition authorization (rq : Request) : option string :=
  match find (fun h => fst h =? "Authorization") (rq_headers rq) with
  | Some (_, v) => Some v
  | None => None
  end.

(** What [data.k || []] gives for the fields of an object. *)
Definition fieldOrEmpty (fs : list (string * value)) (k : string) : value :=
  match assoc k fs with
  | Some x => if value_truthy x then x else VArr []
  | None => VArr []
  end.

(** How a list-reading method ends on the response [res]: the field [k] of
    an object, the empty array when the field is missing or falsy or the
    document is no object, a [TypeError] on [null], a [SyntaxError] when the
    body is not JSON. *)
Definition reads_field (k : string) (res : Response)
           (result : outcome value) : Prop :=
  match json res with
  | Some (VObj fs) => result = Returned (fieldOrEmpty fs k)
  | Some VNull | Some VUndefined => exists msg, result = Thrown (TypeError msg)
  | Some _ => result = Returned (VArr [])
  | None => exists msg, result = Thrown (SyntaxError msg)
  end.

(** The network answers whatever is asked at [tr] with [res]. *)
Definition answers (fetch : Trace -> Request -> FetchResult) (tr : Trace)
           (res : Response) : Prop :=
  forall rq, fetch tr rq = Resolved res.

End Observe.

Module Cases.
Import Js Events Http Inbound Eff Scenarios.

Definition noEnv : Accounts.Env :=
  {| Accounts.COMMONLY_API_URL := None; Accounts.COMMONLY_BASE_URL := None;
     Accounts.OPENCLAW_RUNTIME_TOKEN := None;
     Accounts.OPENCLAW_USER_TOKEN := None |}.

(** The account of the test configuration. *)
Definition cuzConfig : Accounts.CommonlyAccountConfig :=
  {| Accounts.name := None; Accounts.enabled := Some true;
     Accounts.baseUrl := None; Accounts.runtimeToken := Some " test-token ";
     Accounts.userToken := None; Accounts.agentName := Some "openclaw";
     Accounts.instanceId := Some "cuz";
     Accounts.podIds := Some ["pod-1"; "  "; " pod-2 "] |}.

Definition testConfig : Accounts.OpenClawConfig :=
  {| Accounts.commonly :=
       Some {| Accounts.top := Accounts.emptyConfig;
               Accounts.accounts := Some [("test-account", cuzConfig)] |} |}.

(** Account ids are lower-cased here; nothing is bound to an agent. *)
Definition resolveTest
  : Accounts.OpenClawConfig -> option string -> Accounts.ResolvedCommonlyAccount :=
  Accounts.resolveCommonlyAccount "default"
    (fun o => match o with Some s => trim s | None => EmptyString end)
    (fun _ => []) (fun _ => None) (fun l => l) noEnv.

Definition cuzAccount : Accounts.ResolvedCommonlyAccount :=
  Accounts.buildAccount noEnv "test-account" cuzConfig.

(** A backend that answers with an object that has none of the expected
    keys. *)
Definition emptyObject : Response :=
  {| ok := true; status := 200; json := Some (VObj []) |}.
Definition netEmptyObject : Trace -> Request -> FetchResult :=
  fun _ _ => Resolved emptyObject.

(** A network that cannot be reached. *)
Definition netDown : Trace -> Request -> FetchResult :=
  fun _ _ => Rejected (TypeError "fetch failed").

Definition channelConfig : Channel.CommonlyChannelConfig :=
  {| Channel.baseUrl := "http://localhost:5000";
     Channel.runtimeToken := "cm_agent_test";
     Channel.userToken := None; Channel.agentName := None;
     Channel.instanceId := None; Channel.podIds := None |}.

Definition threadReply : Channel.CommonlyOutboundMessage :=
  {| Channel.targetId := "pod-1"; Channel.content := "Thanks";
     Channel.metadata := Some [("threadId", VStr " post-9 ")] |}.

(** A host pipeline that produces three blocks for every context. *)
Definition threeBlocks
  : Trace -> InboundContext -> DispatcherOptions -> list ReplyBlock :=
  fun _ _ _ =>
    [ {| kind := "block"; block := {| text := Some "One"; mediaUrl := None |} |};
      {| kind := "block"; block := {| text := Some "Two"; mediaUrl := None |} |};
      {| kind := "final"; block := {| text := Some "Three"; mediaUrl := None |} |} ].

(** A connection that is up and tracks two pods. *)
Definition tracking : WebSocket.State :=
  WebSocket.subscribe ["pod-1"; "pod-2"] (opened true).

(** A new connection object with the two handlers [startAccount]
    registers before it connects. *)
Definition registered : WebSocket.State :=
  WebSocket.onEvent 1 (WebSocket.onStatus 0 WebSocket.create).

(** A summary request with a title and a message count. *)
Definition dailySummary : Summary :=
  {| sm_content := Some "Ship list agreed."; sm_title := Some " Daily digest ";
     sm_channelName := None; sm_channelUrl := None;
     sm_messageCount := Some 12%Z; sm_timeRange := None;
     sm_summaryType := None |}.

Definition summaryEvent : CommonlyEvent :=
  mkEvent (Some "evt-3") "summary.request" (Some "pod-1")
    {| messageId := None; content := None; userId := None; username := None;
       mentions := None; source := None; thread := None;
       summary := Some dailySummary; ensembleId := None;
       participants := None; context := None |}.

(** An account whose runtime token is missing, as [buildAccount] returns it
    when neither the configuration nor the environment has one; the handler
    is started for it all the same. *)
Definition tokenlessClient : Client.CommonlyClientConfig :=
  {| Client.baseUrl := "http://localhost:5000";
     Client.runtimeToken := Some EmptyString;
     Client.userToken := None;
     Client.agentName := Some "openclaw";
     Client.instanceId := Some "cuz" |}.

Definition tokenlessAccount : Handler.ResolvedCommonlyAccount :=
  {| Handler.accountId := Some "test-account";
     Handler.client := tokenlessClient |}.

(** The handler on the test host for the account without a token. *)
Definition runWithoutToken (fetch : Trace -> Request -> FetchResult)
           (blocks : Trace -> InboundContext -> DispatcherOptions
                     -> list ReplyBlock)
           (event : CommonlyEvent) : Trace * outcome unit :=
  Handler.run fetch false tokenlessAccount "default" (fun _ _ => testRoute)
    (fun c => c) (fun _ => "/tmp/store") testPrefix (fun t => t) blocks event.

(** The tool context of an agent that runs outside a sandbox with the test
    configuration. *)
Definition toolContext : Plugin.ToolContext :=
  {| Plugin.sandboxed := false; Plugin.tc_config := Some testConfig |}.

Definition chatRaw : Legacy.RawEvent :=
  {| Legacy.r_type := "chat.mention"; Legacy.r_podId := "pod-1";
     Legacy.r_payload := withContent "hello"; Legacy.r_id := "evt-1" |}.

End Cases.

(* ================================================================== *)
(** ** Proof steps shared by the properties below *)

Module Tactics.
Import Js Http Eff Client Vocabulary.

(** Unfolds a client method down to the monad's operations. *)
Ltac unfold_client :=
  unfold fetchEvents, ackEvent, postMessage, postThreadComment, getContext,
    getMessages, search, readMemory, writeMemory, getSummaries,
    reportEnsembleResponse, runtimeHeaders, userHeaders, newURL, resJson,
    prop_or, warn, doFetch, emit, bind, ret, throw, push.

(** Case analysis on what the network answers, and on [ok] and [json]. *)
Ltac on_answer :=
  match goal with
  | |- context [?f ?t ?r] =>
      match type of (f t r) with
      | FetchResult => destruct (f t r) as [?res|?err]
      end
  end;
  cbn [negb fst];
  repeat match goal with
         | |- context [ok ?r] => destruct (ok r); cbn [negb fst]
         | |- context [json ?r] => destruct (json r); cbn [negb fst]
         | |- context [get_prop ?v ?k] => destruct (get_prop v k); cbn [fst]
         end.

(** Closes a goal of [guarded_by] once the token has been decided. *)
Ltac one_call :=
  on_answer;
  do 2 eexists; cbn [fst]; rewrite <- ?app_assoc; cbn [app];
  (split; [reflexivity | split; [reflexivity | repeat constructor]]).

(** Decides the token of a [guarded_by] goal; [H] states that every URL is
    accepted. *)
Ltac by_token H :=
  let tok := fresh "tok" in
  let E := fresh "E" in
  let tr := fresh "tr" in
  unfold guarded_by, userTokenOf, runtimeTokenOf; intros tr;
  unfold_client; rewrite ?H;
  match goal with
  | |- context [nonempty (option_map trim (userToken ?c))] =>
      destruct (nonempty (option_map trim (userToken c))) as [tok|] eqn:E;
      cbn [nonempty]; rewrite ?E
  | _ => idtac
  end;
  try (unfold nonempty in E;
       destruct (option_map trim (userToken _)) as [?u|]; [|discriminate E];
       destruct (truthy _) eqn:?T in E; [|discriminate E];
       injection E as <-; rewrite T);
  try match goal with
    | |- context [nonempty (option_map trim (runtimeToken ?c))] =>
        destruct (nonempty (option_map trim (runtimeToken c))) as [tok|]
    end;
  first [reflexivity | one_call].

(** Answers the one request of the goal from [Hns], a [non_success]
    network. *)
Ltac answer Hns :=
  match goal with
  | |- context [?f ?t ?r] =>
      match type of (f t r) with
      | FetchResult =>
          let res := fresh "res" in
          let Hok := fresh "Hok" in
          destruct (Hns r) as (res & -> & Hok); rewrite ?Hok
      end
  end;
  cbn [negb fst]; rewrite <- ?app_assoc; cbn [app];
  do 2 eexists; reflexivity.

Ltac failing H :=
  let tr := fresh "tr" in
  let Hns := fresh "Hns" in
  intros tr Hns; unfold_client; rewrite ?H;
  match goal with
  | Ht : _ = Some _ |- _ => unfold runtimeTokenOf in Ht; rewrite ?Ht
  end;
  answer Hns.

(** A runtime-scoped call, step by step: the token, the answer, [ok] and
    [json]. *)
Ltac client_steps :=
  unfold Client.runtimeHeaders, Client.resJson, Client.warn, Client.doFetch,
    emit, bind, ret, throw, push;
  match goal with
  | |- context [nonempty ?t] => destruct (nonempty t)
  end;
  [ on_answer | ].

End Tactics.

(* ================================================================== *)
(** * Properties *)

(** ** Strings *)

Module StringFacts.
Import Js.

Lemma append_assoc (a b c : string) : (a ++ b) ++ c = a ++ b ++ c.
Proof.
  induction a as [|x a IH]; simpl; [reflexivity | now rewrite IH].
Qed.

Lemma append_length (a b : string) :
  String.length (a ++ b) = String.length a + String.length b.
Proof.
  induction a as [|x a IH]; simpl; [reflexivity | now rewrite IH].
Qed.

Lemma prefix_append (s t : string) : prefix s (s ++ t) = true.
Proof.
  induction s as [|x s IH]; simpl.
  - now destruct t.
  - destruct (ascii_dec x x); [exact IH | congruence].
Qed.

Lemma includes_unfold (s sub : string) :
  includes s sub =
  prefix sub s || match s with
                  | String _ r => includes r sub
                  | EmptyString => false
                  end.
Proof. destruct s; reflexivity. Qed.

Lemma includes_prefix (s t : string) : includes (s ++ t) s = true.
Proof. rewrite includes_unfold, prefix_append. reflexivity. Qed.

Lemma includes_append_r (s t sub : string) :
  includes t sub = true -> includes (s ++ t) sub = true.
Proof.
  intros H. induction s as [|x s IH]; simpl; [exact H|].
  rewrite IH. apply orb_true_r.
Qed.

Lemma join_cons (sep x : string) (rest : list string) :
  exists t, join sep (x :: rest) = x ++ t.
Proof.
  destruct rest as [|y rest]; simpl.
  - exists EmptyString. induction x; simpl; congruence.
  - eexists. reflexivity.
Qed.

Lemma join_cons2 (sep x y : string) (rest : list string) :
  join sep (x :: y :: rest) = x ++ sep ++ join sep (y :: rest).
Proof. reflexivity. Qed.

(** The third of at least three joined lines occurs in the result. *)
Lemma includes_third_line (sep a b c : string) (rest : list string) :
  includes (join sep (a :: b :: c :: rest)) c = true.
Proof.
  rewrite !join_cons2.
  destruct (join_cons sep c rest) as [t ->].
  do 4 apply includes_append_r.
  apply includes_prefix.
Qed.

Lemma eqb_append_longer (x y suffix : string) :
  String.length suffix < String.length y -> (x ++ y =? suffix) = false.
Proof.
  intros H. apply String.eqb_neq. intros E.
  apply (f_equal String.length) in E. rewrite append_length in E. lia.
Qed.

Lemma endsWith_unfold (s suffix : string) :
  Handler.endsWith s suffix =
  (s =? suffix) || match s with
                   | String _ r => Handler.endsWith r suffix
                   | EmptyString => false
                   end.
Proof. destruct s; reflexivity. Qed.

Lemma endsWith_append (x suffix : string) :
  Handler.endsWith (x ++ suffix) suffix = true.
Proof.
  induction x as [|c x IH]; simpl.
  - rewrite endsWith_unfold, String.eqb_refl. reflexivity.
  - rewrite IH. apply orb_true_r.
Qed.

(** A string that ends with a longer, fixed tail ends with [suffix] only
    if that tail does. *)
Lemma endsWith_longer_tail (x y suffix : string) :
  String.length suffix < String.length y ->
  Handler.endsWith (x ++ y) suffix = Handler.endsWith y suffix.
Proof.
  intros H. induction x as [|c x IH]; [reflexivity|].
  rewrite endsWith_unfold, eqb_append_longer by exact H.
  cbn [append orb]. exact IH.
Qed.

Lemma truthy_true (s : string) : truthy s = true <-> s <> EmptyString.
Proof.
  unfold truthy. rewrite negb_true_iff. apply String.eqb_neq.
Qed.

Lemma truthy_false (s : string) : truthy s = false <-> s = EmptyString.
Proof.
  unfold truthy. rewrite negb_false_iff. apply String.eqb_eq.
Qed.

Lemma nonempty_Some (o : option string) (s : string) :
  nonempty o = Some s <-> o = Some s /\ s <> EmptyString.
Proof.
  unfold nonempty. destruct o as [x|]; [|intuition congruence].
  destruct (truthy x) eqn:E.
  - apply truthy_true in E. split; [intros [= <-]; auto | intros [[= <-] _]; auto].
  - apply truthy_false in E. subst. split; [discriminate | intros [[= <-] H]; congruence].
Qed.

Lemma nonempty_None (o : option string) :
  nonempty o = None <-> o = None \/ o = Some EmptyString.
Proof.
  unfold nonempty. destruct o as [x|]; [|intuition congruence].
  destruct (truthy x) eqn:E.
  - apply truthy_true in E. split; [discriminate | intros [H|[= H]]; congruence].
  - apply truthy_false in E. subst. intuition.
Qed.

End StringFacts.

(** ** Body formatting *)

Module FormatFacts.
Import Js Events Format Vocabulary Scenarios StringFacts.

(** X29. The body of an ensemble turn that has a context contains the framing
    sentence selected by [isStarter]. *)
Lemma ensemble_body_framing (event : CommonlyEvent) (ctx : EnsembleContext) :
  pfield context event = Some ctx ->
  includes (formatEnsembleTurnBody event)
           (if isStarter ctx then starterSentence else responderSentence)
  = true.
Proof.
  intros H. unfold formatEnsembleTurnBody. rewrite H.
  cbv zeta.
  repeat match goal with
         | |- context [if (0 <? ?n)%nat then _ else _] =>
             destruct (0 <? n)%nat
         end;
    unfold push; cbn [app]; apply includes_third_line.
Qed.

(** Without a context the body is empty, and names neither sentence. *)
Lemma ensemble_body_without_context (event : CommonlyEvent) :
  pfield context event = None ->
  formatEnsembleTurnBody event = EmptyString.
Proof. intros H. unfold formatEnsembleTurnBody. now rewrite H. Qed.

(** C9, as stated, fails: a post content with white space around it is not
    copied into the body as it is. *)
Lemma thread_body_not_verbatim :
  type threadEvent = "thread.mention"
  /\ formatThreadBody threadEvent
     <> specThreadBody (postOf threadEvent) (pfield content threadEvent).
Proof. split; [reflexivity | vm_compute; discriminate]. Qed.

(** C9, amended: [formatThreadBody] builds the body from the trimmed
    contents.  When the referenced post has content and the trimmed comment
    is not empty, the body is "Post: " + trimmed post content + two newlines
    + "Comment: " + trimmed comment; when the post has content and the
    trimmed comment is empty, the "Post: " line alone; when the post has no
    content, the bare trimmed comment. *)
Theorem thread_body_trimmed (event : CommonlyEvent) :
  let comment := trim_or (pfield content event) EmptyString in
  match nonempty (postOf event) with
  | Some post =>
      if truthy comment
      then formatThreadBody event
           = "Post: " ++ trim post ++ LF ++ LF ++ "Comment: " ++ comment
      else formatThreadBody event = "Post: " ++ trim post
  | None => formatThreadBody event = comment
  end.
Proof.
  unfold formatThreadBody, postOf.
  destruct (pfield thread event) as [th|]; cbn [nonempty]; [|reflexivity].
  destruct (nonempty (postContent th)) as [post|]; [|reflexivity].
  cbv zeta.
  destruct (truthy (trim_or (pfield content event) EmptyString));
    [|reflexivity].
  unfold push, join. cbn [app String.concat].
  rewrite !append_assoc. reflexivity.
Qed.

End FormatFacts.

(** ** The REST client *)

Module ClientFacts.
Import Js Http Eff Client Vocabulary Scenarios StringFacts Tactics.

Section Credentials.

Variable fetch : Trace -> Request -> FetchResult.
Variable validURL : string -> bool.
Variable config : CommonlyClientConfig.
Hypothesis urls : forall s, validURL s = true.

Lemma runtime_scoped_posting :
  (forall pod c md,
      guarded_by (runtimeTokenOf config) runtimeMsg
                 (postMessage fetch config pod c md))
  /\ (forall t c,
         guarded_by (runtimeTokenOf config) runtimeMsg
                    (postThreadComment fetch config t c))
  /\ (forall i,
         guarded_by (runtimeTokenOf config) runtimeMsg
                    (ackEvent fetch config i))
  /\ (forall pod e c m,
         guarded_by (runtimeTokenOf config) runtimeMsg
                    (reportEnsembleResponse fetch config pod e c m)).
Proof. repeat split; intros; by_token urls. Qed.

Lemma runtime_scoped_reading :
  guarded_by (runtimeTokenOf config) runtimeMsg
             (fetchEvents fetch validURL config)
  /\ (forall pod task,
         guarded_by (runtimeTokenOf config) runtimeMsg
                    (getContext fetch validURL config pod task))
  /\ (forall pod limit,
         guarded_by (runtimeTokenOf config) runtimeMsg
                    (getMessages fetch validURL config pod limit)).
Proof. repeat split; intros; by_token urls. Qed.

Lemma user_scoped :
  (forall pod q,
      guarded_by (userTokenOf config) userMsg
                 (search fetch validURL config pod q))
  /\ (forall pod path,
         guarded_by (userTokenOf config) userMsg
                    (readMemory fetch validURL config pod path))
  /\ (forall pod t c o,
         guarded_by (userTokenOf config) userMsg
                    (writeMemory fetch config pod t c o))
  /\ (forall pod hours,
         guarded_by (userTokenOf config) userMsg
                    (getSummaries fetch validURL config pod hours)).
Proof. repeat split; intros; by_token urls. Qed.

End Credentials.

Section Classes.

Variable fetch : Trace -> Request -> FetchResult.
Variable validURL : string -> bool.
Variable config : CommonlyClientConfig.

Lemma user_scoped_writing pod t c o :
  guarded_by (userTokenOf config) userMsg
             (writeMemory fetch config pod t c o).
Proof. by_token (eq_refl true). Qed.

(** C4, amended: every runtime-scoped method (posting, acking, fetching
    agent events, reporting ensemble responses, and also the pod context
    and the recent messages) raises the configuration error before any
    network call when the runtime token is absent, and otherwise sends
    the runtime token; every user-scoped method (search, memory read and
    write, summaries) sends the user token when there is one, the runtime
    token when there is none, and raises the configuration error, before
    any network call, only when neither is present.  The methods that
    build their address with [new URL] (agent events, pod context, recent
    messages, search, memory read, summaries) do so before they look at
    the credential: when [new URL] rejects the address, they raise its
    [TypeError] instead, also before any network call, whatever tokens
    are configured. *)
Theorem credential_classes :
  runtimeScoped fetch validURL config
    (fun url _ m =>
       guarded_after_url validURL url (runtimeTokenOf config) runtimeMsg m)
  /\ userScoped fetch validURL config
       (fun url _ m =>
          guarded_after_url validURL url (userTokenOf config) userMsg m)
  /\ (forall u, nonempty (option_map trim (userToken config)) = Some u ->
                userTokenOf config = Some u)
  /\ (nonempty (option_map trim (userToken config)) = None ->
      userTokenOf config = runtimeTokenOf config)
  /\ (userTokenOf config = None <->
      nonempty (option_map trim (userToken config)) = None
      /\ runtimeTokenOf config = None).
Proof.
  destruct (runtime_scoped_posting fetch config) as (H1 & H2 & H3 & H4).
  split; [|split].
  - unfold runtimeScoped, guarded_after_url.
    repeat split; intros; auto;
      match goal with
      | |- if validURL ?u then _ else _ => destruct (validURL u) eqn:V
      end;
      first [ by_token V
            | intros tr; unfold fetchEvents, getContext, getMessages,
                newURL, bind, throw; rewrite V; reflexivity ].
  - unfold userScoped, guarded_after_url.
    repeat split; intros; try apply user_scoped_writing;
      match goal with
      | |- if validURL ?u then _ else _ => destruct (validURL u) eqn:V
      end;
      first [ by_token V
            | intros tr; unfold search, readMemory, getSummaries,
                newURL, bind, throw; rewrite V; reflexivity ].
  - unfold userTokenOf.
    destruct (nonempty (option_map trim (userToken config))) as [u|].
    + repeat split; try congruence; intros; try discriminate.
      destruct H as [H _]; discriminate.
    + repeat split; try congruence; intros; tauto.
Qed.

End Classes.

(** C4, as stated, fails: [getContext] reads the runtime credential, so a
    client that has a user token and no runtime token cannot fetch the pod
    context, although its search goes through. *)
Lemma context_needs_runtime_token :
  userTokenOf userOnlyClient = Some "ut"
  /\ getContext netOk anyURL userOnlyClient "pod-1" None []
     = ([], Thrown (Error "Commonly runtime token is required"))
  /\ exists rq,
      search netOk anyURL userOnlyClient "pod-1" "notes" []
      = ([Fetch rq], Returned (VArr [])).
Proof.
  split; [reflexivity|]. split; [reflexivity|].
  eexists. vm_compute. reflexivity.
Qed.

Lemma credential_classes_witness :
  guarded_by (Some "test-token") runtimeMsg
             (getMessages netOk anyURL testClient "pod-1" 10)
  /\ guarded_by (Some "test-token") userMsg
                (search netOk anyURL testClient "pod-1" "notes")
  /\ forall tr,
       getContext netOk (fun _ => false) userOnlyClient "pod-1" None tr
       = (tr, Thrown (TypeError "Invalid URL")).
Proof.
  destruct (credential_classes netOk anyURL testClient)
    as ((_ & _ & _ & _ & _ & _ & R) & (U & _) & _).
  destruct (credential_classes netOk (fun _ => false) userOnlyClient)
    as ((_ & _ & _ & _ & _ & C & _) & _).
  split; [exact (R "pod-1" 10%Z)|].
  split; [exact (U "pod-1" "notes") | exact (C "pod-1" None)].
Defined.

(** Without a valid base URL, the methods that build their address with
    [new URL] raise a [TypeError] first; the network is not reached
    either. *)
Lemma invalid_url_raises_first fetch validURL config pod task tr :
  validURL (baseUrl config ++ "/api/agents/runtime/pods/" ++ pod ++ "/context")
  = false ->
  getContext fetch validURL config pod task tr
  = (tr, Thrown (TypeError "Invalid URL")).
Proof. intros H. unfold getContext, newURL, bind, throw. now rewrite H. Qed.

Section Failures.

Variable fetch : Trace -> Request -> FetchResult.
Variable validURL : string -> bool.
Variable config : CommonlyClientConfig.
Hypothesis urls : forall s, validURL s = true.

(** With a runtime token, [userHeaders] has a credential to send. *)
Lemma userHeaders_ready (t : string) :
  runtimeTokenOf config = Some t ->
  exists u, userHeaders config = ret (bearer u).
Proof.
  intros Ht.
  assert (Hu : exists u, userTokenOf config = Some u).
  { unfold userTokenOf. rewrite Ht. destruct (nonempty _); eauto. }
  destruct Hu as [u Hu]. exists u.
  unfold userHeaders. unfold userTokenOf, runtimeTokenOf in Hu.
  destruct (nonempty (option_map trim (userToken config))) as [x|] eqn:E.
  - injection Hu as <-. apply nonempty_Some in E. destruct E as [_ E].
    apply truthy_true in E. cbn [nonempty]. now rewrite E.
  - now rewrite Hu.
Qed.

(** X1. The read methods answer a failed response with a warning and their
    default. *)
Lemma reads_fail_softly (t : string) :
  runtimeTokenOf config = Some t ->
  (forall pod task,
      soft_fails fetch VNull (getContext fetch validURL config pod task))
  /\ (forall pod limit,
         soft_fails fetch (VArr []) (getMessages fetch validURL config pod limit))
  /\ (forall pod q,
         soft_fails fetch (VArr []) (search fetch validURL config pod q))
  /\ (forall pod path,
         soft_fails fetch VNull (readMemory fetch validURL config pod path))
  /\ (forall pod hours,
         soft_fails fetch (VArr []) (getSummaries fetch validURL config pod hours)).
Proof.
  intros Ht. destruct (userHeaders_ready t Ht) as [u Hh].
  repeat split; intros;
    intros tr Hns;
    unfold getContext, getMessages, search, readMemory, getSummaries;
    rewrite ?Hh;
    unfold runtimeHeaders, newURL, resJson, prop_or, warn, doFetch, emit,
      bind, ret, throw, push;
    rewrite ?urls; unfold runtimeTokenOf in Ht; rewrite ?Ht;
    answer Hns.
Qed.

(** X2. The methods that change remote state, and [fetchEvents], raise on a
    failed response. *)
Lemma writes_fail_hard (t : string) :
  runtimeTokenOf config = Some t ->
  (forall pod content md,
      hard_fails fetch (postMessage fetch config pod content md))
  /\ (forall thread content,
         hard_fails fetch (postThreadComment fetch config thread content))
  /\ (forall i, hard_fails fetch (ackEvent fetch config i))
  /\ hard_fails fetch (fetchEvents fetch validURL config)
  /\ (forall pod target content o,
         hard_fails fetch (writeMemory fetch config pod target content o)).
Proof.
  intros Ht. destruct (userHeaders_ready t Ht) as [u Hh].
  repeat split; intros; try failing urls.
  intros tr Hns. unfold writeMemory. rewrite Hh.
  unfold resJson, doFetch, bind, ret, throw, push.
  answer Hns.
Qed.

(** [reportEnsembleResponse] warns on a failed response and then goes on
    to read the body: the result is whatever the body holds, and a body
    that is not JSON makes the call raise. *)
Lemma report_reads_failed_body (t pod e content : string)
      (m : option string) (tr : Trace) (rq : Request) (res : Response) :
  runtimeTokenOf config = Some t ->
  rq = {| rq_method := POST;
          rq_url := baseUrl config ++ "/api/pods/" ++ pod
                    ++ "/ensemble/response";
          rq_query := [];
          rq_headers := bearer t;
          rq_body :=
            Some (VObj [("ensembleId", VStr e);
                        ("agentType", opt_str (agentName config));
                        ("instanceId", opt_str (instanceId config));
                        ("content", VStr content);
                        ("messageId", opt_str m)]) |} ->
  fetch tr rq = Resolved res -> ok res = false ->
  reportEnsembleResponse fetch config pod e content m tr
  = (app tr [Fetch rq;
             ConsoleWarn ("Failed to report ensemble response: "
                          ++ numToString (status res))],
     match json res with
     | Some v => Returned v
     | None => Thrown (SyntaxError "Unexpected token in JSON")
     end).
Proof.
  intros Ht -> Hf Hok. unfold_client. unfold runtimeTokenOf in Ht.
  rewrite Ht, Hf, Hok. cbn [negb]. rewrite <- app_assoc. cbn [app].
  destruct (json res); reflexivity.
Qed.

End Failures.

(** C5 at a gateway error: the report to the ensemble endpoint is answered
    with status 502 and an HTML page.  The client warns, and then raises
    where its siblings return their default; when the failed response does
    carry JSON, that document is the result. *)
Theorem report_failure_is_not_soft :
  (exists rq,
      reportEnsembleResponse netBadGateway testClient "pod-abc"
        "ensemble-xyz" "hello" (Some "msg-123") []
      = ([Fetch rq; ConsoleWarn "Failed to report ensemble response: 502"],
         Thrown (SyntaxError "Unexpected token in JSON")))
  /\ (exists rq,
         reportEnsembleResponse netServerError testClient "pod-abc"
           "ensemble-xyz" "hello" (Some "msg-123") []
         = ([Fetch rq; ConsoleWarn "Failed to report ensemble response: 500"],
            Returned (VObj [("error", VStr "ensemble not found")])))
  /\ (exists rq,
         getContext netBadGateway anyURL testClient "pod-abc" None []
         = ([Fetch rq; ConsoleWarn "Failed to get context: 502"],
            Returned VNull)).
Proof.
  repeat split; eexists; vm_compute; reflexivity.
Qed.

End ClientFacts.

(** ** The tracked subscription set *)

Module WebSocketFacts.
Import WebSocket Vocabulary Scenarios.

Lemma mem_In (x : string) (l : list string) : mem x l = true <-> In x l.
Proof.
  unfold mem. rewrite existsb_exists. split.
  - intros (y & Hy & E). apply String.eqb_eq in E. now subst.
  - intros H. exists x. split; [exact H | apply String.eqb_refl].
Qed.

Lemma mem_not_In (x : string) (l : list string) :
  mem x l = false <-> ~ In x l.
Proof.
  rewrite <- mem_In. destruct (mem x l); split; intros; congruence.
Qed.

(** Inserting a list into a duplicate-free accumulator, as [new Set]
    does. *)
Lemma insert_all (l : list string) :
  forall acc, NoDup acc ->
    let r := fold_left (fun acc x => if mem x acc then acc else app acc [x])
                       l acc in
    NoDup r /\ (forall x, In x r <-> In x acc \/ In x l)
    /\ exists tail, r = app acc tail.
Proof.
  induction l as [|y l IH]; intros acc Hacc; cbv zeta; cbn [fold_left].
  - split; [exact Hacc|]. split; [intros x; cbn [In]; tauto|].
    exists []. now rewrite app_nil_r.
  - destruct (mem y acc) eqn:E.
    + destruct (IH acc Hacc) as (H1 & H2 & tail & H3).
      split; [exact H1|]. split; [|exists tail; exact H3].
      intros x. rewrite H2. cbn [In]. apply mem_In in E.
      split; [tauto | intros [H|[<-|H]]; auto].
    + apply mem_not_In in E.
      assert (Hn : NoDup (app acc [y])).
      { apply NoDup_app; repeat constructor; auto.
        intros a Ha [<-|[]]. contradiction. }
      destruct (IH _ Hn) as (H1 & H2 & tail & H3).
      split; [exact H1|]. split.
      * intros x. rewrite H2, in_app_iff. cbn [In]. tauto.
      * exists (y :: tail). rewrite H3, <- app_assoc. reflexivity.
Qed.

Lemma setOf_NoDup (l : list string) : NoDup (setOf l).
Proof. apply (insert_all l []). constructor. Qed.

Lemma setOf_In (l : list string) (x : string) : In x (setOf l) <-> In x l.
Proof.
  destruct (insert_all l [] (NoDup_nil _)) as (_ & H & _).
  cbv zeta in H. unfold setOf. rewrite H. cbn [In]. tauto.
Qed.

Lemma emitted_app (st st' : State) (o : list Output) :
  out st' = app (out st) o -> emitted st st' = frames o.
Proof.
  intros H. unfold emitted. rewrite H, skipn_app, skipn_all, Nat.sub_diag.
  reflexivity.
Qed.

Lemma frames_notify (hs : list nat) (s : Status) :
  frames (map (fun h => Notify h s) hs) = [].
Proof. induction hs; [reflexivity | exact IHhs]. Qed.

(** What [subscribe] and [unsubscribe] do once a socket exists. *)
Lemma subscribe_tracks (st : State) (s : Socket) (ids : list string) :
  socket st = Some s -> ids <> [] ->
  subscribedPodIds (subscribe ids st) = setOf (app (subscribedPodIds st) ids)
  /\ out (subscribe ids st) = app (out st) [Emit (Subscribe ids)]
  /\ socket (subscribe ids st) = socket st.
Proof.
  intros Hs Hi. unfold subscribe. rewrite Hs.
  destruct ids; [congruence | now cbn; rewrite Hs].
Qed.

Lemma unsubscribe_tracks (st : State) (s : Socket) (ids : list string) :
  socket st = Some s -> ids <> [] ->
  subscribedPodIds (unsubscribe ids st)
  = filter (fun id => negb (mem id ids)) (subscribedPodIds st)
  /\ out (unsubscribe ids st) = app (out st) [Emit (Unsubscribe ids)]
  /\ socket (unsubscribe ids st) = socket st.
Proof.
  intros Hs Hi. unfold unsubscribe. rewrite Hs.
  destruct ids; [congruence | now cbn; rewrite Hs].
Qed.

(** The tracked list never holds an identifier twice. *)
Lemma tracked_NoDup (st : State) (ids : list string) :
  NoDup (subscribedPodIds st) ->
  NoDup (subscribedPodIds (subscribe ids st))
  /\ NoDup (subscribedPodIds (unsubscribe ids st)).
Proof.
  intros H. unfold subscribe, unsubscribe.
  destruct (socket st); [|split; exact H].
  destruct ids; [split; exact H|]. cbn.
  split; [apply setOf_NoDup | apply NoDup_filter, H].
Qed.

(** What the [connect] handler sends. *)
Lemma on_connect_replays (st : State) (s : Socket) :
  socket st = Some s ->
  emitted st (on_connect st)
  = match subscribedPodIds st with
    | [] => []
    | _ => [Subscribe (subscribedPodIds st)]
    end
  /\ subscribedPodIds (on_connect st) = subscribedPodIds st
  /\ isConnected (on_connect st) = true.
Proof.
  intros Hs. unfold on_connect. rewrite Hs.
  set (note := {| st_connected := true; st_reason := None;
                  st_error := None |}).
  destruct (subscribedPodIds st) as [|p ps] eqn:E.
  - cbn. rewrite E. cbn. split; [|split; [exact E | reflexivity]].
    unfold emitted. cbn. rewrite skipn_app, skipn_all, Nat.sub_diag. cbn.
    apply frames_notify.
  - cbn. rewrite E. cbn. split; [|split; [exact E | reflexivity]].
    unfold emitted. cbn.
    rewrite <- app_assoc, skipn_app, skipn_all, Nat.sub_diag. cbn.
    unfold frames. rewrite flat_map_app. fold (frames (map (fun h => Notify h note) (statusHandlers st))).
    rewrite frames_notify. reflexivity.
Qed.

(** C6, as stated, fails: before [connect()] has created the socket, a
    [subscribe] call leaves the tracked set as it was. *)
Lemma subscribe_before_connect_is_dropped :
  socket create = None
  /\ ~ In "pod-1" (subscribedPodIds (subscribe ["pod-1"] create))
  /\ exists st, subscribedTooEarly = inr st
                /\ emitted st (on_connect st) = [].
Proof.
  split; [reflexivity|]. split; [cbn; tauto|].
  eexists. split; reflexivity.
Qed.

(** C6, amended: once [connect()] has created the socket, every
    [subscribe] and [unsubscribe] call with identifiers updates the tracked
    set at once, whether the socket is connected or not; without a socket
    the call changes nothing.  On every [connect] event, a non-empty
    tracked set is sent whole in exactly one subscribe frame, and an empty
    one sends none. *)
Theorem tracked_set_policy (st : State) (up : bool) (ids : list string) :
  socket st = Some {| connected := up |} -> ids <> [] ->
  subscribedPodIds (subscribe ids st) = setOf (app (subscribedPodIds st) ids)
  /\ subscribedPodIds (unsubscribe ids st)
     = filter (fun id => negb (mem id ids)) (subscribedPodIds st)
  /\ emitted st (on_connect st)
     = match subscribedPodIds st with
       | [] => []
       | _ => [Subscribe (subscribedPodIds st)]
       end
  /\ (forall st0, socket st0 = None ->
                  subscribe ids st0 = st0 /\ unsubscribe ids st0 = st0).
Proof.
  intros Hs Hi.
  split; [eapply subscribe_tracks; eauto|].
  split; [eapply unsubscribe_tracks; eauto|].
  split; [eapply on_connect_replays; eauto|].
  intros st0 H0. unfold subscribe, unsubscribe. now rewrite H0.
Qed.

Lemma tracked_set_policy_witness :
  socket (opened false) = Some {| connected := false |}
  /\ ["pod-1"] <> []
  /\ (subscribedPodIds (subscribe ["pod-1"] (opened false))
      = setOf (app (subscribedPodIds (opened false)) ["pod-1"])
      /\ subscribedPodIds (unsubscribe ["pod-1"] (opened false))
         = filter (fun id => negb (mem id ["pod-1"]))
                  (subscribedPodIds (opened false))
      /\ emitted (opened false) (on_connect (opened false))
         = match subscribedPodIds (opened false) with
           | [] => []
           | _ => [Subscribe (subscribedPodIds (opened false))]
           end
      /\ (forall st0, socket st0 = None ->
                      subscribe ["pod-1"] st0 = st0
                      /\ unsubscribe ["pod-1"] st0 = st0)).
Proof.
  split; [reflexivity|]. split; [discriminate|].
  apply (tracked_set_policy (opened false) false ["pod-1"]);
    [reflexivity | discriminate].
Defined.

(** C8: on a connection whose socket exists and that tracks nothing yet,
    [subscribe([a,b])] then [subscribe([b,c])] leaves the tracked set
    exactly {a,b,c}, the second frame carrying only [b,c];
    [unsubscribe([b])] then leaves {a,c}, its frame carrying only [b]; a
    call with an empty list changes nothing and sends nothing. *)
Theorem subscribe_unsubscribe_scenario (st : State) (a b c : string) :
  socket st <> None -> subscribedPodIds st = [] ->
  let st1 := subscribe [a; b] st in
  let st2 := subscribe [b; c] st1 in
  let st3 := unsubscribe [b] st2 in
  (forall x, In x (subscribedPodIds st2) <-> x = a \/ x = b \/ x = c)
  /\ NoDup (subscribedPodIds st2)
  /\ emitted st1 st2 = [Subscribe [b; c]]
  /\ (forall x, In x (subscribedPodIds st3) <-> (x = a \/ x = c) /\ x <> b)
  /\ emitted st2 st3 = [Unsubscribe [b]]
  /\ (a <> b -> b <> c -> a <> c ->
      subscribedPodIds st2 = [a; b; c] /\ subscribedPodIds st3 = [a; c])
  /\ (subscribe [] st2 = st2 /\ unsubscribe [] st2 = st2).
Proof.
  intros Hs Ht. destruct (socket st) as [s|] eqn:E; [clear Hs|congruence].
  intros st1 st2 st3.
  destruct (subscribe_tracks st s [a; b] E) as (T1 & O1 & S1);
    [discriminate|]. fold st1 in T1, O1, S1. rewrite E in S1.
  destruct (subscribe_tracks st1 s [b; c] S1) as (T2 & O2 & S2);
    [discriminate|]. fold st2 in T2, O2, S2. rewrite S1 in S2.
  destruct (unsubscribe_tracks st2 s [b] S2) as (T3 & O3 & S3);
    [discriminate|]. fold st3 in T3, O3, S3.
  assert (In2 : forall x, In x (subscribedPodIds st2)
                          <-> x = a \/ x = b \/ x = c).
  { intros x. rewrite T2, setOf_In, in_app_iff, T1, setOf_In, Ht.
    cbn [app In]. intuition congruence. }
  assert (In3 : forall x, In x (subscribedPodIds st3)
                          <-> (x = a \/ x = c) /\ x <> b).
  { intros x. rewrite T3, filter_In, In2, negb_true_iff, mem_not_In.
    cbn [In]. intuition congruence. }
  split; [exact In2|].
  split; [rewrite T2; apply setOf_NoDup|].
  split; [rewrite (emitted_app _ _ _ O2); reflexivity|].
  split; [exact In3|].
  split; [rewrite (emitted_app _ _ _ O3); reflexivity|].
  split.
  - intros Hab Hbc Hac.
    assert (Hba : (b =? a) = false) by (apply String.eqb_neq; congruence).
    assert (Hca : (c =? a) = false) by (apply String.eqb_neq; congruence).
    assert (Hcb : (c =? b) = false) by (apply String.eqb_neq; congruence).
    apply String.eqb_neq in Hab.
    assert (E2 : subscribedPodIds st2 = [a; b; c]).
    { rewrite T2, T1, Ht. unfold setOf, mem. cbn.
      repeat (rewrite ?Hba, ?Hca, ?Hcb, ?String.eqb_refl; cbn).
      reflexivity. }
    split; [exact E2|]. rewrite T3, E2. unfold mem. cbn.
    repeat (rewrite ?Hab, ?Hcb, ?String.eqb_refl; cbn). reflexivity.
  - unfold subscribe, unsubscribe. now rewrite S2.
Qed.

Lemma subscribe_unsubscribe_scenario_witness :
  socket (opened true) <> None
  /\ subscribedPodIds (opened true) = []
  /\ subscribedPodIds
       (subscribe ["b"; "c"] (subscribe ["a"; "b"] (opened true)))
     = ["a"; "b"; "c"]
  /\ emitted (subscribe ["a"; "b"] (opened true))
       (subscribe ["b"; "c"] (subscribe ["a"; "b"] (opened true)))
     = [Subscribe ["b"; "c"]].
Proof.
  split; [discriminate|]. split; [reflexivity|].
  pose proof (subscribe_unsubscribe_scenario (opened true) "a" "b" "c") as H.
  cbv zeta in H.
  destruct H as (_ & _ & H3 & _ & _ & H6 & _);
    [discriminate | reflexivity |].
  split; [|exact H3].
  apply H6; discriminate.
Defined.

End WebSocketFacts.

(** ** The event handler *)

Module HandlerFacts.
Import Js Events Format Http Inbound Eff Handler Vocabulary Scenarios
         StringFacts Tactics.

(** *** Sequencing *)

Lemma bind_returned {S A B} (m : M S A) (k : A -> M S B) s s' b :
  bind m k s = (s', Returned b) ->
  exists s1 a, m s = (s1, Returned a) /\ k a s1 = (s', Returned b).
Proof.
  unfold bind. destruct (m s) as [s1 [a|e]]; [eauto | discriminate].
Qed.

Lemma adds_ret {A} P (a : A) : adds P (ret a).
Proof. intros s. exists []. now rewrite app_nil_r. Qed.

Lemma adds_bind {A B} P (m : M HState A) (k : A -> M HState B) :
  adds P m -> (forall a, adds P (k a)) -> adds P (bind m k).
Proof.
  intros Hm Hk s. unfold bind.
  destruct (Hm s) as (e1 & H1 & F1).
  destruct (m s) as [s1 [a|e]]; cbn [fst] in *.
  - destruct (Hk a s1) as (e2 & H2 & F2).
    exists (app e1 e2). rewrite H2, H1, app_assoc.
    split; [reflexivity | now apply Forall_app].
  - now exists e1.
Qed.

Lemma adds_catch {A} P (m : M HState A) (h : Js.error -> M HState A) :
  adds P m -> (forall e, adds P (h e)) -> adds P (catch m h).
Proof.
  intros Hm Hh s. unfold catch.
  destruct (Hm s) as (e1 & H1 & F1).
  destruct (m s) as [s1 [a|e]]; cbn [fst] in *.
  - now exists e1.
  - destruct (Hh e s1) as (e2 & H2 & F2).
    exists (app e1 e2). rewrite H2, H1, app_assoc.
    split; [reflexivity | now apply Forall_app].
Qed.

Lemma adds_lift {A} P (m : M Trace A) : addsT P m -> adds P (lift m).
Proof.
  intros Hm s. unfold lift. destruct (Hm (trace s)) as (e & H & F).
  destruct (m (trace s)) as [tr r]. now exists e.
Qed.

Lemma addsT_emit P (a : Action) : P a -> addsT P (emit a).
Proof. intros H tr. exists [a]. split; [reflexivity | now constructor]. Qed.

Lemma adds_weaken {A} (P Q : Action -> Prop) (m : M HState A) :
  (forall a, P a -> Q a) -> adds P m -> adds Q m.
Proof.
  intros H Hm s. destruct (Hm s) as (e & H1 & F).
  exists e. split; [exact H1 | eapply Forall_impl; eauto].
Qed.

(** *** The calls of the delivery path are not acknowledgments *)

Lemma not_ack_url (x y : string) :
  String.length "/ack" < String.length y ->
  endsWith y "/ack" = false ->
  endsWith (x ++ y) "/ack" = false.
Proof. intros H E. now rewrite endsWith_longer_tail. Qed.

Lemma post_url_plain (base pod : string) h b :
  plain (Fetch {| rq_method := POST;
                  rq_url := base ++ "/api/agents/runtime/pods/" ++ pod
                            ++ "/messages";
                  rq_query := []; rq_headers := h; rq_body := b |}).
Proof.
  split; [|reflexivity]. cbn [is_ack rq_method rq_url].
  rewrite <- !append_assoc. apply not_ack_url; [cbn; lia | reflexivity].
Qed.

Lemma comment_url_plain (base thread : string) h b :
  plain (Fetch {| rq_method := POST;
                  rq_url := base ++ "/api/agents/runtime/threads/" ++ thread
                            ++ "/comments";
                  rq_query := []; rq_headers := h; rq_body := b |}).
Proof.
  split; [|reflexivity]. cbn [is_ack rq_method rq_url].
  rewrite <- !append_assoc. apply not_ack_url; [cbn; lia | reflexivity].
Qed.

Lemma report_url_plain (base pod : string) h b :
  plain (Fetch {| rq_method := POST;
                  rq_url := base ++ "/api/pods/" ++ pod
                            ++ "/ensemble/response";
                  rq_query := []; rq_headers := h; rq_body := b |}).
Proof.
  split; [|reflexivity]. cbn [is_ack rq_method rq_url].
  rewrite <- !append_assoc. apply not_ack_url; [cbn; lia | reflexivity].
Qed.

Lemma ack_url_is_ack (c : Client.CommonlyClientConfig) (i : string) h b :
  is_ack (Fetch {| rq_method := POST; rq_url := ackUrl c i;
                   rq_query := []; rq_headers := h; rq_body := b |}) = true.
Proof.
  cbn [is_ack rq_method rq_url]. unfold ackUrl.
  rewrite <- !append_assoc. apply endsWith_append.
Qed.

Section WithHost.

Variable fetch : Trace -> Request -> FetchResult.
Variable account : ResolvedCommonlyAccount.
Variable DEFAULT_ACCOUNT_ID : string.
Variable resolveAgentRoute : option string -> string -> Route.
Variable finalizeInboundContext : InboundContext -> InboundContext.
Variable resolveStorePath : string -> string.
Variable configuredPrefix : string -> option string.
Variable parseInlineDirectives : string -> string.
Variable replyBlocks :
  Trace -> InboundContext -> DispatcherOptions -> list ReplyBlock.

Lemma postMessage_plain pod c md :
  addsT plain (postMessage fetch account pod c md).
Proof.
  intros tr. unfold postMessage, Client.postMessage. client_steps;
    try (exists []; rewrite app_nil_r; split; [reflexivity | constructor]);
    eexists; (split; [reflexivity|]);
    repeat constructor; apply post_url_plain.
Qed.

Lemma postThreadComment_plain t c :
  addsT plain (postThreadComment fetch account t c).
Proof.
  intros tr. unfold postThreadComment, Client.postThreadComment.
  client_steps;
    try (exists []; rewrite app_nil_r; split; [reflexivity | constructor]);
    eexists; (split; [reflexivity|]);
    repeat constructor; apply comment_url_plain.
Qed.

Lemma reportEnsembleResponse_plain pod e c m :
  addsT plain (reportEnsembleResponse fetch account pod e c m).
Proof.
  intros tr. unfold reportEnsembleResponse, Client.reportEnsembleResponse.
  client_steps;
    try (exists []; rewrite app_nil_r; split; [reflexivity | constructor]);
    rewrite <- ?app_assoc; cbn [app];
    eexists; (split; [reflexivity|]);
    repeat constructor; apply report_url_plain.
Qed.

Abbreviation deliver' :=
  (deliver fetch account DEFAULT_ACCOUNT_ID parseInlineDirectives).
Abbreviation deliverBlocks' :=
  (deliverBlocks fetch account DEFAULT_ACCOUNT_ID parseInlineDirectives).
Abbreviation ackIfId' := (ackIfId fetch account).
Abbreviation onEvent' :=
  (onEvent fetch false account DEFAULT_ACCOUNT_ID resolveAgentRoute
           finalizeInboundContext resolveStorePath configuredPrefix
           parseInlineDirectives replyBlocks).
Abbreviation run' :=
  (run fetch false account DEFAULT_ACCOUNT_ID resolveAgentRoute
       finalizeInboundContext resolveStorePath configuredPrefix
       parseInlineDirectives replyBlocks).
Abbreviation key := (connectionKey account DEFAULT_ACCOUNT_ID).
Abbreviation entered' := (entered account DEFAULT_ACCOUNT_ID).
Abbreviation routeOf' := (routeOf account resolveAgentRoute).
Abbreviation contextOf' :=
  (contextOf account resolveAgentRoute finalizeInboundContext).
Abbreviation optionsOf' :=
  (optionsOf account resolveAgentRoute configuredPrefix).

Lemma setStatus_plain p :
  adds plain (setStatus account DEFAULT_ACCOUNT_ID p).
Proof. apply adds_lift, addsT_emit. split; reflexivity. Qed.

Lemma getSent_plain : adds plain getSent.
Proof. intros s. exists []. now rewrite app_nil_r. Qed.

Lemma setSent_plain b : adds plain (setSent b).
Proof. intros s. exists []. cbn. now rewrite app_nil_r. Qed.

(** One delivery posts, reports and updates the status; it never
    acknowledges. *)
Lemma deliver_plain event pod threadId payload :
  adds plain (deliver' event pod threadId payload).
Proof.
  unfold deliver.
  destruct (negb (truthy _)); [apply adds_ret|].
  apply adds_bind; [|intros; apply setStatus_plain].
  destruct (nonempty threadId) as [tid|].
  - apply adds_bind; [|intros; apply adds_ret].
    apply adds_lift, postThreadComment_plain.
  - apply adds_bind; [apply adds_lift, postMessage_plain|].
    intros posted. apply adds_bind; [apply getSent_plain|].
    intros sent.
    destruct ((type event =? "ensemble.turn") && negb sent);
      [|apply adds_ret].
    destruct (nonempty (pfield ensembleId event)) as [eid|];
      [|apply adds_ret].
    apply adds_bind; [apply setSent_plain|]. intros _.
    apply adds_bind; [|intros; apply adds_ret].
    apply adds_lift, reportEnsembleResponse_plain.
Qed.

(** The dispatcher runs every block and returns, whatever the blocks
    do. *)
Lemma deliverBlocks_returns event pod threadId blocks :
  forall s, exists s' ext,
    deliverBlocks' event pod threadId blocks s = (s', Returned tt)
    /\ trace s' = app (trace s) ext /\ Forall plain ext.
Proof.
  induction blocks as [|b rest IH]; intros s; cbn [deliverBlocks].
  - exists s, []. rewrite app_nil_r. repeat split. constructor.
  - unfold bind at 1.
    assert (H : exists s1 e1,
               catch (deliver' event pod threadId (block b))
                 (fun err => lift (emit (LogError
                    ("[commonly] " ++ kind b ++ " reply failed: "
                     ++ errorString err)))) s = (s1, Returned tt)
               /\ trace s1 = app (trace s) e1 /\ Forall plain e1).
    { unfold catch.
      destruct (deliver_plain event pod threadId (block b) s)
        as (e1 & H1 & F1).
      destruct (deliver' event pod threadId (block b) s)
        as [s1 [[]|err]]; cbn [fst] in H1.
      - exists s1, e1. auto.
      - exists {| trace := app (trace s1)
                             [LogError ("[commonly] " ++ kind b
                                        ++ " reply failed: "
                                        ++ errorString err)];
                  ensembleResponseSent := ensembleResponseSent s1 |}.
        eexists. split; [reflexivity|]. cbn [trace].
        rewrite H1, <- app_assoc. split; [reflexivity|].
        apply Forall_app. split; [exact F1|]. repeat constructor. }
    destruct H as (s1 & e1 & -> & H1 & F1).
    destruct (IH s1) as (s2 & e2 & -> & H2 & F2).
    exists s2, (app e1 e2). rewrite H2, H1, app_assoc.
    repeat split. now apply Forall_app.
Qed.

(** *** Acknowledgment *)

Lemma ackIfId_without_id event s :
  nonempty (_id event) = None -> ackIfId' event s = (s, Returned tt).
Proof. intros H. unfold ackIfId. now rewrite H. Qed.

Lemma ackIfId_returned event i s s' :
  nonempty (_id event) = Some i ->
  ackIfId' event s = (s', Returned tt) ->
  exists rq,
    trace s' = app (trace s) [Fetch rq]
    /\ rq_method rq = POST
    /\ rq_url rq = ackUrl (client account) i
    /\ is_ack (Fetch rq) = true.
Proof.
  intros Hi. unfold ackIfId, ackEvent, Client.ackEvent, lift. rewrite Hi.
  unfold Client.runtimeHeaders, Client.doFetch, bind, ret, throw, push.
  destruct (nonempty (option_map trim (Client.runtimeToken (client account))))
    as [tok|]; [|discriminate].
  match goal with
  | |- context [fetch ?t ?r] => destruct (fetch t r) as [res|err]
  end; [|discriminate].
  destruct (ok res); cbn [negb]; [|discriminate].
  intros [= <-]. eexists. cbn [trace].
  split; [reflexivity|]. split; [reflexivity|]. split; [reflexivity|].
  apply ack_url_is_ack.
Qed.

Lemma ackIfId_no_dispatch event :
  adds (fun a => is_dispatch a = false) (ackIfId' event).
Proof.
  unfold ackIfId. destruct (nonempty (_id event)) as [i|];
    [|apply adds_ret].
  apply adds_lift. intros tr.
  unfold ackEvent, Client.ackEvent. client_steps;
    try (exists []; rewrite app_nil_r; split; [reflexivity | constructor]);
    eexists; (split; [reflexivity|]); repeat constructor.
Qed.

(** *** The three paths of the handler *)

Lemma no_pod_path event :
  nonempty (podId event) = None ->
  onEvent' event initial = (initial, Returned tt).
Proof. intros H. unfold onEvent. now rewrite H. Qed.

Lemma empty_path event pod :
  nonempty (podId event) = Some pod ->
  (type event =? "summary.request") = false ->
  truthy (rawContentOf event) = false ->
  onEvent' event initial = ackIfId' event entered'.
Proof.
  intros Hp Ht Hr. unfold onEvent. rewrite Hp, Ht, Hr. reflexivity.
Qed.

Lemma summary_path event pod :
  nonempty (podId event) = Some pod ->
  (type event =? "summary.request") = true ->
  (exists s, onEvent' event initial = ackIfId' event s
             /\ Forall plain (trace s))
  \/ (exists s e, onEvent' event initial = (s, Thrown e)
                  /\ Forall plain (trace s)).
Proof.
  intros Hp Ht. unfold onEvent. rewrite Hp, Ht.
  assert (He : Forall plain (trace entered'))
    by (repeat constructor).
  change (bind (setStatus account DEFAULT_ACCOUNT_ID StInbound) ?k initial)
    with (k tt entered').
  cbv beta.
  set (txt := buildSummaryMessage (pfield summary event)).
  destruct (truthy txt).
  - destruct (adds_lift plain _ (postMessage_plain pod txt []) entered')
      as (ext & H & F).
    unfold bind.
    destruct (lift (postMessage fetch account pod txt []) entered')
      as [s1 [v|e]]; cbn [fst] in H.
    + left. exists s1. split; [reflexivity|].
      rewrite H. now apply Forall_app.
    + right. exists s1, e. split; [reflexivity|].
      rewrite H. now apply Forall_app.
  - left. exists entered'. split; [reflexivity | exact He].
Qed.

Lemma dispatch_path event pod :
  nonempty (podId event) = Some pod ->
  (type event =? "summary.request") = false ->
  truthy (rawContentOf event) = true ->
  exists s ext,
    onEvent' event initial = ackIfId' event s
    /\ trace s
       = app [SetStatus key StInbound;
              RecordInboundSession (resolveStorePath (agentId (routeOf' pod)))
                (SessionKey (contextOf' event pod)) (contextOf' event pod)
                (nonempty (threadIdOf event));
              DispatchBegin (contextOf' event pod) (optionsOf' pod)]
             (app ext [DispatchEnd])
    /\ Forall plain ext.
Proof.
  intros Hp Ht Hr. unfold onEvent. rewrite Hp, Ht, Hr. cbn [negb].
  unfold dispatchReplyWithBufferedBlockDispatcher.
  fold (routeOf' pod); fold (contextOf' event pod);
    fold (optionsOf' pod).
  set (mid := {| trace := [SetStatus key StInbound;
                  RecordInboundSession
                    (resolveStorePath (agentId (routeOf' pod)))
                    (SessionKey (contextOf' event pod)) (contextOf' event pod)
                    (nonempty (threadIdOf event));
                  DispatchBegin (contextOf' event pod) (optionsOf' pod)];
                 ensembleResponseSent := false |}).
  destruct (deliverBlocks_returns event pod (threadIdOf event)
              (replyBlocks (trace mid) (contextOf' event pod) (optionsOf' pod))
              mid) as (s1 & ext & Hd & Htr & F).
  subst mid. cbn [trace] in Hd, Htr.
  exists {| trace := app (trace s1) [DispatchEnd];
            ensembleResponseSent := ensembleResponseSent s1 |}, ext.
  split; [|split; [|exact F]].
  - unfold bind, setStatus, recordInboundSession, setSent, getTrace, lift,
      emit, ret, push.
    cbn [trace ensembleResponseSent initial app].
    rewrite Hd. reflexivity.
  - cbn [trace]. rewrite Htr, <- app_assoc. reflexivity.
Qed.

(** *** What a run dispatches *)

Lemma plain_no_dispatch (a : Action) : plain a -> is_dispatch a = false.
Proof. now intros [_ H]. Qed.

Lemma plain_no_ack (a : Action) : plain a -> is_ack a = false.
Proof. now intros [H _]. Qed.

Lemma dispatched_app (l1 l2 : Trace) :
  dispatched (app l1 l2) = app (dispatched l1) (dispatched l2).
Proof. apply flat_map_app. Qed.

Lemma dispatched_quiet (l : Trace) :
  Forall (fun a => is_dispatch a = false) l -> dispatched l = [].
Proof.
  induction 1 as [|a l Ha _ IH]; [reflexivity|].
  cbn. destruct a; try discriminate Ha; exact IH.
Qed.

Lemma acks_quiet (l : Trace) :
  Forall (fun a => is_ack a = false) l -> filter is_ack l = [].
Proof.
  induction 1 as [|a l Ha _ IH]; [reflexivity|].
  cbn. now rewrite Ha.
Qed.

Lemma run_fst event :
  fst (run' event) = trace (fst (onEvent' event initial)).
Proof. unfold run. now destruct (onEvent _ _ _ _ _ _ _ _ _ _ _ _). Qed.

Lemma ackIfId_dispatches_nothing event s :
  dispatched (trace (fst (ackIfId' event s))) = dispatched (trace s).
Proof.
  destruct (ackIfId_no_dispatch event s) as (ext & -> & F).
  rewrite dispatched_app, (dispatched_quiet ext F). apply app_nil_r.
Qed.

(** A run dispatches at most once: exactly when the event is not a
    summary request and its raw content is not empty. *)
Lemma run_dispatches event pod :
  nonempty (podId event) = Some pod ->
  dispatched (fst (run' event))
  = if (type event =? "summary.request")
       || negb (truthy (rawContentOf event))
    then []
    else [(contextOf' event pod, optionsOf' pod)].
Proof.
  intros Hp. rewrite run_fst.
  destruct (type event =? "summary.request") eqn:Ht; cbn [orb].
  - destruct (summary_path event pod Hp Ht)
      as [(s & -> & F)|(s & e & -> & F)].
    + rewrite ackIfId_dispatches_nothing. apply dispatched_quiet.
      eapply Forall_impl; [apply plain_no_dispatch | exact F].
    + apply dispatched_quiet.
      eapply Forall_impl; [apply plain_no_dispatch | exact F].
  - destruct (truthy (rawContentOf event)) eqn:Hr; cbn [negb].
    + destruct (dispatch_path event pod Hp Ht Hr) as (s & ext & -> & Hs & F).
      rewrite ackIfId_dispatches_nothing, Hs, !dispatched_app.
      rewrite (dispatched_quiet ext)
        by (eapply Forall_impl; [apply plain_no_dispatch | exact F]).
      reflexivity.
    + rewrite (empty_path event pod Hp Ht Hr).
      now rewrite ackIfId_dispatches_nothing.
Qed.

(** The reply prefix given to the dispatcher is the configured one for
    the routed agent, whatever the event type. *)
Lemma prefix_reaches_dispatcher event pod ctx opts :
  nonempty (podId event) = Some pod ->
  In (ctx, opts) (dispatched (fst (run' event))) ->
  responsePrefix opts = configuredPrefix (agentId (routeOf' pod)).
Proof.
  intros Hp. rewrite (run_dispatches event pod Hp).
  destruct (_ || _); [intros []|].
  intros [[= <- <-]|[]]. reflexivity.
Qed.

(** An event that is neither a summary request nor an ensemble turn and
    has no content (after trimming) is acknowledged, and nothing else:
    in particular a heartbeat without content is not dispatched. *)
Lemma contentless_event_is_only_acknowledged event pod :
  nonempty (podId event) = Some pod ->
  (type event =? "summary.request") = false ->
  (type event =? "ensemble.turn") = false ->
  trim_or (pfield content event) EmptyString = EmptyString ->
  onEvent' event initial = ackIfId' event entered'
  /\ dispatched (fst (run' event)) = [].
Proof.
  intros Hp Ht He Hc.
  assert (Hr : truthy (rawContentOf event) = false).
  { unfold rawContentOf. rewrite He, Hc. reflexivity. }
  split; [now apply (empty_path event pod)|].
  rewrite (run_dispatches event pod Hp), Ht, Hr. reflexivity.
Qed.

(** Up to the acknowledgment, a run has acknowledged nothing. *)
Lemma before_ack event pod :
  nonempty (podId event) = Some pod ->
  (exists s, onEvent' event initial = ackIfId' event s
             /\ Forall (fun a => is_ack a = false) (trace s)
             /\ (dispatched (trace s) = [] \/ In DispatchEnd (trace s)))
  \/ (exists s e, onEvent' event initial = (s, Thrown e)
                  /\ Forall (fun a => is_ack a = false) (trace s)).
Proof.
  intros Hp.
  destruct (type event =? "summary.request") eqn:Ht.
  - destruct (summary_path event pod Hp Ht)
      as [(s & H & F)|(s & e & H & F)]; [left; exists s|right; exists s, e];
      (split; [exact H|]).
    + split; [eapply Forall_impl; [apply plain_no_ack | exact F]|].
      left. apply dispatched_quiet.
      eapply Forall_impl; [apply plain_no_dispatch | exact F].
    + eapply Forall_impl; [apply plain_no_ack | exact F].
  - left. destruct (truthy (rawContentOf event)) eqn:Hr.
    + destruct (dispatch_path event pod Hp Ht Hr) as (s & ext & H & Hs & F).
      exists s. split; [exact H|]. rewrite Hs. split.
      * repeat first [apply Forall_cons | apply Forall_app; split
                      | apply Forall_nil]; try reflexivity.
        eapply Forall_impl; [apply plain_no_ack | exact F].
      * right. rewrite !in_app_iff. right. right. now left.
    + exists entered'. split; [now apply (empty_path event pod)|].
      split; [repeat constructor | left; reflexivity].
Qed.

Lemma ackIfId_at_most_one event s :
  exists ext,
    trace (fst (ackIfId' event s)) = app (trace s) ext
    /\ length ext <= 1.
Proof.
  unfold ackIfId. destruct (nonempty (_id event)) as [i|].
  - unfold lift, ackEvent, Client.ackEvent.
    generalize (trace s) as tr. intros tr.
    client_steps;
      try (exists []; cbn; rewrite app_nil_r; split; [reflexivity | lia]);
      eexists; cbn; (split; [reflexivity | cbn; lia]).
  - exists []. cbn. rewrite app_nil_r. split; [reflexivity | lia].
Qed.

(** X28. However a run ends, it has called the acknowledgment endpoint at
    most once. *)
Lemma acknowledged_at_most_once event pod :
  nonempty (podId event) = Some pod ->
  length (filter is_ack (fst (run' event))) <= 1.
Proof.
  intros Hp. rewrite run_fst.
  destruct (before_ack event pod Hp) as [(s & -> & F & _)|(s & e & -> & F)].
  - destruct (ackIfId_at_most_one event s) as (ext & -> & L).
    rewrite filter_app, (acks_quiet _ F). cbn [app].
    pose proof (filter_length_le is_ack ext). lia.
  - cbn [fst]. rewrite (acks_quiet _ F). cbn. lia.
Qed.


End WithHost.

(** C10: an event whose [podId] is missing or empty goes through the
    handler without a trace: no status update, no body, no dispatch, and no
    acknowledgment even when it carries an id. *)
Theorem podless_event_is_ignored fetch aborted account dflt route finalize
        store prefixOf strip blocks (event : CommonlyEvent) :
  podId event = None \/ podId event = Some EmptyString ->
  run fetch aborted account dflt route finalize store prefixOf strip blocks
      event
  = ([], Returned tt).
Proof.
  intros H. apply nonempty_None in H. unfold run, onEvent. rewrite H.
  now destruct aborted.
Qed.

Lemma podless_event_is_ignored_witness :
  podId podlessEvent = None
  /\ _id podlessEvent = Some "evt-7"
  /\ runOn netOk (prefixingHost "Hello.") podlessEvent = ([], Returned tt).
Proof.
  split; [reflexivity|]. split; [reflexivity|].
  apply (podless_event_is_ignored netOk false testAccount "default").
  left. reflexivity.
Defined.



(** C1 on the heartbeat of the test suite, which has no content: the
    handler acknowledges the event and stops, nothing is handed to the
    reply pipeline; [transformEvent] knows no heartbeat either and returns
    no message. *)
Theorem heartbeat_without_content_is_dropped :
  (exists ack,
      runOn netOk (prefixingHost "Noted.") heartbeatEvent
      = ([SetStatus "test-account" StInbound; Fetch ack], Returned tt)
      /\ rq_url ack = ackUrl testClient "evt-heartbeat")
  /\ dispatched (fst (runOn netOk (prefixingHost "Noted.") heartbeatEvent))
     = []
  /\ Legacy.transformEvent 0 heartbeatRaw
     = (["[commonly] Unknown event type: heartbeat"], None).
Proof.
  split; [|split; reflexivity].
  eexists. split; vm_compute; reflexivity.
Qed.

(** With explicit content, the heartbeat is dispatched, that content being
    the body. *)
Lemma heartbeat_with_content_is_dispatched :
  map (fun d => Body (fst d))
      (dispatched (fst (runOn netOk noReply heartbeatCustom)))
  = ["Check recent pod messages and only reply if needed."].
Proof. reflexivity. Qed.

(** C2 on the ensemble turn of the test suite, for the agent configured
    with the prefix "My response:": the dispatcher is given that prefix,
    and the reply posted to the pod and reported to the ensemble carries
    it. *)
Theorem ensemble_turn_keeps_prefix :
  type ensembleEvent = "ensemble.turn"
  /\ map snd
       (dispatched
          (fst (runOn netOk (prefixingHost "Opening statement") ensembleEvent)))
     = [{| responsePrefix := Some "My response:" |}]
  /\ contentsOf
       (fst (runOn netOk (prefixingHost "Opening statement") ensembleEvent))
     = ["My response: Opening statement"; "My response: Opening statement"].
Proof. repeat split. Qed.

End HandlerFacts.


(** ** Trimming and prefixes *)

Module TextFacts.
Import Js Text StringFacts.

Lemma trimEnd_idempotent (s : string) : trimEnd (trimEnd s) = trimEnd s.
Proof.
  induction s as [|c r IH]; [reflexivity|].
  cbn [trimEnd]. destruct (is_ws c && (trimEnd r =? "")) eqn:E;
    [reflexivity|].
  cbn [trimEnd]. rewrite IH, E. reflexivity.
Qed.

Lemma trimStart_head (s : string) :
  match trimStart s with
  | String c _ => is_ws c = false
  | EmptyString => True
  end.
Proof.
  induction s as [|c r IH]; [exact I|].
  cbn [trimStart]. destruct (is_ws c) eqn:E; [exact IH | exact E].
Qed.

Lemma trimEnd_head (s : string) :
  match s with String c _ => is_ws c = false | EmptyString => True end ->
  match trimEnd s with
  | String c _ => is_ws c = false
  | EmptyString => True
  end.
Proof.
  destruct s as [|c r]; [trivial|].
  intros H. cbn [trimEnd]. rewrite H. exact H.
Qed.

Lemma trimStart_fixed (s : string) :
  match s with String c _ => is_ws c = false | EmptyString => True end ->
  trimStart s = s.
Proof.
  destruct s as [|c r]; [reflexivity|].
  intros H. cbn [trimStart]. now rewrite H.
Qed.

Lemma trim_idempotent (s : string) : trim (trim s) = trim s.
Proof.
  unfold trim.
  rewrite (trimStart_fixed (trimEnd (trimStart s))).
  - apply trimEnd_idempotent.
  - apply trimEnd_head, trimStart_head.
Qed.

Lemma dropPrefixCI_append (pre x p : string) :
  dropPrefixCI pre x = Some EmptyString ->
  dropPrefixCI pre (x ++ p) = Some p.
Proof.
  revert x. induction pre as [|a pre IH]; intros x.
  - cbn. now intros [= ->].
  - destruct x as [|b x]; [discriminate|]. cbn.
    destruct (Ascii.eqb (lower a) (lower b)); [apply IH | discriminate].
Qed.

Lemma lastChar_append (x y : string) :
  y <> EmptyString -> lastChar (x ++ y) = lastChar y.
Proof.
  intros Hy. induction x as [|c x IH]; [reflexivity|].
  cbn [append lastChar]. rewrite IH.
  destruct y as [|d y]; [congruence|].
  cbn [lastChar]. now destruct (lastChar y).
Qed.

Lemma endsWith_suffix (s suffix : string) :
  Handler.endsWith s suffix = true -> exists p, s = p ++ suffix.
Proof.
  induction s as [|c r IH]; cbn [Handler.endsWith].
  - rewrite orb_false_r. intros H. apply String.eqb_eq in H.
    exists EmptyString. exact H.
  - intros H. apply orb_true_iff in H. destruct H as [H|H].
    + apply String.eqb_eq in H. exists EmptyString. exact H.
    + destruct (IH H) as [p ->]. now exists (String c p).
Qed.

(** A string does not end with a suffix whose last character differs from
    its own. *)
Lemma endsWith_other_ending (x y suffix : string) (c d : ascii) :
  lastChar y = Some c -> lastChar suffix = Some d -> c <> d ->
  Handler.endsWith (x ++ y) suffix = false.
Proof.
  intros Hy Hs Hcd.
  destruct (Handler.endsWith (x ++ y) suffix) eqn:E; [|reflexivity].
  apply endsWith_suffix in E. destruct E as [p E].
  apply (f_equal lastChar) in E.
  rewrite !lastChar_append in E.
  - congruence.
  - intros ->. discriminate.
  - intros ->. discriminate.
Qed.

End TextFacts.

(** ** Account resolution *)

Module AccountFacts.
Import Js Accounts Vocabulary Cases StringFacts TextFacts.

Lemma normalizeString_trimmed (o : option string) (t : string) :
  normalizeString o = Some t -> t <> EmptyString /\ trim t = t.
Proof.
  unfold normalizeString. intros H. apply nonempty_Some in H.
  destruct H as [H Ht]. split; [exact Ht|].
  destruct o as [s|]; [|discriminate]. injection H as <-.
  apply trim_idempotent.
Qed.

Lemma orOpt_trimmed (a b : option string) (t : string) :
  orOpt (normalizeString a) (normalizeString b) = Some t ->
  t <> EmptyString /\ trim t = t.
Proof.
  unfold orOpt. destruct (normalizeString a) eqn:E.
  - intros [= <-]. eapply normalizeString_trimmed, E.
  - apply normalizeString_trimmed.
Qed.

(** X11. Whatever the configuration and the environment, a built account
    has a base URL, an agent name and an instance id that are not empty,
    only trimmed, non-empty pod ids, is disabled only by an explicit
    [enabled: false], and is configured exactly when it has a runtime
    token. *)
Theorem built_account_is_well_formed (env : Env) (id : string)
        (c : CommonlyAccountConfig) :
  let a := buildAccount env id c in
  accountId a = id
  /\ r_baseUrl a <> EmptyString
  /\ r_agentName a <> EmptyString
  /\ r_instanceId a <> EmptyString
  /\ Forall (fun p => p <> EmptyString /\ trim p = p) (r_podIds a)
  /\ (r_enabled a = false <-> enabled c = Some false)
  /\ configured a = truthy (r_runtimeToken a).
Proof.
  cbv zeta. unfold buildAccount. cbn [accountId r_baseUrl r_agentName
    r_instanceId r_podIds r_enabled configured r_runtimeToken].
  assert (D : forall o d, d <> EmptyString ->
                          orDefault (normalizeString o) d <> EmptyString).
  { intros o d Hd. destruct (normalizeString o) eqn:E; cbn; [|exact Hd].
    apply (normalizeString_trimmed _ _ E). }
  repeat split.
  - unfold orDefault.
    destruct (orOpt (normalizeString (baseUrl c)) _) as [u|] eqn:E;
      [|discriminate].
    unfold orOpt in E. destruct (normalizeString (baseUrl c)) eqn:E1.
    + injection E as <-. apply (normalizeString_trimmed _ _ E1).
    + apply (orOpt_trimmed _ _ _ E).
  - apply D. discriminate.
  - apply D. discriminate.
  - destruct (podIds c) as [l|]; [|constructor].
    apply Forall_forall. intros p Hp. apply filter_In in Hp.
    destruct Hp as [Hp Ht]. apply truthy_true in Ht. split; [exact Ht|].
    apply in_map_iff in Hp. destruct Hp as (x & <- & _).
    apply trim_idempotent.
  - destruct (enabled c) as [[|]|]; congruence.
  - destruct (enabled c) as [[|]|]; congruence.
  - assert (B : truthy
                  (orDefault
                     (orOpt (normalizeString (baseUrl c))
                        (orOpt (normalizeString (COMMONLY_API_URL env))
                           (normalizeString (COMMONLY_BASE_URL env))))
                     "http://localhost:5000") = true).
    { apply truthy_true. unfold orDefault.
      destruct (orOpt (normalizeString (baseUrl c)) _) as [u|] eqn:E;
        [|discriminate].
      unfold orOpt in E. destruct (normalizeString (baseUrl c)) eqn:E1.
      + injection E as <-. apply (normalizeString_trimmed _ _ E1).
      + apply (orOpt_trimmed _ _ _ E). }
    rewrite B. reflexivity.
Qed.

(** The token of a configured account is what the client will send. *)
Lemma configured_token (env : Env) (id : string) (c : CommonlyAccountConfig) :
  configured (buildAccount env id c) = true ->
  runtimeTokenOf (clientOf (buildAccount env id c))
  = Some (r_runtimeToken (buildAccount env id c)).
Proof.
  unfold buildAccount, runtimeTokenOf, clientOf.
  cbn [configured r_runtimeToken Client.runtimeToken option_map].
  intros H. apply andb_true_iff in H. destruct H as [_ H].
  apply truthy_true in H. revert H. unfold orDefault.
  destruct (orOpt (normalizeString (runtimeToken c)) _) as [t|] eqn:E;
    [|congruence].
  intros _. apply orOpt_trimmed in E. destruct E as [Ht ->].
  apply nonempty_Some. auto.
Qed.

Section Resolution.

Variable DEFAULT_ACCOUNT_ID : string.
Variable normalizeAccountId : option string -> string.
Variable listBoundAccountIds : OpenClawConfig -> list string.
Variable resolveDefaultAgentBoundAccountId : OpenClawConfig -> option string.
Variable sortIds : list string -> list string.
Variable env : Env.

Abbreviation resolve :=
  (resolveCommonlyAccount DEFAULT_ACCOUNT_ID normalizeAccountId
     listBoundAccountIds resolveDefaultAgentBoundAccountId sortIds env).
Abbreviation defaultId :=
  (resolveDefaultCommonlyAccountId DEFAULT_ACCOUNT_ID normalizeAccountId
     listBoundAccountIds resolveDefaultAgentBoundAccountId sortIds env).
Abbreviation merged := (mergeCommonlyAccountConfig normalizeAccountId).

Lemma resolved_is_built (cfg : OpenClawConfig) (requested : option string) :
  exists id c, resolve cfg requested = buildAccount env id c.
Proof.
  unfold resolveCommonlyAccount.
  repeat match goal with
         | |- context [if ?b then _ else _] => destruct b
         | |- context [match nonempty ?x with _ => _ end] =>
             destruct (nonempty x)
         end; eauto.
Qed.

(** X12. An account that resolves as configured can reach the runtime
    endpoints: the client built from it sends the account's runtime token,
    so posting and acknowledging issue their request instead of raising the
    configuration error. *)
Theorem configured_account_can_post (cfg : OpenClawConfig)
        (requested : option string) :
  let a := resolve cfg requested in
  configured a = true ->
  runtimeTokenOf (clientOf a) = Some (r_runtimeToken a)
  /\ (forall fetch pod content md,
         guarded_by (Some (r_runtimeToken a)) runtimeMsg
                    (Client.postMessage fetch (clientOf a) pod content md))
  /\ (forall fetch i,
         guarded_by (Some (r_runtimeToken a)) runtimeMsg
                    (Client.ackEvent fetch (clientOf a) i)).
Proof.
  cbv zeta. destruct (resolved_is_built cfg requested) as (id & c & ->).
  intros H. pose proof (configured_token env id c H) as T.
  split; [exact T|]. rewrite <- T. split; intros.
  - apply (ClientFacts.runtime_scoped_posting fetch _).
  - apply (ClientFacts.runtime_scoped_posting fetch _).
Qed.

Lemma built_id (id : string) (c : CommonlyAccountConfig) :
  accountId (buildAccount env id c) = id.
Proof. reflexivity. Qed.

(** X13. The account [resolveCommonlyAccount] returns is always the one
    the configuration holds under the returned id, and that id is the
    requested one (the default account id when the request normalises to
    nothing) or the id of the default account.  The default account is
    returned instead of the requested one exactly when the request names no
    account, the default id is another id, the requested account is not
    configured and the default account is configured.  So the returned
    account is configured exactly when the requested account is, or when
    the request names no account and the default account is configured. *)
Theorem resolution_policy (cfg : OpenClawConfig) (requested : option string) :
  let a := resolve cfg requested in
  let named := match nonempty (option_map trim requested) with
               | Some _ => true
               | None => false
               end in
  let id := if truthy (normalizeAccountId requested)
            then normalizeAccountId requested else DEFAULT_ACCOUNT_ID in
  let dflt := defaultId cfg in
  let held x := buildAccount env x (merged cfg x) in
  a = held (accountId a)
  /\ (accountId a = id \/ accountId a = dflt)
  /\ (accountId a <> id <->
      named = false /\ dflt <> id
      /\ configured (held id) = false /\ configured (held dflt) = true)
  /\ configured a
     = configured (held id) || (negb named && configured (held dflt)).
Proof.
  cbv zeta. unfold resolveCommonlyAccount.
  set (id := if truthy (normalizeAccountId requested)
             then normalizeAccountId requested else DEFAULT_ACCOUNT_ID).
  set (dflt := defaultId cfg).
  destruct (nonempty (option_map trim requested)) as [x|].
  - rewrite built_id. cbn [negb andb]. rewrite orb_false_r.
    intuition congruence.
  - cbn [negb andb].
    destruct (configured (buildAccount env id (merged cfg id))) eqn:P.
    + rewrite built_id, P. cbn [orb]. intuition congruence.
    + cbn [orb]. destruct (dflt =? id) eqn:Q.
      * apply String.eqb_eq in Q. rewrite built_id, P, Q, P.
        intuition congruence.
      * apply String.eqb_neq in Q.
        destruct (configured (buildAccount env dflt (merged cfg dflt)))
          eqn:F; rewrite built_id, ?P, ?F; intuition congruence.
Qed.

End Resolution.

Lemma configured_account_can_post_witness :
  configured (resolveTest testConfig (Some "test-account")) = true
  /\ runtimeTokenOf (clientOf (resolveTest testConfig (Some "test-account")))
     = Some "test-token".
Proof.
  split; [reflexivity|].
  exact (proj1 (configured_account_can_post "default"
                  (fun o => match o with Some s => trim s | None => EmptyString end)
                  (fun _ => []) (fun _ => None) (fun l => l) noEnv
                  testConfig (Some "test-account") eq_refl)).
Defined.

End AccountFacts.

(** ** Host-initiated sending *)

Module OutboundFacts.
Import Js Text Http Eff Outbound Vocabulary Observe Cases Scenarios
       StringFacts TextFacts Tactics.

Lemma replaceStartCI_hit (pre x p : string) :
  dropPrefixCI pre x = Some EmptyString -> replaceStartCI pre (x ++ p) = p.
Proof.
  intros H. unfold replaceStartCI. now rewrite (dropPrefixCI_append _ _ _ H).
Qed.

Lemma pod_is_not_commonly (x p : string) :
  dropPrefixCI "pod:" x = Some EmptyString ->
  replaceStartCI "commonly:" (x ++ p) = x ++ p.
Proof.
  destruct x as [|b x]; [discriminate|]. cbn [dropPrefixCI].
  destruct (Ascii.eqb (lower "p") (lower b)) eqn:E; [|discriminate].
  intros _. apply Ascii.eqb_eq in E.
  unfold replaceStartCI. cbn [append dropPrefixCI]. rewrite <- E.
  reflexivity.
Qed.

(** X7. [normalizePodId] removes one leading "commonly:" and then one
    leading "pod:", in any letter case, and trims what is left; in the
    other order only "pod:" goes. *)
Theorem normalizePodId_strips (c p rest : string) :
  dropPrefixCI "commonly:" c = Some EmptyString ->
  dropPrefixCI "pod:" p = Some EmptyString ->
  normalizePodId (c ++ p ++ rest) = trim rest
  /\ normalizePodId (c ++ rest) = trim (replaceStartCI "pod:" rest)
  /\ normalizePodId (p ++ rest) = trim rest
  /\ normalizePodId (p ++ c ++ rest) = trim (c ++ rest).
Proof.
  intros Hc Hp. unfold normalizePodId. repeat split.
  - now rewrite (replaceStartCI_hit _ _ _ Hc), (replaceStartCI_hit _ _ _ Hp).
  - now rewrite (replaceStartCI_hit _ _ _ Hc).
  - now rewrite (pod_is_not_commonly _ _ Hp), (replaceStartCI_hit _ _ _ Hp).
  - now rewrite (pod_is_not_commonly _ _ Hp), (replaceStartCI_hit _ _ _ Hp).
Qed.

Lemma normalizePodId_strips_witness :
  dropPrefixCI "commonly:" "Commonly:" = Some EmptyString
  /\ dropPrefixCI "pod:" "POD:" = Some EmptyString
  /\ normalizePodId ("Commonly:" ++ "POD:" ++ " abc ") = "abc".
Proof.
  split; [reflexivity|]. split; [reflexivity|].
  exact (proj1 (normalizePodId_strips "Commonly:" "POD:" " abc "
                  eq_refl eq_refl)).
Defined.

(** X8. The address the handler gives a dispatched context leads back to
    the pod: [normalizePodId] maps [To] and [OriginatingTo] to the pod id,
    for a pod id without surrounding white space that does not itself
    start with "pod:". *)
Theorem reply_address_round_trip (event : Events.CommonlyEvent)
        (pod raw : string) (route : Inbound.Route) (thread : option string)
        (body : string) :
  trim pod = pod -> dropPrefixCI "pod:" pod = None ->
  let ctx := Handler.buildContext event pod raw route thread body in
  normalizePodId (Inbound.To ctx) = pod
  /\ normalizePodId (Inbound.OriginatingTo ctx) = pod.
Proof.
  intros Ht Hp. cbn [Handler.buildContext Inbound.To Inbound.OriginatingTo].
  assert (H : normalizePodId ("commonly:" ++ pod) = pod).
  { unfold normalizePodId.
    rewrite (replaceStartCI_hit "commonly:" "commonly:" pod eq_refl).
    unfold replaceStartCI. now rewrite Hp. }
  split; exact H.
Qed.

Lemma reply_address_round_trip_witness :
  trim "pod-abc" = "pod-abc"
  /\ dropPrefixCI "pod:" "pod-abc" = None
  /\ normalizePodId
       (Inbound.To (Handler.buildContext ensembleEvent "pod-abc" "hello"
                      testRoute None "hello"))
     = "pod-abc".
Proof.
  split; [reflexivity|]. split; [reflexivity|].
  exact (proj1 (reply_address_round_trip ensembleEvent "pod-abc" "hello"
                  testRoute None "hello" eq_refl eq_refl)).
Defined.

Section Sending.

Variable fetch : Trace -> Request -> FetchResult.
Variable resolveAccount :
  Accounts.OpenClawConfig -> option string -> Accounts.ResolvedCommonlyAccount.
Variable parseInlineDirectives : string -> string.
Variable now : Z.

(** A runtime-scoped post with a token issues its one request, however the
    network answers. *)
Lemma comment_is_sent (c : Client.CommonlyClientConfig) (t thread content : string)
      (tr : Trace) :
  runtimeTokenOf c = Some t ->
  exists rq,
    fst (Client.postThreadComment fetch c thread content tr) = app tr [Fetch rq]
    /\ rq_url rq = commentUrl c thread
    /\ contentsOf [Fetch rq] = [content].
Proof.
  intros Ht. unfold runtimeTokenOf in Ht.
  unfold Client.postThreadComment, Client.runtimeHeaders, Client.resJson,
    Client.doFetch, bind, ret, throw, push.
  rewrite Ht. on_answer; eexists; repeat split.
Qed.

Lemma message_is_sent (c : Client.CommonlyClientConfig) (t pod content : string)
      (md : list (string * value)) (tr : Trace) :
  runtimeTokenOf c = Some t ->
  exists rq,
    fst (Client.postMessage fetch c pod content md tr) = app tr [Fetch rq]
    /\ rq_url rq = messageUrl c pod
    /\ contentsOf [Fetch rq] = [content].
Proof.
  intros Ht. unfold runtimeTokenOf in Ht.
  unfold Client.postMessage, Client.runtimeHeaders, Client.resJson,
    Client.doFetch, bind, ret, throw, push.
  rewrite Ht. on_answer; eexists; repeat split.
Qed.

(** X9. [sendText] raises before anything else when the runtime has not
    been set; a text that is blank once sanitised and trimmed is answered
    with a synthetic message id and no network call; with a runtime token,
    any other text is posted once, as a comment of the thread when a thread
    id is given and as a message of the normalised pod otherwise. *)
Theorem sendText_routes (to : string) (text : option string)
        (threadId : value) (accountId : option string)
        (cfg : Accounts.OpenClawConfig) (t : string) (tr : Trace) :
  let client := Accounts.clientOf (resolveAccount cfg accountId) in
  let message :=
    trim (Handler.sanitizeOutboundText parseInlineDirectives
            (Some (match text with Some x => x | None => EmptyString end))) in
  runtimeTokenOf client = Some t ->
  sendText fetch None resolveAccount parseInlineDirectives now
           to text threadId accountId tr
  = (tr, Thrown (Error "Commonly runtime not initialized"))
  /\ (message = EmptyString ->
      sendText fetch (Some cfg) resolveAccount parseInlineDirectives now
               to text threadId accountId tr
      = (tr, Returned {| channel := "commonly";
                         messageId := normalizePodId to ++ ":"
                                      ++ numToString now |}))
  /\ (message <> EmptyString ->
      exists rq,
        fst (sendText fetch (Some cfg) resolveAccount parseInlineDirectives
                      now to text threadId accountId tr)
        = app tr [Fetch rq]
        /\ contentsOf [Fetch rq] = [message]
        /\ rq_url rq
           = if value_truthy threadId
             then commentUrl client (toString threadId)
             else messageUrl client (normalizePodId to)).
Proof.
  intros client message Ht. split; [reflexivity|]. split.
  - intros Hm. unfold sendText, getCommonlyRuntime, bind, ret.
    fold message. rewrite Hm. reflexivity.
  - intros Hm. apply truthy_true in Hm.
    pose proof (comment_is_sent client t (toString threadId) message tr Ht)
      as (rq1 & A1 & A2 & A3).
    pose proof (message_is_sent client t (normalizePodId to) message [] tr Ht)
      as (rq2 & B1 & B2 & B3).
    unfold sendText, getCommonlyRuntime. unfold bind at 1. unfold ret at 1.
    fold client. fold message. rewrite Hm. cbn [negb].
    destruct (value_truthy threadId).
    + exists rq1. unfold bind.
      destruct (Client.postThreadComment _ _ _ _ tr) as [tr1 [v|e]];
        cbn [fst] in *; auto.
    + exists rq2. unfold bind.
      destruct (Client.postMessage _ _ _ _ _ tr) as [tr1 [v|e]];
        cbn [fst] in *; auto.
Qed.

(** X10. [sendMedia] has no guard for an empty message: with a runtime
    token it always issues exactly one request, a comment of the thread when
    a thread id is given and a message of the normalised pod otherwise, whose
    content is the sanitised text and the trimmed media URL, the non-empty
    ones joined by a newline. *)
Theorem sendMedia_always_posts (to : string) (text mediaUrl : option string)
        (threadId : value) (accountId : option string)
        (cfg : Accounts.OpenClawConfig) (t : string) (tr : Trace) :
  let client := Accounts.clientOf (resolveAccount cfg accountId) in
  runtimeTokenOf client = Some t ->
  exists rq,
    fst (sendMedia fetch (Some cfg) resolveAccount parseInlineDirectives now
                   to text mediaUrl threadId accountId tr)
    = app tr [Fetch rq]
    /\ contentsOf [Fetch rq]
       = [join LF
            (filter truthy
               [Handler.sanitizeOutboundText parseInlineDirectives
                  (Some (match text with Some x => x | None => EmptyString end));
                trim_or mediaUrl EmptyString])]
    /\ rq_url rq
       = if value_truthy threadId
         then commentUrl client (toString threadId)
         else messageUrl client (normalizePodId to).
Proof.
  intros client Ht.
  set (message :=
         join LF
           (filter truthy
              [Handler.sanitizeOutboundText parseInlineDirectives
                 (Some (match text with Some x => x | None => EmptyString end));
               trim_or mediaUrl EmptyString])).
  pose proof (comment_is_sent client t (toString threadId) message tr Ht)
    as (rq1 & A1 & A2 & A3).
  pose proof (message_is_sent client t (normalizePodId to) message [] tr Ht)
    as (rq2 & B1 & B2 & B3).
  unfold sendMedia, getCommonlyRuntime. unfold bind at 1. unfold ret at 1.
  fold client. fold message.
  destruct (value_truthy threadId).
  - exists rq1. unfold bind.
    destruct (Client.postThreadComment _ _ _ _ tr) as [tr1 [v|e]];
      cbn [fst] in *; auto.
  - exists rq2. unfold bind.
    destruct (Client.postMessage _ _ _ _ _ tr) as [tr1 [v|e]];
      cbn [fst] in *; auto.
Qed.

End Sending.

Lemma sendText_routes_witness :
  runtimeTokenOf (Accounts.clientOf (resolveTest testConfig None))
  = Some "test-token"
  /\ sendText netOk (Some testConfig) resolveTest (fun t => t) 1700000000000
              "commonly:pod-1" (Some "   ") VUndefined None []
     = ([], Returned {| channel := "commonly";
                        messageId := "pod-1:1700000000000" |}).
Proof.
  split; [reflexivity|].
  refine (proj1 (proj2 (sendText_routes netOk resolveTest (fun t => t)
                          1700000000000 "commonly:pod-1" (Some "   ")
                          VUndefined None testConfig "test-token" []
                          eq_refl)) eq_refl).
Defined.

Lemma sendMedia_always_posts_witness :
  runtimeTokenOf (Accounts.clientOf (resolveTest testConfig None))
  = Some "test-token"
  /\ exists rq,
      fst (sendMedia netOk (Some testConfig) resolveTest (fun t => t)
                     1700000000000 "pod:pod-1" None None VUndefined None [])
      = [Fetch rq]
      /\ contentsOf [Fetch rq] = [EmptyString].
Proof.
  split; [reflexivity|].
  destruct (sendMedia_always_posts netOk resolveTest (fun t => t)
              1700000000000 "pod:pod-1" None None VUndefined None
              testConfig "test-token" [] eq_refl) as (rq & H1 & H2 & _).
  exists rq. split; [exact H1 | exact H2].
Defined.

End OutboundFacts.

(** ** The REST client, beyond credentials *)

Module ClientMoreFacts.
Import Js Http Eff Client Vocabulary Observe Scenarios Cases StringFacts Tactics.

Lemma reads_fail_softly_witness :
  (forall s, anyURL s = true)
  /\ runtimeTokenOf testClient = Some "test-token"
  /\ soft_fails netBadGateway (VArr [])
       (getMessages netBadGateway anyURL testClient "pod-1" 10).
Proof.
  split; [reflexivity|]. split; [reflexivity|].
  destruct (ClientFacts.reads_fail_softly netBadGateway anyURL testClient
              (fun _ => eq_refl) "test-token" eq_refl) as (_ & H & _).
  apply H.
Defined.

Lemma writes_fail_hard_witness :
  (forall s, anyURL s = true)
  /\ runtimeTokenOf testClient = Some "test-token"
  /\ hard_fails netBadGateway (ackEvent netBadGateway testClient "evt-1").
Proof.
  split; [reflexivity|]. split; [reflexivity|].
  destruct (ClientFacts.writes_fail_hard netBadGateway anyURL testClient
              (fun _ => eq_refl) "test-token" eq_refl) as (_ & _ & H & _).
  apply H.
Defined.

(** X3. [healthCheck] never raises and needs no credential: it issues one
    request without an [Authorization] header and returns [res.ok], or
    [false] when the request itself is rejected. *)
Theorem healthCheck_never_raises (fetch : Trace -> Request -> FetchResult)
        (config : CommonlyClientConfig) (tr : Trace) :
  exists rq healthy,
    healthCheck fetch config tr = (app tr [Fetch rq], Returned healthy)
    /\ rq_url rq = baseUrl config ++ "/api/health"
    /\ authorization rq = None
    /\ healthy = match fetch tr rq with
                 | Resolved res => ok res
                 | Rejected _ => false
                 end.
Proof.
  unfold healthCheck, catch, bind, doFetch, ret, push.
  match goal with
  | |- context [fetch tr ?r] => exists r; destruct (fetch tr r) as [res|e]
  end; eexists; repeat split.
Qed.

Lemma assoc_obj_set_same (k : string) (v : value) (fs : list (string * value)) :
  assoc k (obj_set k v fs) = Some v.
Proof.
  induction fs as [|[k' v'] r IH]; cbn [obj_set assoc].
  - now rewrite String.eqb_refl.
  - destruct (k' =? k) eqn:E; cbn [assoc].
    + now rewrite String.eqb_refl.
    + now rewrite E.
Qed.

Lemma assoc_obj_set_other (k k0 : string) (v : value)
      (fs : list (string * value)) :
  k <> k0 -> assoc k (obj_set k0 v fs) = assoc k fs.
Proof.
  intros H. assert (E0 : (k0 =? k) = false)
    by (apply String.eqb_neq; congruence).
  induction fs as [|[k' v'] r IH]; cbn [obj_set assoc].
  - now rewrite E0.
  - destruct (k' =? k0) eqn:E; cbn [assoc].
    + apply String.eqb_eq in E. subst k'. now rewrite E0.
    + now rewrite IH.
Qed.

(** X5. Whatever metadata the caller passes, a posted message is stamped
    with the client's own agent name and instance id, under [agentType] and
    [instanceId]; every other key of the caller's metadata is sent as it
    is. *)
Theorem posted_metadata_is_stamped (fetch : Trace -> Request -> FetchResult)
        (config : CommonlyClientConfig) (t pod content : string)
        (md : list (string * value)) (tr : Trace) :
  runtimeTokenOf config = Some t ->
  exists rq,
    fst (postMessage fetch config pod content md tr) = app tr [Fetch rq]
    /\ assoc "agentType" (metadataOf rq) = Some (opt_str (agentName config))
    /\ assoc "instanceId" (metadataOf rq) = Some (opt_str (instanceId config))
    /\ (forall k, k <> "agentType" -> k <> "instanceId" ->
                  assoc k (metadataOf rq) = assoc k md).
Proof.
  intros Ht. unfold runtimeTokenOf in Ht.
  unfold postMessage, runtimeHeaders, resJson, doFetch, bind, ret, throw, push.
  rewrite Ht.
  assert (A : forall rq,
             metadataOf rq
             = obj_set "instanceId" (opt_str (instanceId config))
                 (obj_set "agentType" (opt_str (agentName config)) md) ->
             assoc "agentType" (metadataOf rq) = Some (opt_str (agentName config))
             /\ assoc "instanceId" (metadataOf rq)
                = Some (opt_str (instanceId config))
             /\ (forall k, k <> "agentType" -> k <> "instanceId" ->
                           assoc k (metadataOf rq) = assoc k md)).
  { intros rq ->. repeat split.
    - rewrite assoc_obj_set_other by discriminate. apply assoc_obj_set_same.
    - apply assoc_obj_set_same.
    - intros k H1 H2. now rewrite !assoc_obj_set_other. }
  on_answer; eexists; (split; [reflexivity | apply A; reflexivity]).
Qed.

Lemma posted_metadata_is_stamped_witness :
  runtimeTokenOf testClient = Some "test-token"
  /\ exists rq,
      fst (postMessage netOk testClient "pod-1" "hello"
             [("agentType", VStr "someone-else"); ("topic", VStr "news")] [])
      = [Fetch rq]
      /\ assoc "agentType" (metadataOf rq) = Some (VStr "openclaw")
      /\ assoc "topic" (metadataOf rq) = Some (VStr "news").
Proof.
  split; [reflexivity|].
  destruct (posted_metadata_is_stamped netOk testClient "test-token" "pod-1"
              "hello" [("agentType", VStr "someone-else"); ("topic", VStr "news")]
              [] eq_refl) as (rq & H1 & H2 & _ & H4).
  exists rq. split; [exact H1|]. split; [exact H2|].
  rewrite H4; [reflexivity | discriminate | discriminate].
Defined.

Section Answers.

Variable fetch : Trace -> Request -> FetchResult.
Variable validURL : string -> bool.
Variable config : CommonlyClientConfig.

(** X4. On a successful response, the list-reading methods return the
    field they look for, and the empty array when the document has no such
    field, when the field is falsy, or when the document is no object; a
    [null] document makes them raise a [TypeError], a body that is not JSON
    a [SyntaxError]. *)
Theorem list_reads_default_to_empty (t : string) (tr : Trace) (res : Response) :
  (forall s, validURL s = true) ->
  runtimeTokenOf config = Some t ->
  answers fetch tr res -> ok res = true ->
  reads_field "events" res (snd (fetchEvents fetch validURL config tr))
  /\ (forall pod limit,
         reads_field "messages" res
           (snd (getMessages fetch validURL config pod limit tr)))
  /\ (forall pod q,
         reads_field "results" res
           (snd (search fetch validURL config pod q tr)))
  /\ (forall pod hours,
         reads_field "summaries" res
           (snd (getSummaries fetch validURL config pod hours tr))).
Proof.
  intros urls Ht Hf Hok.
  destruct (ClientFacts.userHeaders_ready config t Ht) as [u Hh].
  unfold runtimeTokenOf in Ht.
  repeat split; intros;
    unfold fetchEvents, getMessages, search, getSummaries; rewrite ?Hh;
    unfold runtimeHeaders, newURL, resJson, prop_or, doFetch, bind, ret,
      throw, push;
    rewrite ?urls, ?Ht, Hf, Hok; cbn [negb];
    unfold reads_field, fieldOrEmpty;
    destruct (json res) as [[| | | | | |fs]|]; cbn [get_prop snd];
    eauto; try reflexivity;
    match goal with
    | |- context [assoc ?k fs] => destruct (assoc k fs)
    end; reflexivity.
Qed.

(** X6. The methods that build their address with [new URL] raise its
    [TypeError] first when the base URL is not a URL: before the credential
    is looked at, and before any network call. *)
Theorem invalid_base_url_raises_first (tr : Trace) :
  (forall path, validURL (baseUrl config ++ path) = false) ->
  fetchEvents fetch validURL config tr = (tr, Thrown (TypeError "Invalid URL"))
  /\ (forall pod task,
         getContext fetch validURL config pod task tr
         = (tr, Thrown (TypeError "Invalid URL")))
  /\ (forall pod limit,
         getMessages fetch validURL config pod limit tr
         = (tr, Thrown (TypeError "Invalid URL")))
  /\ (forall pod q,
         search fetch validURL config pod q tr
         = (tr, Thrown (TypeError "Invalid URL")))
  /\ (forall pod path,
         readMemory fetch validURL config pod path tr
         = (tr, Thrown (TypeError "Invalid URL")))
  /\ (forall pod hours,
         getSummaries fetch validURL config pod hours tr
         = (tr, Thrown (TypeError "Invalid URL"))).
Proof.
  intros H. repeat split; intros;
    unfold fetchEvents, getContext, getMessages, search, readMemory,
      getSummaries, newURL, bind, throw;
    rewrite H; reflexivity.
Qed.

End Answers.

Lemma list_reads_default_to_empty_witness :
  (forall s, anyURL s = true)
  /\ runtimeTokenOf testClient = Some "test-token"
  /\ answers netEmptyObject [] emptyObject
  /\ ok emptyObject = true
  /\ snd (getMessages netEmptyObject anyURL testClient "pod-1" 10 [])
     = Returned (VArr []).
Proof.
  split; [reflexivity|]. split; [reflexivity|].
  split; [intros rq; reflexivity|]. split; [reflexivity|].
  destruct (list_reads_default_to_empty netEmptyObject anyURL testClient
              "test-token" [] emptyObject (fun _ => eq_refl) eq_refl
              (fun _ => eq_refl) eq_refl) as (_ & H & _).
  exact (H "pod-1" 10%Z).
Defined.

Lemma invalid_base_url_raises_first_witness :
  (forall path : string,
      (fun _ : string => false) (baseUrl userOnlyClient ++ path) = false)
  /\ runtimeTokenOf userOnlyClient = None
  /\ getMessages netOk (fun _ => false) userOnlyClient "pod-1" 10 []
     = ([], Thrown (TypeError "Invalid URL")).
Proof.
  split; [reflexivity|]. split; [reflexivity|].
  destruct (invalid_base_url_raises_first netOk (fun _ => false)
              userOnlyClient [] (fun _ => eq_refl)) as (_ & _ & H & _).
  exact (H "pod-1" 10%Z).
Defined.

End ClientMoreFacts.

(** ** Runs of the push connection *)

Module ConnectionFacts.
Import WebSocket Connection Vocabulary Scenarios Cases WebSocketFacts.

Lemma setOf_step_app (l1 l2 acc : list string) :
  fold_left (fun acc x => if mem x acc then acc else app acc [x])
            (app l1 l2) acc
  = fold_left (fun acc x => if mem x acc then acc else app acc [x]) l2
      (fold_left (fun acc x => if mem x acc then acc else app acc [x]) l1 acc).
Proof. apply fold_left_app. Qed.

(** Inserting elements that are new and distinct appends them. *)
Lemma insert_new (l : list string) :
  forall acc, NoDup (app acc l) ->
    fold_left (fun acc x => if mem x acc then acc else app acc [x]) l acc
    = app acc l.
Proof.
  induction l as [|y l IH]; intros acc H; cbn [fold_left].
  - now rewrite app_nil_r.
  - assert (Hy : mem y acc = false).
    { apply mem_not_In. intros Hin. apply NoDup_remove_2 in H.
      apply H. apply in_or_app. now left. }
    rewrite Hy, IH.
    + now rewrite <- app_assoc.
    + now rewrite <- app_assoc.
Qed.

Lemma NoDup_app_disjoint (l tail : list string) :
  NoDup (app l tail) -> forall z, In z l -> In z tail -> False.
Proof.
  induction l as [|a l IH]; intros N z Hl Ht; [destruct Hl|].
  cbn in N. inversion N as [|? ? Ha Hn]; subst.
  destruct Hl as [->|Hl]; [|exact (IH Hn z Hl Ht)].
  apply Ha. apply in_or_app. now right.
Qed.

Lemma setOf_fixed (l : list string) : NoDup l -> setOf l = l.
Proof. intros H. apply (insert_new l []). exact H. Qed.

(** The operations that do not touch the tracked set. *)
Lemma tracked_unchanged (config : CommonlyWebSocketConfig)
      (origin : string -> option string) (st : State) (i : Input) :
  match i with
  | CallSubscribe _ | CallUnsubscribe _ => True
  | _ => subscribedPodIds (step config origin st i) = subscribedPodIds st
  end.
Proof.
  destruct i; cbn [step]; trivial.
  - unfold connect. destruct (socket_connected st); [reflexivity|].
    destruct (origin (baseUrl config)); reflexivity.
  - unfold disconnect. destruct (socket st); reflexivity.
  - unfold on_connect, socket_emit, emitStatus.
    destruct (socket st) eqn:E; cbn; rewrite ?E;
      destruct (subscribedPodIds st) eqn:P; cbn; rewrite ?E; cbn;
      solve [reflexivity | exact P | symmetry; exact P].
  - unfold on_disconnect, emitStatus. destruct (socket st); reflexivity.
  - unfold on_ping, socket_emit. destruct (socket st); reflexivity.
Qed.

Lemma step_NoDup (config : CommonlyWebSocketConfig)
      (origin : string -> option string) (st : State) (i : Input) :
  NoDup (subscribedPodIds st) ->
  NoDup (subscribedPodIds (step config origin st i)).
Proof.
  intros H. pose proof (tracked_unchanged config origin st i) as U.
  destruct i; try (rewrite U; exact H); cbn [step];
    apply (tracked_NoDup st ids H).
Qed.

Lemma step_tracks_subscribed (config : CommonlyWebSocketConfig)
      (origin : string -> option string) (st : State) (i : Input) (x : string) :
  In x (subscribedPodIds (step config origin st i)) ->
  In x (subscribedPodIds st)
  \/ exists ids, i = CallSubscribe ids /\ In x ids.
Proof.
  pose proof (tracked_unchanged config origin st i) as U.
  destruct i; try (rewrite U; auto); cbn [step].
  - unfold subscribe. destruct (socket st); [|auto].
    destruct ids as [|y ids]; [auto|]. cbn [subscribedPodIds with_out with_pods].
    rewrite setOf_In, in_app_iff. intros [H|H]; [auto|]. right. eauto.
  - unfold unsubscribe. destruct (socket st); [|auto].
    destruct ids as [|y ids]; [auto|]. cbn [subscribedPodIds with_out with_pods].
    rewrite filter_In. tauto.
Qed.

(** X14. Whatever is called on a connection and whatever its socket
    reports, in any order, the tracked set never holds an identifier twice,
    and holds only identifiers that some [subscribe] call was given. *)
Theorem tracked_set_is_a_set_of_subscribed (config : CommonlyWebSocketConfig)
        (origin : string -> option string) (inputs : list Input) :
  let st := run config origin inputs create in
  NoDup (subscribedPodIds st)
  /\ forall x, In x (subscribedPodIds st) ->
               exists ids, In (CallSubscribe ids) inputs /\ In x ids.
Proof.
  cbv zeta. unfold run.
  assert (G : forall st0,
             NoDup (subscribedPodIds st0) ->
             NoDup (subscribedPodIds (fold_left (step config origin) inputs st0))
             /\ forall x,
                 In x (subscribedPodIds
                         (fold_left (step config origin) inputs st0)) ->
                 In x (subscribedPodIds st0)
                 \/ exists ids, In (CallSubscribe ids) inputs /\ In x ids).
  { induction inputs as [|i rest IH]; intros st0 H0; cbn [fold_left].
    - split; [exact H0 | auto].
    - destruct (IH (step config origin st0 i) (step_NoDup _ _ _ _ H0))
        as [N S].
      split; [exact N|]. intros x Hx.
      destruct (S x Hx) as [H|(ids & Hi & Hin)].
      + destruct (step_tracks_subscribed _ _ _ _ _ H) as [H1|(ids & -> & Hin)];
          [auto|]. right. exists ids. split; [now left | exact Hin].
      + right. exists ids. split; [now right | exact Hin]. }
  destruct (G create (NoDup_nil _)) as [N S].
  split; [exact N|]. intros x Hx. destruct (S x Hx) as [[]|H]. exact H.
Qed.

(** X15. Subscribing to pods that are not tracked and unsubscribing from
    them again leaves the tracked set as it was, in the same order. *)
Theorem subscribe_then_unsubscribe_restores (st : State) (ids : list string) :
  socket st <> None ->
  NoDup (subscribedPodIds st) ->
  (forall x, In x ids -> ~ In x (subscribedPodIds st)) ->
  subscribedPodIds (unsubscribe ids (subscribe ids st)) = subscribedPodIds st.
Proof.
  intros Hs Hn Hd. destruct (socket st) as [s|] eqn:E; [clear Hs|congruence].
  destruct ids as [|y ids].
  - unfold subscribe. rewrite E. unfold unsubscribe. rewrite E. reflexivity.
  - destruct (subscribe_tracks st s (y :: ids) E) as (T1 & _ & S1);
      [discriminate|]. rewrite E in S1.
    destruct (unsubscribe_tracks _ s (y :: ids) S1) as (T2 & _ & _);
      [discriminate|].
    rewrite T2, T1. unfold setOf. rewrite setOf_step_app.
    fold (setOf (subscribedPodIds st)). rewrite (setOf_fixed _ Hn).
    destruct (insert_all (y :: ids) (subscribedPodIds st) Hn)
      as (N & I & tail & R).
    cbv zeta in N, I, R. rewrite R in *. rewrite filter_app.
    assert (F1 : filter (fun id => negb (mem id (y :: ids)))
                        (subscribedPodIds st) = subscribedPodIds st).
    { apply forallb_filter_id. apply forallb_forall. intros x Hx.
      apply negb_true_iff, mem_not_In. intros Hin. exact (Hd x Hin Hx). }
    assert (F2 : forall z, In z tail -> In z (y :: ids)).
    { intros z Hz.
      assert (Hin : In z (subscribedPodIds st) \/ In z (y :: ids)).
      { apply (proj1 (I z)). apply in_or_app. now right. }
      destruct Hin as [Hin|Hin]; [|exact Hin].
      destruct (NoDup_app_disjoint _ _ N z Hin Hz). }
    assert (F3 : filter (fun id => negb (mem id (y :: ids))) tail = []).
    { clear - F2. induction tail as [|z tail IHt]; [reflexivity|].
      cbn [filter]. rewrite (proj2 (mem_In z (y :: ids))) by (apply F2; now left).
      cbn [negb]. apply IHt. intros w Hw. apply F2. now right. }
    now rewrite F1, F3, app_nil_r.
Qed.

Lemma subscribe_then_unsubscribe_restores_witness :
  subscribedPodIds (unsubscribe ["pod-3"] (subscribe ["pod-3"] tracking))
  = ["pod-1"; "pod-2"].
Proof.
  apply (subscribe_then_unsubscribe_restores tracking ["pod-3"]).
  - discriminate.
  - vm_compute. repeat constructor; cbn; intuition discriminate.
  - intros x [<-|[]]. vm_compute. intuition discriminate.
Defined.

(** X16. [disconnect()] forgets the socket but not the tracked set: the
    object reports itself as not connected; with a valid base URL a
    following [connect()] opens a socket again, and the [connect] event of
    that socket sends the whole tracked set, when it is not empty, in one
    subscribe frame. *)
Theorem subscriptions_survive_reconnect (config : CommonlyWebSocketConfig)
        (origin : string -> option string) (st : State) (o : string) :
  origin (baseUrl config) = Some o ->
  subscribedPodIds st <> [] ->
  isConnected (disconnect st) = false
  /\ exists st2, connect config origin (disconnect st) = inr st2
       /\ subscribedPodIds st2 = subscribedPodIds st
       /\ emitted st2 (on_connect st2) = [Subscribe (subscribedPodIds st)].
Proof.
  intros Ho Hp.
  assert (D : socket (disconnect st) = None
              /\ subscribedPodIds (disconnect st) = subscribedPodIds st).
  { unfold disconnect. destruct (socket st) eqn:E; [split; reflexivity|].
    split; [exact E | reflexivity]. }
  destruct D as [Ds Dp].
  assert (C : isConnected (disconnect st) = false).
  { unfold isConnected, socket_connected. now rewrite Ds. }
  split; [exact C|].
  unfold connect. unfold isConnected in C. rewrite C, Ho.
  eexists. split; [reflexivity|].
  split; [exact Dp|].
  match goal with
  | |- emitted ?s _ = _ =>
      destruct (on_connect_replays s {| connected := false |} eq_refl)
        as (R & _ & _)
  end.
  rewrite R. cbn [subscribedPodIds with_out with_socket]. rewrite Dp.
  destruct (subscribedPodIds st); [congruence | reflexivity].
Qed.

Lemma subscriptions_survive_reconnect_witness :
  isConnected (disconnect tracking) = false
  /\ exists st2,
       connect wsConfig (fun s => Some s) (disconnect tracking) = inr st2
       /\ subscribedPodIds st2 = subscribedPodIds tracking
       /\ emitted st2 (on_connect st2)
          = [Subscribe (subscribedPodIds tracking)].
Proof.
  apply (subscriptions_survive_reconnect wsConfig (fun s => Some s) tracking
           "http://localhost:5000").
  - reflexivity.
  - discriminate.
Defined.

(** X17. Starting an account on a connection object that has no socket and
    tracks nothing: with a valid base URL the start succeeds; it sends one
    subscribe frame carrying the configured pods as given when there are
    any, and no frame otherwise; afterwards the object is connected and
    tracks the configured pods without repetition. *)
Theorem startAccount_subscribes_once (config : CommonlyWebSocketConfig)
        (origin : string -> option string) (pods : list string)
        (st0 : State) (o : string) :
  socket st0 = None ->
  subscribedPodIds st0 = [] ->
  origin (baseUrl config) = Some o ->
  exists st, startAccount config origin pods st0 = inr st
    /\ emitted st0 st = match pods with [] => [] | _ => [Subscribe pods] end
    /\ subscribedPodIds st = setOf pods
    /\ isConnected st = true.
Proof.
  intros Hs Hp Ho. unfold startAccount, connect, socket_connected.
  rewrite Hs, Ho. eexists. split; [reflexivity|].
  set (st1 := with_out (with_socket st0 (Some {| connected := false |})) _).
  assert (S1 : socket st1 = Some {| connected := false |}) by reflexivity.
  assert (O1 : out (on_connect st1)
               = app (out st0)
                   (app [Open (o ++ "/agents") (runtimeToken config)]
                        (map (fun h => Notify h {| st_connected := true;
                                                   st_reason := None;
                                                   st_error := None |})
                             (statusHandlers st0)))).
  { unfold on_connect. rewrite S1. cbn. rewrite Hp. cbn.
    now rewrite <- app_assoc. }
  assert (S2 : socket (on_connect st1) = Some {| connected := true |}).
  { unfold on_connect. rewrite S1. cbn. rewrite Hp. reflexivity. }
  assert (P2 : subscribedPodIds (on_connect st1) = []).
  { destruct (on_connect_replays st1 _ S1) as (_ & P & _).
    rewrite P. exact Hp. }
  destruct pods as [|p pods]; cbn [length Nat.ltb Nat.leb].
  - split; [|split].
    + rewrite (emitted_app _ _ _ O1). cbn [app frames flat_map].
      apply frames_notify.
    + rewrite P2. reflexivity.
    + unfold isConnected, socket_connected. now rewrite S2.
  - destruct (subscribe_tracks (on_connect st1) _ (p :: pods) S2)
      as (T & O & S3); [discriminate|].
    split; [|split].
    + erewrite emitted_app; [|rewrite O, O1, <- app_assoc; reflexivity].
      unfold frames. rewrite !flat_map_app. cbn [flat_map app].
      fold (frames (map (fun h => Notify h {| st_connected := true;
                                               st_reason := None;
                                               st_error := None |})
                        (statusHandlers st0))).
      now rewrite frames_notify.
    + rewrite T, P2. reflexivity.
    + unfold isConnected, socket_connected. now rewrite S3, S2.
Qed.

Lemma startAccount_subscribes_once_witness :
  exists st,
    startAccount wsConfig (fun s => Some s) ["pod-1"; "pod-1"] registered
    = inr st
    /\ emitted registered st = [Subscribe ["pod-1"; "pod-1"]]
    /\ subscribedPodIds st = setOf ["pod-1"; "pod-1"]
    /\ isConnected st = true.
Proof.
  apply (startAccount_subscribes_once wsConfig (fun s => Some s)
           ["pod-1"; "pod-1"] registered "http://localhost:5000");
    reflexivity.
Defined.

End ConnectionFacts.

(** ** The channel object ([CommonlyChannel]) *)

Module ChannelFacts.
Import Js Events Http Eff Vocabulary Observe Scenarios Cases StringFacts
  Tactics.

Lemma or_else_nonempty (o : option string) (d : string) :
  d <> EmptyString -> or_else o d <> EmptyString.
Proof.
  intros Hd. unfold or_else. destruct o as [s|]; [|exact Hd].
  destruct (truthy s) eqn:E; [now apply truthy_true | exact Hd].
Qed.

(** X18. Every message [transformEvent] produces keeps the identifier and
    the pod of its event, names a sender that is never empty, is stamped
    with the current time, and comes from one of the three event types the
    method knows, without anything logged; no message has the summary
    type. *)
Theorem transformEvent_message_shape (now : Z) (event : Legacy.RawEvent)
        (m : Legacy.CommonlyInboundMessage) :
  snd (Legacy.transformEvent now event) = Some m ->
  fst (Legacy.transformEvent now event) = []
  /\ Legacy.id m = Legacy.r_id event
  /\ Legacy.channelId m = Legacy.r_podId event
  /\ Legacy.senderId m <> EmptyString
  /\ Legacy.senderName m <> EmptyString
  /\ Legacy.timestamp m = now
  /\ match Legacy.mtype m with
     | Legacy.message => Legacy.r_type event = "chat.mention"
     | Legacy.thread_mention => Legacy.r_type event = "thread.mention"
     | Legacy.ensemble_turn =>
         Legacy.r_type event = "ensemble.turn"
         /\ Legacy.mcontent m
            = or_else (option_map topic (context (Legacy.r_payload event)))
                      EmptyString
     | Legacy.summary_message => False
     end.
Proof.
  unfold Legacy.transformEvent.
  destruct (Legacy.r_type event =? "chat.mention") eqn:E1;
    [|destruct (Legacy.r_type event =? "thread.mention") eqn:E2;
      [|destruct (Legacy.r_type event =? "ensemble.turn") eqn:E3]];
    cbn [fst snd]; intros H; try discriminate H;
    injection H as <-; cbn;
    repeat split;
    try (apply or_else_nonempty; discriminate);
    now apply String.eqb_eq.
Qed.

Lemma transformEvent_message_shape_witness :
  exists m,
    snd (Legacy.transformEvent 1700000000000 chatRaw) = Some m
    /\ Legacy.senderId m <> EmptyString
    /\ Legacy.timestamp m = 1700000000000%Z.
Proof.
  eexists. split; [reflexivity|].
  destruct (transformEvent_message_shape 1700000000000 chatRaw _ eq_refl)
    as (_ & _ & _ & H & _ & T & _).
  split; [exact H | exact T].
Defined.

Section WithNetwork.

Variable fetch : Trace -> Request -> FetchResult.
Variable validURL : string -> bool.
Variable config : Channel.CommonlyChannelConfig.

Abbreviation client := (Channel.clientConfig config).

(** X19. With a runtime token, [send] issues exactly one request,
    whatever the network answers, and it carries the content as given.  A thread id that is a string and
    not blank sends it to the comments of that thread, trimmed, and drops
    the metadata; anything else sends it to the messages of the target pod,
    stamped with the agent name of the configuration, [openclaw] when it
    has none. *)
Theorem send_routes (m : Channel.CommonlyOutboundMessage) (t : string)
        (tr : Trace) :
  runtimeTokenOf client = Some t ->
  exists rq,
    fst (Channel.send fetch config m tr) = app tr [Fetch rq]
    /\ contentsOf [Fetch rq] = [Channel.content m]
    /\ if truthy (Channel.threadIdOf m)
       then rq_url rq = commentUrl client (Channel.threadIdOf m)
            /\ metadataOf rq = []
       else rq_url rq = messageUrl client (Channel.targetId m)
            /\ assoc "agentType" (metadataOf rq)
               = Some (VStr (Accounts.orDefault (Channel.agentName config)
                                                "openclaw")).
Proof.
  intros Ht. unfold runtimeTokenOf in Ht. unfold Channel.send.
  destruct (truthy (Channel.threadIdOf m)).
  - unfold Client.postThreadComment, Client.runtimeHeaders, Client.resJson,
      Client.doFetch, bind, ret, throw, push.
    rewrite Ht. on_answer; eexists; repeat split.
  - unfold Client.postMessage, Client.runtimeHeaders, Client.resJson,
      Client.doFetch, bind, ret, throw, push.
    rewrite Ht.
    on_answer; eexists; (split; [reflexivity|]); (split; [reflexivity|]);
      (split; [reflexivity|]);
      unfold metadataOf; cbn;
      (rewrite ClientMoreFacts.assoc_obj_set_other by discriminate);
      apply ClientMoreFacts.assoc_obj_set_same.
Qed.

(** X20. With a valid base URL and a runtime token, [getContext] of the
    channel survives a failed response and any JSON document: on a response
    that is not [ok] it returns the pod id with every other field undefined,
    and on a successful one it returns the pod id and the memory of the
    document, undefined where the document has none, even when the document
    is [null]. *)
Theorem getContext_never_raises_on_an_answer (pod : string)
        (task : option string) (t : string) (tr : Trace) (res : Response) :
  (forall s, validURL s = true) ->
  runtimeTokenOf client = Some t ->
  answers fetch tr res ->
  (ok res = false ->
   snd (Channel.getContext fetch validURL config pod task tr)
   = Returned {| Channel.podId := pod; Channel.podName := VUndefined;
                 Channel.memory := VUndefined; Channel.skills := VUndefined;
                 Channel.summaries := VUndefined;
                 Channel.assets := VUndefined |})
  /\ (forall doc, ok res = true -> json res = Some doc ->
        exists ctx,
          snd (Channel.getContext fetch validURL config pod task tr)
          = Returned ctx
          /\ Channel.podId ctx = pod
          /\ Channel.memory ctx = Channel.optProp doc "memory"
          /\ (doc = VNull -> Channel.memory ctx = VUndefined
                             /\ Channel.podName ctx = VUndefined)).
Proof.
  intros Hu Ht Ha. unfold runtimeTokenOf in Ht.
  unfold Channel.getContext, Client.getContext, Client.newURL,
    Client.runtimeHeaders, Client.resJson, Client.warn, Client.doFetch,
    emit, bind, ret, throw, push.
  rewrite Hu, Ht.
  split.
  - intros E. rewrite Ha, E. reflexivity.
  - intros doc E J. rewrite Ha, E, J. cbn [negb snd]. eexists.
    split; [reflexivity|]. split; [reflexivity|]. split; [reflexivity|].
    intros ->. split; reflexivity.
Qed.

End WithNetwork.

Lemma send_routes_witness :
  exists rq,
    fst (Channel.send netOk channelConfig threadReply []) = [Fetch rq]
    /\ rq_url rq
       = "http://localhost:5000/api/agents/runtime/threads/post-9/comments".
Proof.
  destruct (send_routes netOk channelConfig threadReply "cm_agent_test" []
              eq_refl) as (rq & H1 & _ & H2).
  exists rq. split; [exact H1|]. exact (proj1 H2).
Defined.

Lemma getContext_never_raises_on_an_answer_witness :
  snd (Channel.getContext netBadGateway anyURL channelConfig "pod-1" None [])
  = Returned {| Channel.podId := "pod-1"; Channel.podName := VUndefined;
                Channel.memory := VUndefined; Channel.skills := VUndefined;
                Channel.summaries := VUndefined;
                Channel.assets := VUndefined |}.
Proof.
  apply (getContext_never_raises_on_an_answer netBadGateway anyURL
           channelConfig "pod-1" None "cm_agent_test" [] badGateway
           (fun _ => eq_refl) eq_refl (fun _ => eq_refl)).
  reflexivity.
Defined.

End ChannelFacts.

(** ** What one run of the handler sends *)

Module DeliveryFacts.
Import Js Events Format Http Inbound Eff Handler Vocabulary Observe Scenarios
  Cases StringFacts TextFacts Tactics HandlerFacts.
#[local] Open Scope eff_scope.

Lemma not_report_url (x y : string) (c : ascii) :
  Text.lastChar y = Some c -> c <> "e"%char ->
  endsWith (x ++ y) "/ensemble/response" = false.
Proof.
  intros Hy Hc. apply (endsWith_other_ending x y _ c "e"%char);
    [exact Hy | reflexivity | exact Hc].
Qed.

Lemma post_url_no_report (base pod : string) h b :
  no_report (Fetch {| rq_method := POST;
                      rq_url := base ++ "/api/agents/runtime/pods/" ++ pod
                                ++ "/messages";
                      rq_query := []; rq_headers := h; rq_body := b |}).
Proof.
  unfold no_report. cbn [is_report rq_method rq_url].
  rewrite <- !append_assoc.
  apply (not_report_url _ _ "s"%char); [reflexivity | discriminate].
Qed.

Lemma comment_url_no_report (base thread : string) h b :
  no_report (Fetch {| rq_method := POST;
                      rq_url := base ++ "/api/agents/runtime/threads/"
                                ++ thread ++ "/comments";
                      rq_query := []; rq_headers := h; rq_body := b |}).
Proof.
  unfold no_report. cbn [is_report rq_method rq_url].
  rewrite <- !append_assoc.
  apply (not_report_url _ _ "s"%char); [reflexivity | discriminate].
Qed.

Lemma ack_url_no_report (base i : string) h b :
  no_report (Fetch {| rq_method := POST;
                      rq_url := base ++ "/api/agents/runtime/events/" ++ i
                                ++ "/ack";
                      rq_query := []; rq_headers := h; rq_body := b |}).
Proof.
  unfold no_report. cbn [is_report rq_method rq_url].
  rewrite <- !append_assoc.
  apply (not_report_url _ _ "k"%char); [reflexivity | discriminate].
Qed.

Lemma reports_app (l1 l2 : Trace) :
  reports (app l1 l2) = reports l1 + reports l2.
Proof. unfold reports. now rewrite filter_app, length_app. Qed.

Lemma reports_none (l : Trace) : Forall no_report l -> reports l = 0.
Proof.
  induction 1 as [|a l Ha _ IH]; [reflexivity|].
  unfold reports in *. cbn [filter]. unfold no_report in Ha.
  now rewrite Ha.
Qed.

(** *** Spending the one report *)

Lemma spends_ret {A} (a : A) : spends (ret a).
Proof. intros s. exists []. cbn. rewrite app_nil_r. split; [reflexivity | lia]. Qed.

Lemma spends_bind {A B} (m : M HState A) (k : A -> M HState B) :
  spends m -> (forall a, spends (k a)) -> spends (bind m k).
Proof.
  intros Hm Hk s. unfold bind.
  destruct (Hm s) as (e1 & H1 & L1).
  destruct (m s) as [s1 [a|e]]; cbn [fst] in *.
  - destruct (Hk a s1) as (e2 & H2 & L2).
    exists (app e1 e2). rewrite H2, H1, app_assoc, reports_app.
    split; [reflexivity | lia].
  - now exists e1.
Qed.

Lemma spends_catch {A} (m : M HState A) (h : Js.error -> M HState A) :
  spends m -> (forall e, spends (h e)) -> spends (catch m h).
Proof.
  intros Hm Hh s. unfold catch.
  destruct (Hm s) as (e1 & H1 & L1).
  destruct (m s) as [s1 [a|e]]; cbn [fst] in *.
  - now exists e1.
  - destruct (Hh e s1) as (e2 & H2 & L2).
    exists (app e1 e2). rewrite H2, H1, app_assoc, reports_app.
    split; [reflexivity | lia].
Qed.

Lemma spends_read {A} (k : bool -> M HState A) :
  (forall s, exists ext,
      trace (fst (k (ensembleResponseSent s) s)) = app (trace s) ext
      /\ reports ext + budget (fst (k (ensembleResponseSent s) s))
         <= budget s) ->
  spends (bind getSent k).
Proof. intros H s. exact (H s). Qed.

Lemma spends_lift {A} (m : M Trace A) : addsT no_report m -> spends (lift m).
Proof.
  intros Hm s. unfold lift. destruct (Hm (trace s)) as (e & H & F).
  destruct (m (trace s)) as [tr r]. cbn [fst trace] in *.
  exists e. split; [exact H|]. rewrite (reports_none _ F).
  unfold budget. cbn. lia.
Qed.

(** *** The summary message *)

Lemma summary_lines (sm : Summary) :
  exists rest,
    buildSummaryMessage (Some sm)
    = join LF (trim_or (sm_title sm) "Commonly Update" :: rest).
Proof.
  unfold buildSummaryMessage. cbv zeta.
  destruct (nonempty (option_map trim (sm_channelName sm)));
    destruct (sm_messageCount sm) as [n|];
    try destruct (n =? 0)%Z;
    destruct (nonempty (sm_timeRange sm));
    destruct (nonempty (sm_content sm));
    unfold push; cbn [app]; eexists; reflexivity.
Qed.

Lemma title_nonempty (sm : Summary) :
  trim_or (sm_title sm) "Commonly Update" <> EmptyString.
Proof. apply ChannelFacts.or_else_nonempty. discriminate. Qed.

Lemma summary_message_nonempty (sm : Summary) :
  truthy (buildSummaryMessage (Some sm)) = true.
Proof.
  destruct (summary_lines sm) as [rest ->].
  destruct (join_cons LF (trim_or (sm_title sm) "Commonly Update") rest)
    as [t ->].
  pose proof (title_nonempty sm) as H.
  destruct (trim_or (sm_title sm) "Commonly Update"); [congruence|reflexivity].
Qed.

(** X21. The summary message is empty exactly when there is no summary;
    otherwise it starts with the trimmed title, or with [Commonly Update]
    when the title is missing or blank. *)
Theorem summary_message_starts_with_title (summary : option Summary) :
  (buildSummaryMessage summary = EmptyString <-> summary = None)
  /\ forall sm, summary = Some sm ->
       exists rest,
         buildSummaryMessage summary
         = trim_or (sm_title sm) "Commonly Update" ++ rest
         /\ trim_or (sm_title sm) "Commonly Update" <> EmptyString.
Proof.
  split.
  - destruct summary as [sm|]; [|split; reflexivity].
    split; [|discriminate]. intros H.
    pose proof (summary_message_nonempty sm) as T.
    rewrite H in T. discriminate T.
  - intros sm ->. destruct (summary_lines sm) as [rest ->].
    destruct (join_cons LF (trim_or (sm_title sm) "Commonly Update") rest)
      as [t ->].
    exists t. split; [reflexivity | apply title_nonempty].
Qed.

Section WithHost.

Variable fetch : Trace -> Request -> FetchResult.
Variable account : ResolvedCommonlyAccount.
Variable DEFAULT_ACCOUNT_ID : string.
Variable resolveAgentRoute : option string -> string -> Route.
Variable finalizeInboundContext : InboundContext -> InboundContext.
Variable resolveStorePath : string -> string.
Variable configuredPrefix : string -> option string.
Variable parseInlineDirectives : string -> string.
Variable replyBlocks :
  Trace -> InboundContext -> DispatcherOptions -> list ReplyBlock.

Abbreviation deliver' :=
  (deliver fetch account DEFAULT_ACCOUNT_ID parseInlineDirectives).
Abbreviation deliverBlocks' :=
  (deliverBlocks fetch account DEFAULT_ACCOUNT_ID parseInlineDirectives).
Abbreviation ackIfId' := (ackIfId fetch account).
Abbreviation onEvent' :=
  (onEvent fetch false account DEFAULT_ACCOUNT_ID resolveAgentRoute
           finalizeInboundContext resolveStorePath configuredPrefix
           parseInlineDirectives replyBlocks).
Abbreviation run' :=
  (run fetch false account DEFAULT_ACCOUNT_ID resolveAgentRoute
       finalizeInboundContext resolveStorePath configuredPrefix
       parseInlineDirectives replyBlocks).
Abbreviation key := (connectionKey account DEFAULT_ACCOUNT_ID).
Abbreviation entered' := (entered account DEFAULT_ACCOUNT_ID).
Abbreviation routeOf' := (routeOf account resolveAgentRoute).
Abbreviation contextOf' :=
  (contextOf account resolveAgentRoute finalizeInboundContext).
Abbreviation optionsOf' :=
  (optionsOf account resolveAgentRoute configuredPrefix).
Abbreviation c := (client account).

(** The calls of the client, by where they go. *)
Lemma postMessage_to (P : Action -> Prop) pod txt md :
  (forall h b, P (Fetch {| rq_method := POST; rq_url := messageUrl c pod;
                           rq_query := []; rq_headers := h; rq_body := b |})) ->
  addsT P (postMessage fetch account pod txt md).
Proof.
  intros HP tr. unfold postMessage, Client.postMessage. client_steps;
    try (exists []; rewrite app_nil_r; split; [reflexivity | constructor]);
    eexists; (split; [reflexivity|]);
    repeat constructor; apply HP.
Qed.

Lemma postThreadComment_to (P : Action -> Prop) thread txt :
  (forall h b, P (Fetch {| rq_method := POST; rq_url := commentUrl c thread;
                           rq_query := []; rq_headers := h; rq_body := b |})) ->
  addsT P (postThreadComment fetch account thread txt).
Proof.
  intros HP tr. unfold postThreadComment, Client.postThreadComment.
  client_steps;
    try (exists []; rewrite app_nil_r; split; [reflexivity | constructor]);
    eexists; (split; [reflexivity|]);
    repeat constructor; apply HP.
Qed.

Lemma ackIfId_to (P : Action -> Prop) event :
  (forall i h b, P (Fetch {| rq_method := POST; rq_url := ackUrl c i;
                             rq_query := []; rq_headers := h;
                             rq_body := b |})) ->
  adds P (ackIfId' event).
Proof.
  intros HP. unfold ackIfId. destruct (nonempty (_id event)) as [i|];
    [|apply adds_ret].
  apply adds_lift. intros tr.
  unfold ackEvent, Client.ackEvent. client_steps;
    try (exists []; rewrite app_nil_r; split; [reflexivity | constructor]);
    eexists; (split; [reflexivity|]); repeat constructor; apply HP.
Qed.

(** The dispatcher adds what its deliveries add, and its error log. *)
Lemma deliverBlocks_adds (P : Action -> Prop) event pod threadId blocks :
  (forall payload, adds P (deliver' event pod threadId payload)) ->
  (forall msg, P (LogError msg)) ->
  adds P (deliverBlocks' event pod threadId blocks).
Proof.
  intros Hd Hl. induction blocks as [|b rest IH]; cbn [deliverBlocks].
  - apply adds_ret.
  - apply adds_bind; [|intros; exact IH].
    apply adds_catch; [apply Hd|].
    intros e. apply adds_lift, addsT_emit, Hl.
Qed.

(** One run adds what its parts add. *)
Lemma onEvent_adds (P : Action -> Prop) event :
  (forall a, is_fetch a = false -> P a) ->
  ((type event =? "summary.request") = true ->
   forall pod txt, addsT P (postMessage fetch account pod txt [])) ->
  ((type event =? "summary.request") = false ->
   forall pod payload, adds P (deliver' event pod (threadIdOf event) payload)) ->
  adds P (ackIfId' event) ->
  adds P (onEvent' event).
Proof.
  intros Hn Hs Hd Ha. unfold onEvent.
  destruct (nonempty (podId event)) as [pod|]; [|apply adds_ret].
  apply adds_bind; [apply adds_lift, addsT_emit, Hn; reflexivity|]. intros _.
  destruct (type event =? "summary.request") eqn:Ht.
  - apply adds_bind; [|intros; exact Ha].
    destruct (truthy _); [|apply adds_ret].
    apply adds_bind; [|intros; apply adds_ret].
    apply adds_lift, Hs. reflexivity.
  - destruct (negb (truthy (rawContentOf event))); [exact Ha|].
    apply adds_bind;
      [apply adds_lift, addsT_emit, Hn; reflexivity|]. intros _.
    apply adds_bind; [intros s; exists []; cbn; now rewrite app_nil_r|].
    intros _.
    apply adds_bind; [|intros; exact Ha].
    unfold dispatchReplyWithBufferedBlockDispatcher.
    apply adds_bind; [apply adds_lift, addsT_emit, Hn; reflexivity|]. intros _.
    apply adds_bind; [intros s; exists []; cbn; now rewrite app_nil_r|].
    intros tr.
    apply adds_bind; [|intros; apply adds_lift, addsT_emit, Hn; reflexivity].
    apply deliverBlocks_adds; [apply Hd; reflexivity|].
    intros msg. apply Hn. reflexivity.
Qed.

Lemma run_adds (P : Action -> Prop) event :
  adds P (onEvent' event) -> Forall P (fst (run' event)).
Proof.
  intros H. rewrite run_fst. destruct (H initial) as (ext & -> & F).
  exact F.
Qed.

(** *** Replies to a thread *)

Lemma deliver_to_thread event pod threadId tid payload :
  nonempty threadId = Some tid ->
  adds (reply_or_ack (commentUrl c tid)) (deliver' event pod threadId payload).
Proof.
  intros Ht. unfold deliver. rewrite Ht.
  destruct (negb (truthy _)); [apply adds_ret|].
  apply adds_bind; [|intros; apply adds_lift, addsT_emit; exact I].
  apply adds_bind; [|intros; apply adds_ret].
  apply adds_lift, postThreadComment_to. intros h b. left. reflexivity.
Qed.

(** X22. Every request of a run for a thread mention whose post has an
    id is a comment on that post or the acknowledgment: the replies to a
    thread mention never go to the pod's messages, and are never reported
    as an ensemble response. *)
Theorem thread_replies_stay_in_thread event th :
  (type event =? "thread.mention") = true ->
  pfield thread event = Some th ->
  postId th <> EmptyString ->
  Forall (reply_or_ack (commentUrl c (postId th))) (fst (run' event)).
Proof.
  intros Ht Hth Hid. apply run_adds.
  assert (Hs : (type event =? "summary.request") = false).
  { apply String.eqb_eq in Ht. now rewrite Ht. }
  assert (Hn : nonempty (threadIdOf event) = Some (postId th)).
  { unfold threadIdOf. rewrite Ht, Hth. cbn [option_map].
    apply nonempty_Some. split; [reflexivity | exact Hid]. }
  apply onEvent_adds.
  - intros [] H; try exact I. discriminate H.
  - congruence.
  - intros _ pod payload. now apply deliver_to_thread.
  - apply ackIfId_to. intros i h b. right. apply ack_url_is_ack.
Qed.

(** *** Reports to the ensemble *)

Lemma no_report_other (a : Action) : is_fetch a = false -> no_report a.
Proof. destruct a; intros H; try reflexivity. discriminate H. Qed.

Lemma postMessage_no_report pod txt md :
  addsT no_report (postMessage fetch account pod txt md).
Proof. apply postMessage_to. intros. apply post_url_no_report. Qed.

Lemma postThreadComment_no_report thread txt :
  addsT no_report (postThreadComment fetch account thread txt).
Proof. apply postThreadComment_to. intros. apply comment_url_no_report. Qed.

Lemma ackIfId_no_report event : adds no_report (ackIfId' event).
Proof. apply ackIfId_to. intros. apply ack_url_no_report. Qed.

Lemma setStatus_no_report p :
  adds no_report (setStatus account DEFAULT_ACCOUNT_ID p).
Proof. apply adds_lift, addsT_emit. reflexivity. Qed.

(** Outside an ensemble turn with an ensemble id, a delivery reports
    nothing. *)
Lemma deliver_no_report event pod threadId payload :
  (type event =? "ensemble.turn") = false
  \/ nonempty (pfield ensembleId event) = None ->
  adds no_report (deliver' event pod threadId payload).
Proof.
  intros H. unfold deliver.
  destruct (negb (truthy _)); [apply adds_ret|].
  apply adds_bind; [|intros; apply setStatus_no_report].
  destruct (nonempty threadId) as [tid|].
  - apply adds_bind; [|intros; apply adds_ret].
    apply adds_lift, postThreadComment_no_report.
  - apply adds_bind; [apply adds_lift, postMessage_no_report|].
    intros posted.
    apply adds_bind; [intros s; exists []; cbn; now rewrite app_nil_r|].
    intros sent.
    destruct H as [H|H]; rewrite H; cbn [andb];
      [apply adds_ret | destruct (_ && _); apply adds_ret].
Qed.

(** The report itself is one request at most. *)
Lemma report_at_most_one pod eid txt mid (tr : Trace) :
  exists ext,
    fst (reportEnsembleResponse fetch account pod eid txt mid tr) = app tr ext
    /\ reports ext <= 1.
Proof.
  unfold reportEnsembleResponse, Client.reportEnsembleResponse.
  client_steps;
    try (exists []; rewrite app_nil_r; split; [reflexivity | cbn; lia]);
    rewrite <- ?app_assoc; cbn [app];
    eexists; (split; [reflexivity|]);
    unfold reports; cbn [filter is_report rq_method rq_url];
    repeat match goal with
           | |- context [endsWith ?a ?b] => destruct (endsWith a b)
           end; cbn; lia.
Qed.

Lemma deliver_spends event pod threadId payload :
  spends (deliver' event pod threadId payload).
Proof.
  unfold deliver.
  destruct (negb (truthy _)); [apply spends_ret|].
  apply spends_bind;
    [|intros; apply spends_lift, addsT_emit; reflexivity].
  destruct (nonempty threadId) as [tid|].
  - apply spends_bind; [|intros; apply spends_ret].
    apply spends_lift, postThreadComment_no_report.
  - apply spends_bind; [apply spends_lift, postMessage_no_report|].
    intros posted. apply spends_read. intros s.
    destruct ((type event =? "ensemble.turn")
              && negb (ensembleResponseSent s)) eqn:E;
      [|apply (spends_ret tt s)].
    destruct (nonempty (pfield ensembleId event)) as [eid|];
      [|apply (spends_ret tt s)].
    apply andb_true_iff in E. destruct E as [_ E].
    apply negb_true_iff in E.
    unfold bind, setSent, lift. cbn [trace ensembleResponseSent].
    destruct (report_at_most_one pod eid
                (join LF
                   (filter truthy
                      [trim (sanitizeOutboundText parseInlineDirectives
                               (Some match text payload with
                                     | Some t => t
                                     | None => EmptyString
                                     end));
                       trim_or (mediaUrl payload) EmptyString]))
                (postedId posted) (trace s)) as (ext & Hx & L).
    destruct (reportEnsembleResponse _ _ _ _ _ _ (trace s)) as [tr1 [v|e]];
      cbn [fst] in Hx; subst tr1; exists ext; cbn [fst trace ret];
      (split; [reflexivity|]); unfold budget; cbn [ensembleResponseSent];
      rewrite E; lia.
Qed.

Lemma deliverBlocks_spends event pod threadId blocks :
  spends (deliverBlocks' event pod threadId blocks).
Proof.
  induction blocks as [|b rest IH]; cbn [deliverBlocks].
  - apply spends_ret.
  - apply spends_bind; [|intros; exact IH].
    apply spends_catch; [apply deliver_spends|].
    intros e. apply spends_lift, addsT_emit. reflexivity.
Qed.

(** The state in which the dispatcher starts. *)
Lemma dispatch_path_spends event pod :
  nonempty (podId event) = Some pod ->
  (type event =? "summary.request") = false ->
  truthy (rawContentOf event) = true ->
  exists s, onEvent' event initial = ackIfId' event s
            /\ reports (trace s) <= 1.
Proof.
  intros Hp Ht Hr. unfold onEvent. rewrite Hp, Ht, Hr. cbn [negb].
  unfold dispatchReplyWithBufferedBlockDispatcher.
  fold (routeOf' pod); fold (contextOf' event pod);
    fold (optionsOf' pod).
  set (mid := {| trace := [SetStatus key StInbound;
                  RecordInboundSession
                    (resolveStorePath (agentId (routeOf' pod)))
                    (SessionKey (contextOf' event pod)) (contextOf' event pod)
                    (nonempty (threadIdOf event));
                  DispatchBegin (contextOf' event pod) (optionsOf' pod)];
                 ensembleResponseSent := false |}).
  destruct (deliverBlocks_returns fetch account DEFAULT_ACCOUNT_ID
              parseInlineDirectives event pod (threadIdOf event)
              (replyBlocks (trace mid) (contextOf' event pod) (optionsOf' pod))
              mid) as (s1 & ext & Hd & Htr & _).
  destruct (deliverBlocks_spends event pod (threadIdOf event)
              (replyBlocks (trace mid) (contextOf' event pod) (optionsOf' pod))
              mid) as (ext' & Htr' & L).
  rewrite Hd in Htr', L. cbn [fst] in Htr', L.
  assert (ext' = ext) by (rewrite Htr in Htr'; now apply app_inv_head in Htr').
  subst ext'. subst mid. cbn [trace] in Hd, Htr.
  exists {| trace := app (trace s1) [DispatchEnd];
            ensembleResponseSent := ensembleResponseSent s1 |}.
  split.
  - unfold bind, setStatus, recordInboundSession, setSent, getTrace, lift,
      emit, ret, push.
    cbn [trace ensembleResponseSent initial app].
    rewrite Hd. reflexivity.
  - cbn [trace]. rewrite Htr, !reports_app.
    unfold budget in L. cbn [ensembleResponseSent] in L.
    change (reports [DispatchEnd]) with 0.
    match goal with
    | |- context [reports (?a :: ?l)] => change (reports (a :: l)) with 0
    end.
    destruct (ensembleResponseSent s1); lia.
Qed.

(** X23. Whatever the reply pipeline produces and whatever the network
    answers, one run reports at most one ensemble response; it reports none
    when the event is no ensemble turn, and none when the turn carries no
    ensemble id. *)
Theorem ensemble_response_reported_at_most_once event pod :
  nonempty (podId event) = Some pod ->
  reports (fst (run' event)) <= 1
  /\ ((type event =? "ensemble.turn") = false
      \/ nonempty (pfield ensembleId event) = None ->
      reports (fst (run' event)) = 0).
Proof.
  intros Hp.
  assert (Z : (type event =? "ensemble.turn") = false
              \/ nonempty (pfield ensembleId event) = None ->
              reports (fst (run' event)) = 0).
  { intros H. apply reports_none, run_adds, onEvent_adds.
    - apply no_report_other.
    - intros _ p txt. apply postMessage_no_report.
    - intros _ p payload. now apply deliver_no_report.
    - apply ackIfId_no_report. }
  split; [|exact Z].
  destruct (type event =? "ensemble.turn") eqn:Te;
    [|rewrite Z; [lia | now left]].
  assert (Ht : (type event =? "summary.request") = false).
  { apply String.eqb_eq in Te. now rewrite Te. }
  rewrite run_fst.
  destruct (truthy (rawContentOf event)) eqn:Hr.
  - destruct (dispatch_path_spends event pod Hp Ht Hr) as (s & -> & L).
    destruct (ackIfId_no_report event s) as (ext & -> & F).
    rewrite reports_app, (reports_none _ F). lia.
  - rewrite (empty_path fetch account DEFAULT_ACCOUNT_ID resolveAgentRoute
               finalizeInboundContext resolveStorePath configuredPrefix
               parseInlineDirectives replyBlocks event pod Hp Ht Hr).
    destruct (ackIfId_no_report event entered') as (ext & -> & F).
    rewrite reports_app, (reports_none _ F). cbn. lia.
Qed.

(** *** What reaches the pipeline *)

Lemma ensemble_body_nonempty event ctx :
  pfield context event = Some ctx ->
  truthy (formatEnsembleTurnBody event) = true.
Proof.
  intros H. unfold formatEnsembleTurnBody. rewrite H. cbv zeta.
  match goal with
  | |- truthy (join LF ?l) = true =>
      assert (E : exists rest, l = ("Ensemble topic: " ++ topic ctx) :: rest)
  end.
  { repeat match goal with
           | |- context [if (0 <? ?n)%nat then _ else _] =>
               destruct (0 <? n)%nat
           end; unfold push; cbn [app]; eexists; reflexivity. }
  destruct E as [rest ->].
  destruct (join_cons LF ("Ensemble topic: " ++ topic ctx) rest) as [t ->].
  reflexivity.
Qed.


(** X25. A run starts the reply pipeline at most once, and never for a
    summary request. *)
Theorem pipeline_started_at_most_once event pod :
  nonempty (podId event) = Some pod ->
  length (dispatched (fst (run' event))) <= 1
  /\ ((type event =? "summary.request") = true ->
      dispatched (fst (run' event)) = []).
Proof.
  intros Hp.
  rewrite (run_dispatches fetch account DEFAULT_ACCOUNT_ID resolveAgentRoute
             finalizeInboundContext resolveStorePath configuredPrefix
             parseInlineDirectives replyBlocks event pod Hp).
  split.
  - destruct (_ || _); cbn; lia.
  - intros ->. reflexivity.
Qed.

(** *** The acknowledgment and the summary *)

Lemma ackIfId_attempts event i t s :
  nonempty (_id event) = Some i ->
  runtimeTokenOf c = Some t ->
  exists rq,
    trace (fst (ackIfId' event s)) = app (trace s) [Fetch rq]
    /\ rq_method rq = POST
    /\ rq_url rq = ackUrl c i.
Proof.
  intros Hi Ht. unfold runtimeTokenOf in Ht.
  unfold ackIfId, ackEvent, Client.ackEvent, lift. rewrite Hi.
  unfold Client.runtimeHeaders, Client.doFetch, bind, ret, throw, push.
  rewrite Ht.
  match goal with
  | |- context [fetch ?t ?r] => destruct (fetch t r) as [res|err]
  end; [destruct (ok res)|]; cbn [negb fst trace];
    eexists; repeat split.
Qed.


(** X27. When the post of the summary message of a summary request is
    answered with a failure, the run raises right after it: the post to the
    pod is its only request, and the event is not acknowledged. *)
Theorem failed_summary_post_is_not_acknowledged event pod sm t :
  (type event =? "summary.request") = true ->
  nonempty (podId event) = Some pod ->
  pfield summary event = Some sm ->
  runtimeTokenOf c = Some t ->
  non_success fetch [SetStatus key StInbound] ->
  exists rq msg,
    run' event = ([SetStatus key StInbound; Fetch rq], Thrown (Error msg))
    /\ rq_url rq = messageUrl c pod
    /\ contentsOf [Fetch rq] = [buildSummaryMessage (Some sm)]
    /\ filter is_ack (fst (run' event)) = [].
Proof.
  intros Ht Hp Hs Htok Hns. unfold runtimeTokenOf in Htok.
  unfold run, onEvent. rewrite Hp, Ht, Hs, summary_message_nonempty.
  unfold setStatus, lift, emit, postMessage, Client.postMessage,
    Client.runtimeHeaders, Client.doFetch, bind, ret, throw, push.
  cbn [trace ensembleResponseSent initial app]. rewrite Htok.
  match goal with
  | |- context [fetch ?tr ?r] =>
      destruct (Hns r) as (res & -> & Hok)
  end.
  rewrite Hok. cbn [negb trace fst app].
  do 2 eexists. split; [reflexivity|]. split; [reflexivity|].
  split; [reflexivity|].
  cbn [filter is_ack rq_method rq_url]. unfold messageUrl.
  match goal with
  | |- context [endsWith ?u "/ack"] =>
      assert (E : endsWith u "/ack" = false)
  end.
  { rewrite <- !append_assoc. apply not_ack_url; [cbn; lia | reflexivity]. }
  now rewrite E.
Qed.

End WithHost.

Lemma thread_replies_stay_in_thread_witness :
  Forall (reply_or_ack (commentUrl testClient "post-1"))
         (fst (runOn netOk threeBlocks threadEvent)).
Proof.
  apply (thread_replies_stay_in_thread netOk testAccount "default"
           (fun _ _ => testRoute) (fun c => c) (fun _ => "/tmp/store")
           testPrefix (fun t => t) threeBlocks threadEvent paddedThread);
    [reflexivity | reflexivity | discriminate].
Defined.

Lemma ensemble_response_reported_at_most_once_witness :
  reports (fst (runOn netOk threeBlocks ensembleEvent)) <= 1.
Proof.
  apply (ensemble_response_reported_at_most_once netOk testAccount "default"
           (fun _ _ => testRoute) (fun c => c) (fun _ => "/tmp/store")
           testPrefix (fun t => t) threeBlocks ensembleEvent "pod-abc").
  reflexivity.
Defined.


Lemma pipeline_started_at_most_once_witness :
  length (dispatched (fst (runOn netOk noReply summaryEvent))) <= 1
  /\ dispatched (fst (runOn netOk noReply summaryEvent)) = [].
Proof.
  destruct (pipeline_started_at_most_once netOk testAccount "default"
              (fun _ _ => testRoute) (fun c => c) (fun _ => "/tmp/store")
              testPrefix (fun t => t) noReply summaryEvent "pod-1" eq_refl)
    as [H1 H2].
  split; [exact H1 | exact (H2 eq_refl)].
Defined.


Lemma failed_summary_post_is_not_acknowledged_witness :
  exists rq msg,
    runOn netBadGateway noReply summaryEvent
    = ([SetStatus "test-account" StInbound; Fetch rq], Thrown (Error msg))
    /\ rq_url rq = messageUrl testClient "pod-1"
    /\ contentsOf [Fetch rq] = [buildSummaryMessage (Some dailySummary)]
    /\ filter is_ack (fst (runOn netBadGateway noReply summaryEvent)) = [].
Proof.
  apply (failed_summary_post_is_not_acknowledged netBadGateway testAccount
           "default" (fun _ _ => testRoute) (fun c => c)
           (fun _ => "/tmp/store") testPrefix (fun t => t) noReply
           summaryEvent "pod-1" dailySummary "test-token");
    try reflexivity.
  intros rq. exists badGateway. split; reflexivity.
Defined.

Lemma acknowledged_at_most_once_witness :
  length (filter is_ack (fst (runOn netOk threeBlocks mentionEvent))) <= 1.
Proof.
  apply (acknowledged_at_most_once netOk testAccount "default"
           (fun _ _ => testRoute) (fun c => c) (fun _ => "/tmp/store")
           testPrefix (fun t => t) threeBlocks mentionEvent "pod-1").
  reflexivity.
Defined.

Lemma ensemble_body_framing_witness :
  includes (formatEnsembleTurnBody ensembleEvent)
           "You are the starter. Provide the opening message." = true.
Proof.
  exact (FormatFacts.ensemble_body_framing ensembleEvent ensembleContext
           eq_refl).
Defined.

End DeliveryFacts.

(** ** The acknowledgment of an event *)

Module AcknowledgmentFacts.
Import Js Events Format Http Inbound Eff Handler Vocabulary Observe Scenarios
  Cases StringFacts Tactics HandlerFacts DeliveryFacts.
#[local] Open Scope eff_scope.

Section WithHost.

Variable fetch : Trace -> Request -> FetchResult.
Variable account : ResolvedCommonlyAccount.
Variable DEFAULT_ACCOUNT_ID : string.
Variable resolveAgentRoute : option string -> string -> Route.
Variable finalizeInboundContext : InboundContext -> InboundContext.
Variable resolveStorePath : string -> string.
Variable configuredPrefix : string -> option string.
Variable parseInlineDirectives : string -> string.
Variable replyBlocks :
  Trace -> InboundContext -> DispatcherOptions -> list ReplyBlock.

Abbreviation ackIfId' := (ackIfId fetch account).
Abbreviation onEvent' :=
  (onEvent fetch false account DEFAULT_ACCOUNT_ID resolveAgentRoute
           finalizeInboundContext resolveStorePath configuredPrefix
           parseInlineDirectives replyBlocks).
Abbreviation run' :=
  (run fetch false account DEFAULT_ACCOUNT_ID resolveAgentRoute
       finalizeInboundContext resolveStorePath configuredPrefix
       parseInlineDirectives replyBlocks).
Abbreviation key := (connectionKey account DEFAULT_ACCOUNT_ID).
Abbreviation entered' := (entered account DEFAULT_ACCOUNT_ID).
Abbreviation c := (client account).

(** A summary request reaches its acknowledgment, unless the post of the
    summary message raises: then the run ends as that post ended. *)
Lemma summary_outcome event pod :
  nonempty (podId event) = Some pod ->
  (type event =? "summary.request") = true ->
  (exists s, onEvent' event initial = ackIfId' event s
             /\ Forall plain (trace s))
  \/ (exists s e,
         onEvent' event initial = (s, Thrown e)
         /\ postMessage fetch account pod
              (buildSummaryMessage (pfield summary event)) []
              [SetStatus key StInbound]
            = (trace s, Thrown e)
         /\ Forall plain (trace s)).
Proof.
  intros Hp Ht. unfold onEvent. rewrite Hp, Ht.
  assert (He : Forall plain (trace entered'))
    by (repeat constructor).
  change (bind (setStatus account DEFAULT_ACCOUNT_ID StInbound) ?k initial)
    with (k tt entered').
  cbv beta.
  set (txt := buildSummaryMessage (pfield summary event)).
  destruct (truthy txt).
  - destruct (adds_lift plain _
                (postMessage_plain fetch account pod txt []) entered')
      as (ext & H & F).
    unfold bind.
    destruct (lift (postMessage fetch account pod txt []) entered')
      as [s1 [v|e]] eqn:L; cbn [fst] in H.
    + left. exists s1. split; [reflexivity|].
      rewrite H. now apply Forall_app.
    + right. exists s1, e. split; [reflexivity|]. split.
      * unfold lift in L. cbn [trace entered] in L.
        destruct (postMessage fetch account pod txt []
                    [SetStatus key StInbound]) as [tr r].
        injection L as <- ->. reflexivity.
      * rewrite H. now apply Forall_app.
  - left. exists entered'. split; [reflexivity | exact He].
Qed.

(** An event that is no summary request always reaches its
    acknowledgment. *)
Lemma content_outcome event pod :
  nonempty (podId event) = Some pod ->
  (type event =? "summary.request") = false ->
  exists s, onEvent' event initial = ackIfId' event s
            /\ Forall (fun a => is_ack a = false) (trace s)
            /\ (dispatched (trace s) = [] \/ In DispatchEnd (trace s)).
Proof.
  intros Hp Ht. destruct (truthy (rawContentOf event)) eqn:Hr.
  - destruct (dispatch_path fetch account DEFAULT_ACCOUNT_ID
                resolveAgentRoute finalizeInboundContext resolveStorePath
                configuredPrefix parseInlineDirectives replyBlocks
                event pod Hp Ht Hr) as (s & ext & H & Hs & F).
    exists s. split; [exact H|]. rewrite Hs. split.
    + repeat first [apply Forall_cons | apply Forall_app; split
                    | apply Forall_nil]; try reflexivity.
      eapply Forall_impl; [apply plain_no_ack | exact F].
    + right. rewrite !in_app_iff. right. right. now left.
  - exists entered'. split.
    + now apply (empty_path fetch account DEFAULT_ACCOUNT_ID
                   resolveAgentRoute finalizeInboundContext
                   resolveStorePath configuredPrefix parseInlineDirectives
                   replyBlocks event pod).
    + split; [repeat constructor | left; reflexivity].
Qed.


End WithHost.



End AcknowledgmentFacts.

(** ** The plugin entry *)

Module PluginFacts.
Import Js Accounts Plugin Vocabulary Cases StringFacts AccountFacts.

Section Resolution.

Variable DEFAULT_ACCOUNT_ID : string.
Variable normalizeAccountId : option string -> string.
Variable listBoundAccountIds : OpenClawConfig -> list string.
Variable resolveDefaultAgentBoundAccountId : OpenClawConfig -> option string.
Variable sortIds : list string -> list string.
Variable env : Env.

Abbreviation resolve :=
  (resolveCommonlyAccount DEFAULT_ACCOUNT_ID normalizeAccountId
     listBoundAccountIds resolveDefaultAgentBoundAccountId sortIds env).

(** X30. The tool factory offers the Commonly tools only outside a
    sandbox, with a configuration, and for an account that is configured;
    the client the tools share then carries that account's runtime token,
    which is not empty, and a base URL that is not empty. *)
Theorem tools_only_for_configured_accounts (ctx : ToolContext)
        (client : Client.CommonlyClientConfig) :
  toolFactory resolve ctx = Some client ->
  sandboxed ctx = false
  /\ exists cfg,
       tc_config ctx = Some cfg
       /\ configured (resolve cfg None) = true
       /\ client = clientOf (resolve cfg None)
       /\ runtimeTokenOf client = Some (r_runtimeToken (resolve cfg None))
       /\ r_runtimeToken (resolve cfg None) <> EmptyString
       /\ Client.baseUrl client <> EmptyString.
Proof.
  unfold toolFactory. destruct (sandboxed ctx); [discriminate|].
  destruct (tc_config ctx) as [cfg|]; [|discriminate].
  cbv zeta. destruct (configured (resolve cfg None)) eqn:C;
    [|discriminate].
  cbn [negb]. intros [= <-]. split; [reflexivity|].
  exists cfg. split; [reflexivity|]. split; [exact C|].
  split; [reflexivity|].
  destruct (resolved_is_built DEFAULT_ACCOUNT_ID normalizeAccountId
              listBoundAccountIds resolveDefaultAgentBoundAccountId sortIds
              env cfg None) as (id & c & E).
  rewrite E in *.
  pose proof (configured_token env id c C) as T.
  split; [exact T|]. split.
  - unfold runtimeTokenOf in T. apply nonempty_Some in T. apply T.
  - unfold buildAccount, clientOf. cbn [Client.baseUrl r_baseUrl].
    unfold orDefault.
    destruct (orOpt (normalizeString (baseUrl c)) _) as [u|] eqn:U;
      [|discriminate].
    unfold orOpt in U. destruct (normalizeString (baseUrl c)) eqn:U1.
    + injection U as <-. apply (normalizeString_trimmed _ _ U1).
    + apply (orOpt_trimmed _ _ _ U).
Qed.

End Resolution.

Lemma tools_only_for_configured_accounts_witness :
  exists client,
    toolFactory resolveTest toolContext = Some client
    /\ runtimeTokenOf client = Some "test-token".
Proof.
  eexists. split; [reflexivity|].
  destruct (tools_only_for_configured_accounts "default"
              (fun o => match o with Some s => trim s | None => EmptyString end)
              (fun _ => []) (fun _ => None) (fun l => l) noEnv
              toolContext _ eq_refl) as (_ & cfg & E & _ & _ & T & _).
  injection E as <-. exact T.
Defined.

End PluginFacts.
